(** * VulTra: detectors, rule store and suggestion cache

    A shallow embedding of the TypeScript sources of the analyzer
    (LoggingSensitivityChecker, RuleEngine, SemanticLoggingAnalyzer,
    AISuggestionHandler, CodeActionProvider and DiagnosticProvider)
    together with the part of the JavaScript runtime they lean on:
    strings, [RegExp] objects with their mutable [lastIndex],
    [String.prototype.match], [split], [replace] and [toUpperCase].

    Conventions.
    - A JavaScript string is a Rocq [string]; each [ascii] stands for one
      UTF-16 code unit below 256, so the development covers Latin-1 text.
    - Line numbers and string indices are [nat]; 32-bit integers are [Z]
      with the wrap-around written out.
    - An object with mutable fields is a record that every method takes
      and returns. *)

From Stdlib Require Import ZArith NArith List Bool Lia Ascii String DecimalString.
From stdpp Require Import base option list strings gmap.


(* ===================================================================== *)
(** ** JavaScript strings *)
(* ===================================================================== *)

Module JsString.

Definition chars (s : string) : list ascii := list_ascii_of_string s.
Definition ofChars (l : list ascii) : string := string_of_list_ascii l.

(** The double-quote and line-feed code units. *)
Definition dq : string := String (ascii_of_nat 34) EmptyString.
Definition nl : string := String (ascii_of_nat 10) EmptyString.

Definition code (c : ascii) : N := N_of_ascii c.

(** [s.split(sep)] on a line feed: never empty, the empty string gives one
    empty line. *)
Fixpoint splitChars (sep : ascii) (cur : list ascii) (cs : list ascii)
  : list (list ascii) :=
  match cs with
  | [] => [rev cur]
  | c :: cs' =>
      if Ascii.eqb c sep then rev cur :: splitChars sep [] cs'
      else splitChars sep (c :: cur) cs'
  end.

Definition splitLines (s : string) : list string :=
  map ofChars (splitChars (ascii_of_nat 10) [] (chars s)).

(** [String(n)] for a non-negative integer. *)
Definition ofNat (n : nat) : string := NilZero.string_of_uint (Nat.to_uint n).
Definition ofZ (z : Z) : string := NilZero.string_of_int (Z.to_int z).

(** [s.toLowerCase()] on Latin-1 text. *)
Definition lowerChar (c : ascii) : ascii :=
  let n := code c in
  if ((65 <=? n) && (n <=? 90))%N then ascii_of_N (n + 32)
  else if ((192 <=? n) && (n <=? 222) && negb (n =? 215))%N then ascii_of_N (n + 32)
  else c.

Definition toLowerCase (s : string) : string := ofChars (map lowerChar (chars s)).

(** [s.includes(t)]. *)
Fixpoint isPrefix (p s : list ascii) : bool :=
  match p, s with
  | [], _ => true
  | _ :: _, [] => false
  | a :: p', b :: s' => Ascii.eqb a b && isPrefix p' s'
  end.

Fixpoint includesChars (s t : list ascii) : bool :=
  isPrefix t s ||
  match s with
  | [] => false
  | _ :: s' => includesChars s' t
  end.

Definition includes (s t : string) : bool := includesChars (chars s) (chars t).

(** [s.slice(1, -1)]. *)
Definition slice1m1 (s : string) : string :=
  let cs := chars s in
  ofChars (firstn (length cs - 2) (skipn 1 cs)).

(** [a || b] on strings: the empty string is falsy. *)
Definition orElse (a b : string) : string :=
  match a with EmptyString => b | _ => a end.

End JsString.

(* ===================================================================== *)
(** ** JavaScript regular expressions *)
(* ===================================================================== *)

Module JsRegExp.
Import JsString.

(** *** Abstract syntax *)

Inductive atom : Type :=
| AChar (c : ascii)
| ARange (lo hi : ascii)
| AWord                      (* \w *)
| ADigit                     (* \d *)
| ASpace.                    (* \s *)

Inductive regex : Type :=
| REmpty
| RDot
| RSet (invert : bool) (atoms : list atom)
| RStart                     (* ^ *)
| REnd                       (* $ *)
| RWordB (invert : bool)     (* \b and \B *)
| RSeq (r1 r2 : regex)
| RAlt (r1 r2 : regex)
| RQuant (min : nat) (max : option nat) (greedy : bool) (r : regex)
| RGroup (idx : nat) (r : regex).

(** *** Character sets *)

Definition charRange (lo hi : ascii) : list ascii :=
  map (fun i => ascii_of_nat (nat_of_ascii lo + i))
      (seq 0 (S (nat_of_ascii hi) - nat_of_ascii lo)).

Definition wordChars : list ascii :=
  charRange "a" "z" ++ charRange "A" "Z" ++ charRange "0" "9" ++ ["_"%char].

Definition spaceChars : list ascii :=
  map ascii_of_nat [9; 10; 11; 12; 13; 32; 160]%nat.

Definition members (a : atom) : list ascii :=
  match a with
  | AChar c => [c]
  | ARange lo hi => charRange lo hi
  | AWord => wordChars
  | ADigit => charRange "0" "9"
  | ASpace => spaceChars
  end.

(** Canonicalize of the language specification, for a pattern without the
    unicode flag: the upper-case mapping, kept only when it is a single
    code unit and does not send a non-ASCII unit to an ASCII one. *)
Definition canonicalize (c : ascii) : N :=
  let n := code c in
  if ((97 <=? n) && (n <=? 122))%N then (n - 32)%N
  else if ((224 <=? n) && (n <=? 254) && negb (n =? 247))%N then (n - 32)%N
  else if (n =? 181)%N then 924%N
  else if (n =? 255)%N then 376%N
  else n.

Definition sameChar (ic : bool) (a ch : ascii) : bool :=
  if ic then (canonicalize a =? canonicalize ch)%N else Ascii.eqb a ch.

Definition inSet (ic : bool) (atoms : list atom) (ch : ascii) : bool :=
  existsb (fun a => existsb (fun x => sameChar ic x ch) (members a)) atoms.

Definition isWordChar (c : ascii) : bool :=
  existsb (fun x => Ascii.eqb x c) wordChars.

Definition isLineTerminator (c : ascii) : bool :=
  ((code c =? 10) || (code c =? 13))%N.

(** *** The backtracking matcher

    A matcher takes a continuation, as in the language specification:
    [rmatch ic r k st] succeeds when [r] matches at [st] and [k] accepts
    the state reached. *)

Record mstate : Type := MState {
  prev : option ascii;            (* the code unit before the position *)
  rest : list ascii;              (* the input from the position on *)
  caps : list (nat * list ascii)  (* captures of the groups closed so far *)
}.

Definition advance (c : ascii) (s' : list ascii) (st : mstate) : mstate :=
  MState (Some c) s' (caps st).

Definition consumed (st st' : mstate) : list ascii :=
  firstn (length (rest st) - length (rest st')) (rest st).

Definition dropCap (i : nat) (cs : list (nat * list ascii)) :=
  List.filter (fun p => negb (Nat.eqb (fst p) i)) cs.

Definition setCap (i : nat) (v : list ascii) (st : mstate) : mstate :=
  MState (prev st) (rest st) ((i, v) :: dropCap i (caps st)).

Fixpoint groupsOf (r : regex) : list nat :=
  match r with
  | RSeq a b | RAlt a b => groupsOf a ++ groupsOf b
  | RQuant _ _ _ a => groupsOf a
  | RGroup i a => i :: groupsOf a
  | _ => []
  end.

Definition clearCaps (gs : list nat) (st : mstate) : mstate :=
  MState (prev st) (rest st)
         (List.filter (fun p => negb (existsb (Nat.eqb (fst p)) gs)) (caps st)).

Definition atWordBoundary (st : mstate) : bool :=
  let a := match prev st with Some c => isWordChar c | None => false end in
  let b := match rest st with c :: _ => isWordChar c | [] => false end in
  xorb a b.

Definition decMax (m : option nat) : option nat :=
  match m with Some n => Some (Nat.pred n) | None => None end.

Definition orElseM (a : option mstate) (b : unit -> option mstate) : option mstate :=
  match a with Some x => Some x | None => b tt end.

(** RepeatMatcher: [m] matches one round of the quantified atom, [gs]
    are the groups inside it, whose captures each round forgets.  Once
    [min] is met a round that consumes nothing is refused, so the
    rounds are bounded by [min] plus the input left, which is the
    budget [rmatch] gives; see [repeatMatcher_fuel]. *)
Section Repeat.
Variable m : (mstate -> option mstate) -> mstate -> option mstate.
Variable gs : list nat.
Variable greedy : bool.
Variable k : mstate -> option mstate.

Fixpoint repeatMatcher (fuel min : nat) (max : option nat) (x : mstate)
         {struct fuel} : option mstate :=
  match max with
  | Some 0 => k x
  | _ =>
      let d (y : mstate) : option mstate :=
        if Nat.eqb min 0 && Nat.eqb (length (rest y)) (length (rest x))
        then None
        else match fuel with
             | 0 => None
             | S f => repeatMatcher f (Nat.pred min) (decMax max) y
             end in
      let xr := clearCaps gs x in
      if negb (Nat.eqb min 0) then m d xr
      else if greedy
           then orElseM (m d xr) (fun _ => k x)
           else orElseM (k x) (fun _ => m d xr)
  end.
End Repeat.

Fixpoint rmatch (ic : bool) (r : regex) (k : mstate -> option mstate)
         (st : mstate) {struct r} : option mstate :=
  match r with
  | REmpty => k st
  | RDot =>
      match rest st with
      | c :: s' => if isLineTerminator c then None else k (advance c s' st)
      | [] => None
      end
  | RSet inv atoms =>
      match rest st with
      | c :: s' => if xorb inv (inSet ic atoms c) then k (advance c s' st) else None
      | [] => None
      end
  | RStart => match prev st with None => k st | Some _ => None end
  | REnd => match rest st with [] => k st | _ :: _ => None end
  | RWordB inv => if xorb inv (atWordBoundary st) then k st else None
  | RSeq r1 r2 => rmatch ic r1 (rmatch ic r2 k) st
  | RAlt r1 r2 => orElseM (rmatch ic r1 k st) (fun _ => rmatch ic r2 k st)
  | RGroup i r1 => rmatch ic r1 (fun st' => k (setCap i (consumed st st') st')) st
  | RQuant min max greedy r1 =>
      repeatMatcher (rmatch ic r1) (groupsOf r1) greedy k
                    (min + length (rest st)) min max st
  end.

Definition digitOf (c : ascii) : option nat :=
  let n := nat_of_ascii c in
  if Nat.leb 48 n && Nat.leb n 57 then Some (n - 48) else None.

(** *** Pattern text

    [new RegExp(text)] for the part of the pattern grammar this
    repository writes: literals, [.], escapes [\s \w \d \t \n \r \f \v]
    and escaped punctuation, classes with ranges and negation, groups,
    [(?:...)], alternation, [^ $ \b \B] and the quantifiers
    [* + ? {n} {n,} {n,m}] with their lazy forms.  [None] is the
    constructor's SyntaxError (an unterminated group or class, a
    quantifier with nothing to repeat, a range or a bound out of order)
    and is also returned for syntax outside this fragment. *)

Definition isSyntaxChar (c : ascii) : bool :=
  existsb (Ascii.eqb c) (chars "^$\.*+?()[]{}|").

Definition isAlnum (c : ascii) : bool :=
  let n := nat_of_ascii c in
  (Nat.leb 48 n && Nat.leb n 57) || (Nat.leb 65 n && Nat.leb n 90)
  || (Nat.leb 97 n && Nat.leb n 122).

Definition escapeAtom (c : ascii) : option atom :=
  if Ascii.eqb c "s" then Some ASpace
  else if Ascii.eqb c "w" then Some AWord
  else if Ascii.eqb c "d" then Some ADigit
  else if Ascii.eqb c "t" then Some (AChar (ascii_of_nat 9))
  else if Ascii.eqb c "n" then Some (AChar (ascii_of_nat 10))
  else if Ascii.eqb c "v" then Some (AChar (ascii_of_nat 11))
  else if Ascii.eqb c "f" then Some (AChar (ascii_of_nat 12))
  else if Ascii.eqb c "r" then Some (AChar (ascii_of_nat 13))
  else if isAlnum c then None
  else Some (AChar c).

Definition classAtom (cs : list ascii) : option (atom * list ascii) :=
  match cs with
  | [] => None
  | c :: cs1 =>
      if Ascii.eqb c "\" then
        match cs1 with
        | [] => None
        | e :: cs2 =>
            match escapeAtom e with
            | Some a => Some (a, cs2)
            | None => None
            end
        end
      else Some (AChar c, cs1)
  end.

Fixpoint parseClass (fuel : nat) (cs : list ascii) (acc : list atom)
  : option (list atom * list ascii) :=
  match fuel with
  | 0 => None
  | S f =>
      match cs with
      | [] => None
      | c :: cs1 =>
          if Ascii.eqb c "]" then Some (rev acc, cs1)
          else
            match classAtom cs with
            | None => None
            | Some (a, cs2) =>
                match cs2 with
                | d :: (e :: _) as cs3 =>
                    if Ascii.eqb d "-" && negb (Ascii.eqb e "]") then
                      match classAtom cs3 with
                      | Some (b, cs4) =>
                          match a, b with
                          | AChar lo, AChar hi =>
                              if Nat.leb (nat_of_ascii lo) (nat_of_ascii hi)
                              then parseClass f cs4 (ARange lo hi :: acc)
                              else None
                          | _, _ => None
                          end
                      | None => None
                      end
                    else parseClass f cs2 (a :: acc)
                | _ => parseClass f cs2 (a :: acc)
                end
            end
      end
  end.

Fixpoint readDigits (cs : list ascii) (acc : nat) (seen : bool)
  : option (nat * list ascii) :=
  match cs with
  | c :: cs' =>
      match digitOf c with
      | Some d => readDigits cs' (10 * acc + d) true
      | None => if seen then Some (acc, cs) else None
      end
  | [] => if seen then Some (acc, cs) else None
  end.

Definition parseBounds (cs : list ascii) : option (nat * option nat * list ascii) :=
  match readDigits cs 0 false with
  | None => None
  | Some (mn, cs1) =>
      match cs1 with
      | c :: cs2 =>
          if Ascii.eqb c "}" then Some (mn, Some mn, cs2)
          else if Ascii.eqb c "," then
            match cs2 with
            | c2 :: cs3 =>
                if Ascii.eqb c2 "}" then Some (mn, None, cs3)
                else
                  match readDigits cs2 0 false with
                  | Some (mx, c3 :: cs4) =>
                      if Ascii.eqb c3 "}" && Nat.leb mn mx
                      then Some (mn, Some mx, cs4) else None
                  | _ => None
                  end
            | [] => None
            end
          else None
      | [] => None
      end
  end.

Definition lazyMark (cs : list ascii) : bool * list ascii :=
  match cs with
  | c :: cs' => if Ascii.eqb c "?" then (false, cs') else (true, cs)
  | [] => (true, cs)
  end.

(** The quantifier that may follow an atom. *)
Definition quantify (r : regex) (cs : list ascii) : option (regex * list ascii) :=
  match cs with
  | c :: cs1 =>
      if Ascii.eqb c "*" then
        let (g, cs2) := lazyMark cs1 in Some (RQuant 0 None g r, cs2)
      else if Ascii.eqb c "+" then
        let (g, cs2) := lazyMark cs1 in Some (RQuant 1 None g r, cs2)
      else if Ascii.eqb c "?" then
        let (g, cs2) := lazyMark cs1 in Some (RQuant 0 (Some 1) g r, cs2)
      else if Ascii.eqb c "{" then
        match parseBounds cs1 with
        | Some (mn, mx, cs2) =>
            let (g, cs3) := lazyMark cs2 in Some (RQuant mn mx g r, cs3)
        | None => None
        end
      else Some (r, cs)
  | [] => Some (r, cs)
  end.

Definition literal (c : ascii) : regex := RSet false [AChar c].

Definition andThen {A B : Type} (x : option A) (f : A -> option B) : option B :=
  match x with Some a => f a | None => None end.

(** Disjunction, Alternative and Term; [gi] counts the capturing groups
    opened so far. *)
Fixpoint parseDisj (fuel : nat) (cs : list ascii) (gi : nat) {struct fuel}
  : option (regex * list ascii * nat) :=
  match fuel with
  | 0 => None
  | S f =>
      andThen (parseAlt f cs gi) (fun '(r1, cs1, g1) =>
        match cs1 with
        | c :: cs2 =>
            if Ascii.eqb c "|" then
              andThen (parseDisj f cs2 g1) (fun '(r2, cs3, g2) =>
                Some (RAlt r1 r2, cs3, g2))
            else Some (r1, cs1, g1)
        | [] => Some (r1, cs1, g1)
        end)
  end
with parseAlt (fuel : nat) (cs : list ascii) (gi : nat) {struct fuel}
  : option (regex * list ascii * nat) :=
  match fuel with
  | 0 => None
  | S f =>
      match cs with
      | [] => Some (REmpty, cs, gi)
      | c :: _ =>
          if Ascii.eqb c "|" || Ascii.eqb c ")" then Some (REmpty, cs, gi)
          else
            andThen (parseTerm f cs gi) (fun '(r1, cs1, g1) =>
              andThen (parseAlt f cs1 g1) (fun '(r2, cs2, g2) =>
                Some (match r2 with REmpty => r1 | _ => RSeq r1 r2 end, cs2, g2)))
      end
  end
with parseTerm (fuel : nat) (cs : list ascii) (gi : nat) {struct fuel}
  : option (regex * list ascii * nat) :=
  match fuel with
  | 0 => None
  | S f =>
      match cs with
      | [] => None
      | c :: cs1 =>
          if Ascii.eqb c "^" then Some (RStart, cs1, gi)
          else if Ascii.eqb c "$" then Some (REnd, cs1, gi)
          else if Ascii.eqb c "." then
            andThen (quantify RDot cs1) (fun '(r, cs2) => Some (r, cs2, gi))
          else if Ascii.eqb c "[" then
            let '(inv, cs2) :=
              match cs1 with
              | n :: cs2 => if Ascii.eqb n "^" then (true, cs2) else (false, cs1)
              | [] => (false, cs1)
              end in
            andThen (parseClass (S (length cs2)) cs2 []) (fun '(atoms, cs3) =>
              andThen (quantify (RSet inv atoms) cs3) (fun '(r, cs4) =>
                Some (r, cs4, gi)))
          else if Ascii.eqb c "(" then
            match cs1 with
            | q :: cs2 =>
                if Ascii.eqb q "?" then
                  match cs2 with
                  | k :: cs3 =>
                      if Ascii.eqb k ":" then
                        andThen (parseDisj f cs3 gi) (fun '(r, cs4, g1) =>
                          match cs4 with
                          | e :: cs5 =>
                              if Ascii.eqb e ")" then
                                andThen (quantify r cs5) (fun '(r', cs6) =>
                                  Some (r', cs6, g1))
                              else None
                          | [] => None
                          end)
                      else None
                  | [] => None
                  end
                else
                  andThen (parseDisj f cs1 (S gi)) (fun '(r, cs4, g1) =>
                    match cs4 with
                    | e :: cs5 =>
                        if Ascii.eqb e ")" then
                          andThen (quantify (RGroup (S gi) r) cs5) (fun '(r', cs6) =>
                            Some (r', cs6, g1))
                        else None
                    | [] => None
                    end)
            | [] => None
            end
          else if Ascii.eqb c "\" then
            match cs1 with
            | e :: cs2 =>
                if Ascii.eqb e "b" then Some (RWordB false, cs2, gi)
                else if Ascii.eqb e "B" then Some (RWordB true, cs2, gi)
                else
                  andThen (escapeAtom e) (fun a =>
                    andThen (quantify (RSet false [a]) cs2) (fun '(r, cs3) =>
                      Some (r, cs3, gi)))
            | [] => None
            end
          else if isSyntaxChar c then None
          else
            andThen (quantify (literal c) cs1) (fun '(r, cs2) => Some (r, cs2, gi))
      end
  end.

Definition parsePattern (text : string) : option regex :=
  let cs := chars text in
  match parseDisj (4 * length cs + 8) cs 0 with
  | Some (r, [], _) => Some r
  | _ => None
  end.

(** *** RegExp objects

    [lastIndex] is the one mutable field; only a global pattern reads or
    writes it. *)

Record RegExp : Type := mkRegExp {
  source : regex;
  global : bool;
  ignoreCase : bool;
  lastIndex : nat
}.

Record MatchResult : Type := mkMatch {
  index : nat;
  matched : string;
  groups : list (nat * list ascii);
  input : string
}.

Definition setLastIndex (R : RegExp) (n : nat) : RegExp :=
  mkRegExp (source R) (global R) (ignoreCase R) n.

(** Move to position [n] of the input, remembering the unit before it;
    [None] when [n] is past the end. *)
Fixpoint seek (n : nat) (p : option ascii) (s : list ascii)
  : option (option ascii * list ascii) :=
  match n with
  | 0 => Some (p, s)
  | S n' => match s with
            | [] => None
            | c :: s' => seek n' (Some c) s'
            end
  end.

(** Try the pattern at [i], then at every later position. *)
Fixpoint searchFrom (ic : bool) (r : regex) (p : option ascii) (s : list ascii)
         (i : nat) : option (nat * mstate * mstate) :=
  let st := MState p s [] in
  match rmatch ic r Some st with
  | Some st' => Some (i, st, st')
  | None => match s with
            | [] => None
            | c :: s' => searchFrom ic r (Some c) s' (S i)
            end
  end.

(** [R.exec(S)] (RegExpBuiltinExec). *)
Definition exec (R : RegExp) (S : string) : RegExp * option MatchResult :=
  let li := if global R then lastIndex R else 0 in
  let failure := (if global R then setLastIndex R 0 else R, None) in
  match seek li None (chars S) with
  | None => failure
  | Some (p, s) =>
      match searchFrom (ignoreCase R) (source R) p s li with
      | None => failure
      | Some (i, st, st') =>
          let m := consumed st st' in
          (if global R then setLastIndex R (i + length m) else R,
           Some (mkMatch i (ofChars m) (caps st') S))
      end
  end.

(** [R.test(S)]. *)
Definition test (R : RegExp) (S : string) : RegExp * bool :=
  let (R', res) := exec R S in
  (R', match res with Some _ => true | None => false end).

(** [S.match(R)] for a global [R]: [lastIndex] is reset, every match is
    collected, an empty match advances by one. *)
Fixpoint matchLoop (fuel : nat) (R : RegExp) (S : string) : RegExp * list string :=
  match exec R S with
  | (R', None) => (R', [])
  | (R', Some mr) =>
      let R'' := match matched mr with
                 | EmptyString => setLastIndex R' (Datatypes.S (lastIndex R'))
                 | _ => R'
                 end in
      match fuel with
      | 0 => (R'', [matched mr])
      | Datatypes.S f =>
          let (Rf, l) := matchLoop f R'' S in (Rf, matched mr :: l)
      end
  end.

Definition stringMatch (S : string) (R : RegExp) : RegExp * option (list string) :=
  let (R', l) := matchLoop (Datatypes.S (String.length S)) (setLastIndex R 0) S in
  (R', match l with [] => None | _ :: _ => Some l end).

(** [S.replace(R, template)] for a pattern without the global flag. *)
Definition capture (n : nat) (gs : list (nat * list ascii)) : list ascii :=
  match List.find (fun p => Nat.eqb (fst p) n) gs with
  | Some (_, v) => v
  | None => []
  end.

(** GetSubstitution, for a template without named groups; [m] is the
    number of capturing groups. *)
Fixpoint substitute (m : nat) (mt before after : list ascii)
         (gs : list (nat * list ascii)) (t : list ascii) {struct t} : list ascii :=
  match t with
  | [] => []
  | c :: t1 =>
      if negb (Ascii.eqb c "$") then c :: substitute m mt before after gs t1
      else
        match t1 with
        | [] => [c]
        | d1 :: t2 =>
            if Ascii.eqb d1 "$" then c :: substitute m mt before after gs t2
            else if Ascii.eqb d1 "&" then mt ++ substitute m mt before after gs t2
            else if Ascii.eqb d1 "`" then before ++ substitute m mt before after gs t2
            else if Ascii.eqb d1 "'" then after ++ substitute m mt before after gs t2
            else
              match digitOf d1 with
              | None => c :: substitute m mt before after gs t1
              | Some n1 =>
                  let one :=
                    if Nat.leb 1 n1 && Nat.leb n1 m
                    then capture n1 gs ++ substitute m mt before after gs t2
                    else c :: substitute m mt before after gs t1 in
                  match t2 with
                  | d2 :: t3 =>
                      match digitOf d2 with
                      | Some n2 =>
                          if Nat.leb 1 (10 * n1 + n2) && Nat.leb (10 * n1 + n2) m
                          then capture (10 * n1 + n2) gs
                               ++ substitute m mt before after gs t3
                          else one
                      | None => one
                      end
                  | [] => one
                  end
              end
        end
  end.

Definition replace (S : string) (R : RegExp) (template : string) : RegExp * string :=
  match exec R S with
  | (R', None) => (R', S)
  | (R', Some mr) =>
      let cs := chars S in
      let mt := chars (matched mr) in
      let before := firstn (index mr) cs in
      let after := skipn (index mr + length mt) cs in
      (R', ofChars (before ++
                    substitute (length (groupsOf (source R))) mt before after
                               (groups mr) (chars template) ++
                    after))
  end.

End JsRegExp.

(* ===================================================================== *)
(** ** src/types/index.ts *)
(* ===================================================================== *)

Module Types.

Inductive Severity : Type := Low | Medium | High.

(** [range] and [diagnostic] belong to the editor; every detector leaves
    them [null]. *)
Record VulnerabilityIssue : Type := mkIssue {
  fileName : string;
  lineNumber : nat;
  description : string;
  severity : Severity;
  message : string;
  range : option unit;
  suggestedFix : string;
  diagnostic : option unit
}.

End Types.

(** Helpers shared by the detectors: regex literals and the array methods
    that call back into a stateful [test]. *)
Module Runtime.
Import JsString JsRegExp.

(** [new RegExp(text, flags)]; [None] when the constructor throws. *)
Definition RegExp_new (text : string) (g i : bool) : option RegExp :=
  match parsePattern text with
  | Some r => Some (mkRegExp r g i 0)
  | None => None
  end.

(** A regex literal of the source text.  A literal is checked when the
    module is loaded, so the second branch is never taken; see
    [literals_parse]. *)
Definition regexLiteral (text : string) (g i : bool) : RegExp :=
  match RegExp_new text g i with
  | Some R => R
  | None => mkRegExp (RSet false []) g i 0
  end.

(** [patterns.some(p => p.test(line))]: stops at the first pattern that
    matches; each pattern tried keeps the [lastIndex] its [test] left. *)
Fixpoint someTest (ps : list RegExp) (line : string) : list RegExp * bool :=
  match ps with
  | [] => ([], false)
  | p :: ps' =>
      let (p', b) := test p line in
      if b then (p' :: ps', true)
      else let (ps'', b') := someTest ps' line in (p' :: ps'', b')
  end.

End Runtime.

(* ===================================================================== *)
(** ** LoggingSensitivityChecker *)
(* ===================================================================== *)

Module LoggingSensitivityChecker.
Import JsString JsRegExp Runtime Types.

Record SensitivePattern : Type := mkSensitive {
  pattern : RegExp;
  sp_description : string;
  sp_severity : Severity;
  category : string
}.

Record t : Type := mkChecker {
  sensitiveMethodPatterns : list SensitivePattern;
  loggerPatterns : list RegExp
}.

Definition gi (text : string) : RegExp := regexLiteral text true true.

Definition sensitiveMethodPatterns_init : list SensitivePattern :=
  [ mkSensitive (gi "\.get(Customer|User|Personal|Profile|Account)Data\(\)")
      "Customer/user data is being logged - potential PII exposure" High "PII";
    mkSensitive (gi "\.get(Customer|User|Client)(Info|Information|Details)\(\)")
      "Customer information is being logged - potential PII exposure" High "PII";
    mkSensitive (gi "\.get(Password|Pass|Pwd|Secret|Token|Key)\(\)")
      "Password/secret data is being logged - security risk" High "Credentials";
    mkSensitive (gi "\.(password|pass|pwd|secret|token|key)\b")
      "Sensitive credential field is being logged" High "Credentials";
    mkSensitive (gi "\.get(Api|API)(Key|Token|Secret)\(\)")
      "API key/token is being logged - security risk" High "API_Credentials";
    mkSensitive (gi "\.(apiKey|apiToken|accessToken|authToken|bearerToken)\b")
      "API credentials are being logged" High "API_Credentials";
    mkSensitive (gi "\.get(SSN|SocialSecurity|CreditCard|Email|Phone|Address)\(\)")
      "Personal identifiable information (PII) is being logged" High "PII";
    mkSensitive
      (gi "\.(ssn|socialSecurity|creditCard|email|phone|address|firstName|lastName)\b")
      "PII field is being logged" Medium "PII";
    mkSensitive (gi "\.get(Account|Bank|Card|Payment)(Number|Info|Data|Details)\(\)")
      "Financial information is being logged - compliance risk" High "Financial";
    mkSensitive (gi "\.get(Session|Cookie|Auth)(Id|Data|Info)\(\)")
      "Session/authentication data is being logged" Medium "Session";
    mkSensitive (gi "\.getData\(\)")
      "Generic data method is being logged - review for sensitive content"
      Low "Generic" ].

Definition loggerPatterns_init : list RegExp :=
  [ gi "LOGGER\.(info|debug|warn|error|trace)\s*\(";
    gi "LOG\.(info|debug|warn|error|trace)\s*\(";
    gi "logger\.(info|debug|warn|error|trace)\s*\(";
    gi "log\.(info|debug|warn|error|trace)\s*\(";
    gi "System\.out\.print(ln)?\s*\(";
    gi "System\.err\.print(ln)?\s*\(" ].

(** [new LoggingSensitivityChecker()]. *)
Definition create : t := mkChecker sensitiveMethodPatterns_init loggerPatterns_init.

Definition generateSuggestedFix (category matchedPattern : string) : string :=
  let q := dq +:+ matchedPattern +:+ dq in
  if String.eqb category "PII" then
    "Remove PII logging. Consider logging only non-sensitive identifiers like user ID or hashed values. Replace "
    +:+ q +:+ " with sanitized data."
  else if String.eqb category "Credentials" then
    "Never log passwords or secrets. Remove " +:+ q
    +:+ " from log statement. Use masked values like " +:+ dq +:+ "***" +:+ dq
    +:+ " for debugging if necessary."
  else if String.eqb category "API_Credentials" then
    "API keys should never be logged. Remove " +:+ q
    +:+ " and consider logging only the first/last few characters for debugging."
  else if String.eqb category "Financial" then
    "Financial data logging violates compliance standards. Remove " +:+ q
    +:+ " and log only transaction IDs or sanitized references."
  else if String.eqb category "Session" then
    "Session data can be used for session hijacking. Remove " +:+ q
    +:+ " and log only session status or sanitized session info."
  else if String.eqb category "Generic" then
    "Review the content of " +:+ q
    +:+ " to ensure no sensitive data is logged. Consider creating specific non-sensitive logging methods."
  else
    "Review and remove sensitive data from logging statement containing " +:+ q +:+ ".".

Definition issueOf (p : SensitivePattern) (lineNumber : nat) (m : string)
  : VulnerabilityIssue :=
  mkIssue EmptyString lineNumber
          (sp_description p +:+ ": " +:+ dq +:+ m +:+ dq)
          (sp_severity p)
          "Sensitive data is been exposed in log"
          None
          (generateSuggestedFix (category p) m)
          None.

Definition withPattern (p : SensitivePattern) (R : RegExp) : SensitivePattern :=
  mkSensitive R (sp_description p) (sp_severity p) (category p).

(** The [forEach] over the catalog: one issue per match, catalog order
    first, then match order. *)
Fixpoint checkSensitivePatterns (ps : list SensitivePattern) (line : string)
         (lineNumber : nat) : list SensitivePattern * list VulnerabilityIssue :=
  match ps with
  | [] => ([], [])
  | p :: ps' =>
      let (R', matches) := stringMatch line (pattern p) in
      let here := match matches with
                  | Some ms => map (issueOf p lineNumber) ms
                  | None => []
                  end in
      let (ps'', more) := checkSensitivePatterns ps' line lineNumber in
      (withPattern p R' :: ps'', here ++ more)
  end.

(** The [forEach] over the lines; [index] is the index of the first line
    of [lines]. *)
Fixpoint checkLines (self : t) (lines : list string) (index : nat)
  : t * list VulnerabilityIssue :=
  match lines with
  | [] => (self, [])
  | line :: lines' =>
      let lineNumber := index + 1 in
      let (lp, hasLogging) := someTest (loggerPatterns self) line in
      let '(self1, sensitiveIssues) :=
        if hasLogging then
          let (sp, found) :=
            checkSensitivePatterns (sensitiveMethodPatterns self) line lineNumber in
          (mkChecker sp lp, found)
        else (mkChecker (sensitiveMethodPatterns self) lp, []) in
      let (self2, more) := checkLines self1 lines' (S index) in
      (self2, sensitiveIssues ++ more)
  end.

Definition checkLoggingSensitivity (self : t) (code : string)
  : t * list VulnerabilityIssue :=
  checkLines self (splitLines code) 0.

End LoggingSensitivityChecker.

(* ===================================================================== *)
(** ** SemanticLoggingAnalyzer *)
(* ===================================================================== *)

Module SemanticLoggingAnalyzer.
Import JsString JsRegExp Runtime Types.

Definition SENSITIVE_KEYWORDS : list (string * list string) :=
  [ ("user_data", ["user"; "customer"; "userdetails"; "profile"; "personal"; "individual"]);
    ("authentication", ["password"; "secret"; "token"; "auth"; "credential"; "login"]);
    ("api_security", ["api"; "apikey"; "bearer"; "oauth"; "authorization"]);
    ("financial", ["payment"; "card"; "account number"; "billing"; "transaction"; "money"]);
    ("personal_info", ["email"; "phone"; "address"; "ssn"; "social security"; "pii"]) ].

Definition LOGGING_PATTERNS_init : list RegExp :=
  [ regexLiteral
      "(?:LOGGER|LOG|logger|log)\s*\.\s*(info|debug|warn|error|trace|severe|warning)\s*\("
      true true;
    regexLiteral "System\s*\.\s*out\s*\.\s*print(?:ln)?\s*\(" true true;
    regexLiteral "System\s*\.\s*err\s*\.\s*print(?:ln)?\s*\(" true true ].

Definition getSeverityByCategory (category : string) : Severity :=
  if String.eqb category "authentication" || String.eqb category "api_security" then High
  else if String.eqb category "financial" || String.eqb category "personal_info" then High
  else if String.eqb category "user_data" then Medium
  else Medium.

Definition getSuggestedFix (category matchedText : string) : string :=
  let q := dq +:+ matchedText +:+ dq in
  if String.eqb category "authentication" then
    "Remove authentication data " +:+ q
    +:+ " from logging. Never log passwords, tokens, or credentials. Use masked values or omit entirely."
  else if String.eqb category "api_security" then
    "Remove API security data " +:+ q
    +:+ " from logging. Log only non-sensitive request metadata or operation status."
  else if String.eqb category "financial" then
    "Remove financial data " +:+ q
    +:+ " from logging. Log only transaction IDs or sanitized references for compliance."
  else if String.eqb category "personal_info" then
    "Remove personal information " +:+ q
    +:+ " from logging. Use hashed values or user IDs instead of PII."
  else if String.eqb category "user_data" then
    "Review user data " +:+ q
    +:+ " in logging. Consider logging only user IDs or non-sensitive metadata."
  else
    "Review sensitive data " +:+ q
    +:+ " in logging statement and remove if it contains confidential information.".

(** [line.match(R) || []] for a regex literal evaluated afresh. *)
Definition matchesOf (line : string) (R : RegExp) : list string :=
  match snd (stringMatch line R) with
  | Some ms => ms
  | None => []
  end.

Definition extractLoggedContent (line : string) : list string :=
  let stringMatches :=
    matchesOf line
      (regexLiteral (dq +:+ "([^" +:+ dq +:+ "]+)" +:+ dq +:+ "|'([^']+)'") true false) in
  let methodMatches := matchesOf line (regexLiteral "\.\s*get\w+\(\)" true true) in
  let variableMatches :=
    matchesOf line
      (regexLiteral
         "\b\w*(?:user|customer|pass|secret|token|key|auth|account|payment)\w*\b"
         true true) in
  let content :=
    map slice1m1 stringMatches
    ++ map (fun m => snd (replace m (regexLiteral "^\.\s*" false false) EmptyString)) methodMatches
    ++ variableMatches in
  List.filter (fun c => Nat.ltb 2 (String.length c)) content.

Definition keywordIssue (lineNumber : nat) (m : string) : VulnerabilityIssue :=
  mkIssue EmptyString lineNumber
          ("Potential sensitive keyword detected in logging: " +:+ dq +:+ m +:+ dq
           +:+ " (keyword matching)")
          Medium
          "Potential sensitive information detected in logging:"
          None
          ("Review and remove sensitive keyword " +:+ dq +:+ m +:+ dq
           +:+ " from logging statement.")
          None.

(** [Object.values(SENSITIVE_KEYWORDS).flat()]. *)
Definition allKeywords : list string := concat (map snd SENSITIVE_KEYWORDS).

(** The pattern is built and used within one call, so no state leaves. *)
Definition fallbackLineAnalysis (line : string) (lineNumber : nat)
  : list VulnerabilityIssue :=
  flat_map
    (fun keyword =>
       let regex := regexLiteral ("\b" +:+ keyword +:+ "\b") true true in
       map (keywordIssue lineNumber) (matchesOf line regex))
    allKeywords.

Section Backend.
(** The embedding capability: vectors, the similarity computed on
    them (floating point in the source), its comparison with
    SIMILARITY_THRESHOLD and its rendering [(x * 100).toFixed(1)]. *)
Variables Vec Num : Type.
Variable cosineSimilarity : Vec -> Vec -> Num.
Variable atLeastThreshold : Num -> bool.
Variable percent : Num -> string.

(** A pipeline maps a text to its embedding, or throws ([None]). *)
Definition Pipeline : Type := string -> option Vec.

Record t : Type := mkAnalyzer {
  embeddingPipeline : option Pipeline;
  isInitialized : bool;
  LOGGING_PATTERNS : list RegExp
}.

(** The constructor, before [initializeModel] has resolved. *)
Definition create : t := mkAnalyzer None false LOGGING_PATTERNS_init.

(** The two ways [initializeModel] ends. *)
Definition initialized (p : Pipeline) (self : t) : t :=
  mkAnalyzer (Some p) true (LOGGING_PATTERNS self).
Definition initializationFailed (self : t) : t :=
  mkAnalyzer (embeddingPipeline self) false (LOGGING_PATTERNS self).

Record SemanticMatch : Type := mkSemanticMatch {
  keyword : string;
  similarity : Num;
  matchedText : string;
  sm_category : string
}.

(** Both [try] blocks are inside: a throw on the text gives no match,
    a throw on a keyword skips that keyword. *)
Definition findSemanticMatches (self : t) (text : string) : list SemanticMatch :=
  match embeddingPipeline self with
  | None => []
  | Some embed =>
      match embed text with
      | None => []
      | Some textEmbedding =>
          flat_map
            (fun '(category, keywords) =>
               flat_map
                 (fun keyword =>
                    match embed keyword with
                    | None => []
                    | Some keywordEmbedding =>
                        let similarity :=
                          cosineSimilarity textEmbedding keywordEmbedding in
                        if atLeastThreshold similarity
                        then [mkSemanticMatch keyword similarity text category]
                        else []
                    end)
                 keywords)
            SENSITIVE_KEYWORDS
      end
  end.

Definition semanticIssue (lineNumber : nat) (m : SemanticMatch) : VulnerabilityIssue :=
  mkIssue EmptyString lineNumber
          ("Potential sensitive " +:+ sm_category m +:+ " detected in logging: "
           +:+ dq +:+ matchedText m +:+ dq
           +:+ " (similarity: " +:+ percent (similarity m) +:+ "%)")
          (getSeverityByCategory (sm_category m))
          "Potential sensitive information detected in logging:"
          None
          (getSuggestedFix (sm_category m) (matchedText m))
          None.

Definition analyzeLoggingLine (self : t) (line : string) (lineNumber : nat)
  : list VulnerabilityIssue :=
  match extractLoggedContent line with
  | [] => []
  | loggedContent =>
      flat_map
        (fun content =>
           flat_map
             (fun m => if atLeastThreshold (similarity m)
                       then [semanticIssue lineNumber m] else [])
             (findSemanticMatches self content))
        loggedContent
  end.

Definition withPatterns (self : t) (ps : list RegExp) : t :=
  mkAnalyzer (embeddingPipeline self) (isInitialized self) ps.

(** The loop shared by both paths; [perLine] is what is run on a line
    that holds a logging call. *)
Fixpoint scanLines (perLine : t -> string -> nat -> list VulnerabilityIssue)
         (self : t) (lines : list string) (index : nat)
  : t * list VulnerabilityIssue :=
  match lines with
  | [] => (self, [])
  | line :: lines' =>
      let (lp, hasLogging) := someTest (LOGGING_PATTERNS self) line in
      let self1 := withPatterns self lp in
      let here := if hasLogging then perLine self1 line (index + 1) else [] in
      let (self2, more) := scanLines perLine self1 lines' (S index) in
      (self2, here ++ more)
  end.

Definition fallbackKeywordAnalysis (self : t) (code : string)
  : t * list VulnerabilityIssue :=
  scanLines (fun _ line n => fallbackLineAnalysis line n) self (splitLines code) 0.

(** [analyzeLoggingLine] cannot throw (see [findSemanticMatches]), so
    the per-line [catch] of the source is never entered. *)
Definition analyzeLoggingStatements (self : t) (code : string)
  : t * list VulnerabilityIssue :=
  if negb (isInitialized self)
     || match embeddingPipeline self with None => true | Some _ => false end
  then fallbackKeywordAnalysis self code
  else scanLines analyzeLoggingLine self (splitLines code) 0.

End Backend.

End SemanticLoggingAnalyzer.

(* ===================================================================== *)
(** ** RuleEngine *)
(* ===================================================================== *)

(** What a call can do besides returning: throw, or never return. *)
Inductive outcome (A : Type) : Type :=
| Returns (a : A)
| Throws
| Diverges.
Arguments Returns {A} a.
Arguments Throws {A}.
Arguments Diverges {A}.

Definition obind {A B : Type} (x : outcome A) (f : A -> outcome B) : outcome B :=
  match x with
  | Returns a => f a
  | Throws => Throws
  | Diverges => Diverges
  end.

(** The part of Node's [fs] that [loadRules] uses.  A path in [denied]
    makes every operation on it throw; a file can only be written into a
    directory that exists; a directory is made together with the
    ancestors it lacks. *)
Module Fs.

Record FS : Type := mkFS {
  files : gmap string string;
  dirs : gset string;
  denied : gset string
}.

(** A computation over the file system that may throw ([None]); the
    effects made before the throw stay. *)
Definition M (A : Type) : Type := FS -> FS * option A.

Definition ret {A : Type} (a : A) : M A := fun fs => (fs, Some a).
Definition throw {A : Type} : M A := fun fs => (fs, None).
Definition bind {A B : Type} (m : M A) (f : A -> M B) : M B :=
  fun fs => match m fs with
            | (fs', Some a) => f a fs'
            | (fs', None) => (fs', None)
            end.

Definition isFile (fs : FS) (p : string) : bool :=
  match files fs !! p with Some _ => true | None => false end.
Definition isDir (fs : FS) (p : string) : bool := bool_decide (p ∈ dirs fs).
Definition isDenied (fs : FS) (p : string) : bool := bool_decide (p ∈ denied fs).

(** [fs.existsSync] never throws. *)
Definition existsSync (p : string) : M bool :=
  fun fs => (fs, Some (isFile fs p || isDir fs p)).

(** The proper ancestors of a POSIX path, outermost first: the text
    before each of its separators, and the root for a leading one.  The
    units already read are kept in [seen], last one first. *)
Fixpoint ancestorsFrom (seen cs : list ascii) : list string :=
  match cs with
  | [] => []
  | c :: cs' =>
      (if Ascii.eqb c "/"
       then match seen, cs' with
            | [], [] => []
            | [], _ :: _ => ["/"]
            | _ :: _, _ => [string_of_list_ascii (rev seen)]
            end
       else [])
      ++ ancestorsFrom (c :: seen) cs'
  end.

Definition ancestors (p : string) : list string :=
  ancestorsFrom [] (list_ascii_of_string p).

(** The directories of [todo] are made one after the other; one that
    is there already is passed over, one that cannot be made stops the
    call with a throw, the ones made before it staying. *)
Fixpoint mkdirs (todo : list string) (fs : FS) : FS * option unit :=
  match todo with
  | [] => (fs, Some tt)
  | d :: todo' =>
      if isDir fs d then mkdirs todo' fs
      else if isDenied fs d || isFile fs d then (fs, None)
      else mkdirs todo' (mkFS (files fs) ({[ d ]} ∪ dirs fs) (denied fs))
  end.

(** [fs.mkdirSync(d, { recursive: true })]: the missing ancestors of
    [d] are made first, then [d] itself. *)
Definition mkdirSync (d : string) : M unit :=
  mkdirs (ancestors d ++ [d]).

(** [fs.writeFileSync(p, content)], [dir] being [path.dirname(p)]. *)
Definition writeFileSync (dir p content : string) : M unit :=
  fun fs =>
    if isDenied fs p || isDir fs p || negb (isDir fs dir) then (fs, None)
    else (mkFS (<[ p := content ]> (files fs)) (dirs fs) (denied fs), Some tt).

(** [fs.readFileSync(p, 'utf-8')]. *)
Definition readFileSync (p : string) : M string :=
  fun fs => if isDenied fs p then (fs, None) else (fs, files fs !! p).

End Fs.

Module RuleEngine.
Import JsString JsRegExp Runtime.

Inductive RuleSeverity : Type := low | medium | high | critical.

Record Rule : Type := mkRule {
  id : string;
  name : string;
  description : string;
  severity : RuleSeverity;
  pattern : option string;
  enabled : bool
}.

Record RuleSet : Type := mkRuleSet {
  version : string;
  rules : list Rule
}.

Definition getDefaultRules : RuleSet :=
  mkRuleSet "1.0.0"
    [ mkRule "naming-convention" "Constant Naming Convention"
        "Static final variables should be in UPPER_CASE_WITH_UNDERSCORES"
        medium
        (Some "static\s+final\s+\w+\s+([a-z][A-Za-z0-9_]*)")
        true;
      mkRule "excessive-nesting" "Excessive Nesting"
        "Control structures should not be nested more than 4 levels deep"
        high
        None
        true;
      mkRule "hardcoded-sensitive-info" "Hardcoded Sensitive Information"
        "API keys, passwords, and secrets should not be hardcoded"
        critical
        (Some ("(?:api[_-]?key|apikey|secret|password|pwd|token)\s*=\s*["
               +:+ dq +:+ "']([^" +:+ dq +:+ "']{8,})[" +:+ dq +:+ "']"))
        true ].

(** *** loadRules *)

Section Load.
(** [root] is the extension directory that [path.join(__dirname,
    '../..')] names; [stringify] and [parse] are [JSON.stringify(_,
    null, 2)] and [JSON.parse] at type RuleSet, [parse] giving [None]
    when it throws.  The loaded value is used as a RuleSet without
    validation: a text that parses to something that is no rule set
    ([null], [{}]) has no counterpart here, where every parsed value
    is one.  [root] is normalized, as [path.join] leaves it, so that
    the separators of [rulesDir] are those of its ancestors. *)
Variable root : string.
Variable stringify : RuleSet -> string.
Variable parse : string -> option RuleSet.

Definition rulesDir : string := root +:+ "/resources/rules".
Definition rulesPath : string := rulesDir +:+ "/vulnerability-rules.json".

Definition createDefaultRules : Fs.M unit :=
  let defaultRules := getDefaultRules in
  Fs.bind (Fs.existsSync rulesDir) (fun dirExists =>
  Fs.bind (if negb dirExists then Fs.mkdirSync rulesDir else Fs.ret tt) (fun _ =>
  Fs.writeFileSync rulesDir rulesPath (stringify defaultRules))).

(** The body of the [try]. *)
Definition loadRulesTry : Fs.M RuleSet :=
  Fs.bind (Fs.existsSync rulesPath) (fun fileExists =>
  Fs.bind (if negb fileExists then createDefaultRules else Fs.ret tt) (fun _ =>
  Fs.bind (Fs.readFileSync rulesPath) (fun rulesContent =>
  match parse rulesContent with
  | Some rs => Fs.ret rs
  | None => Fs.throw
  end))).

(** [loadRules]: the [catch] turns any throw into the defaults.  The
    result is the value of [this.rules]. *)
Definition loadRules (fs : Fs.FS) : Fs.FS * RuleSet :=
  match loadRulesTry fs with
  | (fs', Some rs) => (fs', rs)
  | (fs', None) => (fs', getDefaultRules)
  end.

End Load.

(** *** applyRules *)

Record Finding : Type := mkFinding {
  ruleId : string;
  line : nat;
  f_description : string;
  f_severity : RuleSeverity;
  f_match : string
}.

(** [while ((match = regex.exec(line)) !== null) { ... }].  When [exec]
    succeeds without moving [lastIndex] the next iteration starts from
    the very same state, so the loop never ends.  Otherwise [lastIndex]
    grows and stays within the line, so [S (length line)] rounds are
    enough; see [execLoop_fuel]. *)
Fixpoint execLoop (fuel : nat) (R : RegExp) (l : string)
  : outcome (RegExp * list MatchResult) :=
  match exec R l with
  | (R', None) => Returns (R', [])
  | (R', Some mr) =>
      if Nat.leb (lastIndex R') (lastIndex R) then Diverges
      else match fuel with
           | 0 => Diverges
           | S f => obind (execLoop f R' l) (fun '(Rf, ms) => Returns (Rf, mr :: ms))
           end
  end.

Definition findingOf (rule : Rule) (index : nat) (mr : MatchResult) : Finding :=
  mkFinding (id rule) (index + 1) (description rule) (severity rule) (matched mr).

(** The inner [forEach] over the lines, one compiled pattern. *)
Fixpoint scanLines (rule : Rule) (R : RegExp) (lines : list string) (index : nat)
  : outcome (list Finding) :=
  match lines with
  | [] => Returns []
  | l :: lines' =>
      obind (execLoop (S (String.length l)) R l) (fun '(R', ms) =>
      obind (scanLines rule R' lines' (S index)) (fun more =>
      Returns (map (findingOf rule index) ms ++ more)))
  end.

(** [rule.enabled && rule.pattern]: an absent or empty pattern is falsy. *)
Definition patternOf (rule : Rule) : option string :=
  if enabled rule then
    match pattern rule with
    | Some EmptyString => None
    | Some p => Some p
    | None => None
    end
  else None.

Section Apply.
(** [compile] is [new RegExp(_, 'gi')] with [None] for its SyntaxError. *)
Variable compile : string -> option regex.

Fixpoint applyRulesTo (rs : list Rule) (code : string) : outcome (list Finding) :=
  match rs with
  | [] => Returns []
  | rule :: rs' =>
      match patternOf rule with
      | Some p =>
          match compile p with
          | None => Throws
          | Some r =>
              obind (scanLines rule (mkRegExp r true true 0) (splitLines code) 0)
                    (fun found =>
              obind (applyRulesTo rs' code) (fun more =>
              Returns (found ++ more)))
          end
      | None => applyRulesTo rs' code
      end
  end.

Definition applyRules (this_rules : RuleSet) (code : string)
  : outcome (list Finding) :=
  applyRulesTo (rules this_rules) code.

End Apply.

Definition getRule (this_rules : RuleSet) (i : string) : option Rule :=
  List.find (fun rule => String.eqb (id rule) i) (rules this_rules).

End RuleEngine.

(* ===================================================================== *)
(** ** AISuggestionHandler *)
(* ===================================================================== *)

Module AISuggestionHandler.
Import JsString JsRegExp Runtime Types.

Record VulnerabilitySuggestion : Type := mkSuggestion {
  id : string;
  issueDescription : string;
  s_suggestedFix : string;
  aiGeneratedCode : string;
  s_lineNumber : nat;
  s_fileName : string;
  originalCode : string
}.

(** ToInt32: what [<<] and [&] leave of an integer. *)
Definition toInt32 (z : Z) : Z := ((z + 2 ^ 31) mod 2 ^ 32 - 2 ^ 31)%Z.

(** One round of the loop: [hash = ((hash << 5) - hash) + char;
    hash = hash & hash]. *)
Definition hashStep (hash : Z) (c : ascii) : Z :=
  toInt32 (toInt32 (hash * 32) - hash + Z.of_N (code c))%Z.

Definition hashString (str : string) : string :=
  ofZ (Z.abs (fold_left hashStep (chars str) 0%Z)).

Definition getSuggestionKey (vulnerability : VulnerabilityIssue) : string :=
  fileName vulnerability +:+ ":" +:+ ofNat (lineNumber vulnerability) +:+ ":"
  +:+ hashString (description vulnerability).

(** *** The two steps of the source *)

(** What [vscode.window.activeTextEditor] offers when asked. *)
Inductive Editor : Type :=
| NoEditor
| EditorThrows
| EditorText (content : string).

(** Every failure is caught inside and answered with a fixed text. *)
Definition getCodeContext (vulnerability : VulnerabilityIssue) (ed : Editor) : string :=
  match ed with
  | NoEditor => "Unable to retrieve code context"
  | EditorThrows => "Unable to retrieve code context"
  | EditorText content =>
      let lines := splitLines content in
      match lineNumber vulnerability with
      | 0 => "Unable to retrieve vulnerable line"
      | S lineIndex =>
          orElse (nth lineIndex lines EmptyString) "Unable to retrieve vulnerable line"
      end
  end.

Definition generateRuleBasedSuggestion (vulnerability : VulnerabilityIssue)
           (originalCode : string) : string :=
  let d := toLowerCase (description vulnerability) in
  if includes d "sql injection" then
    snd (replace originalCode
           (regexLiteral "Statement.*executeQuery\([^)]+\)" false false)
           ("PreparedStatement pstmt = connection.prepareStatement(sql);" +:+ nl
            +:+ "// Set parameters using pstmt.setString(), pstmt.setInt(), etc." +:+ nl
            +:+ "ResultSet rs = pstmt.executeQuery();"))
  else if includes d "hardcoded" then
    "// Use environment variables or configuration files" +:+ nl
    +:+ "String value = System.getenv(" +:+ dq +:+ "SECURE_VALUE" +:+ dq +:+ ");"
  else if includes d "logging" then
    snd (replace originalCode
           (regexLiteral "log\.(info|debug|warn|error)\([^)]*\)" false false)
           ("log.$1(" +:+ dq +:+ "Sanitized log message without sensitive data"
            +:+ dq +:+ ");"))
  else
    "// Please review and fix the security issue:" +:+ nl
    +:+ "// " +:+ suggestedFix vulnerability +:+ nl +:+ originalCode.

(** *** generateSuggestions *)

Section Generate.
(** The loop is written over any pair of steps, each running in a
    world [W] and free to throw ([None]); the source's own steps are
    plugged in below. *)
Context {W : Type}.
Variable contextStep : VulnerabilityIssue -> W -> W * option string.
Variable synthesisStep : VulnerabilityIssue -> string -> W -> W * option string.

(** The static [suggestionCache] and the world around it. *)
Record State : Type := mkState {
  suggestionCache : gmap string VulnerabilitySuggestion;
  world : W
}.

Definition generated (v : VulnerabilityIssue) (key originalCode aiSuggestion : string)
  : VulnerabilitySuggestion :=
  mkSuggestion key (description v)
               (orElse (suggestedFix v) "No specific fix provided")
               aiSuggestion (lineNumber v) (orElse (fileName v) EmptyString) originalCode.

Definition fallbackSuggestion (v : VulnerabilityIssue) (key : string)
  : VulnerabilitySuggestion :=
  mkSuggestion key (description v)
               (orElse (suggestedFix v) "Manual review required")
               ("// Suggestion unavailable" +:+ nl +:+ "// Please manually fix: "
                +:+ suggestedFix v)
               (lineNumber v) (orElse (fileName v) EmptyString)
               "Unable to retrieve original code".

(** The body of the [try]: context, then synthesis. *)
Definition tryGenerate (v : VulnerabilityIssue) (key : string) (w : W)
  : W * option VulnerabilitySuggestion :=
  match contextStep v w with
  | (w1, None) => (w1, None)
  | (w1, Some originalCode) =>
      match synthesisStep v originalCode w1 with
      | (w2, None) => (w2, None)
      | (w2, Some aiSuggestion) =>
          (w2, Some (generated v key originalCode aiSuggestion))
      end
  end.

(** One round of the [for] loop. *)
Definition generateOne (st : State) (v : VulnerabilityIssue)
  : State * VulnerabilitySuggestion :=
  let suggestionKey := getSuggestionKey v in
  match suggestionCache st !! suggestionKey with
  | Some cached => (st, cached)
  | None =>
      let (w', res) := tryGenerate v suggestionKey (world st) in
      let suggestion := match res with
                        | Some s => s
                        | None => fallbackSuggestion v suggestionKey
                        end in
      (mkState (<[ suggestionKey := suggestion ]> (suggestionCache st)) w', suggestion)
  end.

Fixpoint generateSuggestionsWith (st : State) (vulnerabilities : list VulnerabilityIssue)
  : State * list VulnerabilitySuggestion :=
  match vulnerabilities with
  | [] => (st, [])
  | v :: vs =>
      let (st1, s) := generateOne st v in
      let (st2, ss) := generateSuggestionsWith st1 vs in
      (st2, s :: ss)
  end.

Definition clearCache (st : State) : State := mkState ∅ (world st).

Definition getSuggestion (st : State) (suggestionId : string)
  : option VulnerabilitySuggestion :=
  suggestionCache st !! suggestionId.

End Generate.

Arguments State W : clear implicits.

(** The source's instance: the world is the editor, and neither step
    throws. *)
Definition generateSuggestions (st : State Editor) (vulnerabilities : list VulnerabilityIssue)
  : State Editor * list VulnerabilitySuggestion :=
  generateSuggestionsWith
    (fun v ed => (ed, Some (getCodeContext v ed)))
    (fun v originalCode ed => (ed, Some (generateRuleBasedSuggestion v originalCode)))
    st vulnerabilities.

End AISuggestionHandler.

(* ===================================================================== *)
(** ** Notions used to state the properties *)
(* ===================================================================== *)

Module Notions.
Import JsString JsRegExp Runtime Types.

(** A matcher is local when it hands its continuation only states that
    are no further from the end of the input than the one it got. *)
Definition local (m : (mstate -> option mstate) -> mstate -> option mstate) : Prop :=
  forall x k k',
    (forall y, length (rest y) <= length (rest x) -> k y = k' y) ->
    m k x = m k' x.

(** The round continuation of RepeatMatcher, named. *)
Definition roundCont (m : (mstate -> option mstate) -> mstate -> option mstate)
           (gs : list nat) (greedy : bool) (k : mstate -> option mstate)
           (fuel min : nat) (max : option nat) (x y : mstate) : option mstate :=
  if Nat.eqb min 0 && Nat.eqb (length (rest y)) (length (rest x))
  then None
  else match fuel with
       | 0 => None
       | S f => repeatMatcher m gs greedy k f (Nat.pred min) (decMax max) y
       end.

Definition parses (text : string) : bool :=
  match parsePattern text with Some _ => true | None => false end.

(** The patterns the two detectors hold as fields. *)
Definition detectorLiterals : list RegExp :=
  map LoggingSensitivityChecker.pattern
      LoggingSensitivityChecker.sensitiveMethodPatterns_init
  ++ LoggingSensitivityChecker.loggerPatterns_init
  ++ SemanticLoggingAnalyzer.LOGGING_PATTERNS_init.

(** The text of every regex literal of the sources, and of every pattern
    the keyword fallback builds. *)
Definition literalTexts : list string :=
  [ "\.get(Customer|User|Personal|Profile|Account)Data\(\)";
    "\.get(Customer|User|Client)(Info|Information|Details)\(\)";
    "\.get(Password|Pass|Pwd|Secret|Token|Key)\(\)";
    "\.(password|pass|pwd|secret|token|key)\b";
    "\.get(Api|API)(Key|Token|Secret)\(\)";
    "\.(apiKey|apiToken|accessToken|authToken|bearerToken)\b";
    "\.get(SSN|SocialSecurity|CreditCard|Email|Phone|Address)\(\)";
    "\.(ssn|socialSecurity|creditCard|email|phone|address|firstName|lastName)\b";
    "\.get(Account|Bank|Card|Payment)(Number|Info|Data|Details)\(\)";
    "\.get(Session|Cookie|Auth)(Id|Data|Info)\(\)";
    "\.getData\(\)";
    "LOGGER\.(info|debug|warn|error|trace)\s*\(";
    "LOG\.(info|debug|warn|error|trace)\s*\(";
    "logger\.(info|debug|warn|error|trace)\s*\(";
    "log\.(info|debug|warn|error|trace)\s*\(";
    "System\.out\.print(ln)?\s*\(";
    "System\.err\.print(ln)?\s*\(";
    "(?:LOGGER|LOG|logger|log)\s*\.\s*(info|debug|warn|error|trace|severe|warning)\s*\(";
    "System\s*\.\s*out\s*\.\s*print(?:ln)?\s*\(";
    "System\s*\.\s*err\s*\.\s*print(?:ln)?\s*\(";
    dq +:+ "([^" +:+ dq +:+ "]+)" +:+ dq +:+ "|'([^']+)'";
    "\.\s*get\w+\(\)";
    "\b\w*(?:user|customer|pass|secret|token|key|auth|account|payment)\w*\b";
    "^\.\s*";
    "Statement.*executeQuery\([^)]+\)";
    "log\.(info|debug|warn|error)\([^)]*\)" ]
  ++ map (fun keyword => "\b" +:+ keyword +:+ "\b") SemanticLoggingAnalyzer.allKeywords.

(** Where a finding comes from. *)
Definition findingFrom (rule : RuleEngine.Rule) (f : RuleEngine.Finding) : Prop :=
  1 <= RuleEngine.line f
  /\ RuleEngine.ruleId f = RuleEngine.id rule
  /\ RuleEngine.f_description f = RuleEngine.description rule
  /\ RuleEngine.f_severity f = RuleEngine.severity rule.

(** What is loaded from a text: the parsed rule set, or the defaults
    when parsing throws. *)
Definition parsedOrDefault (parse : string -> option RuleEngine.RuleSet)
           (content : string) : RuleEngine.RuleSet :=
  match parse content with
  | Some rs => rs
  | None => RuleEngine.getDefaultRules
  end.

(** The invariant of the data model, with the line counted inside the
    text that was scanned. *)
Definition issueWithin (first last : nat) (i : VulnerabilityIssue) : Prop :=
  first <= lineNumber i <= last /\ description i <> EmptyString.

(** Two issues with the same file name, line number and description. *)
Definition sameTriple (v v' : VulnerabilityIssue) : bool :=
  String.eqb (fileName v) (fileName v')
  && Nat.eqb (lineNumber v) (lineNumber v')
  && String.eqb (description v) (description v').

Fixpoint sameTriples (l l' : list VulnerabilityIssue) : bool :=
  match l, l' with
  | [], [] => true
  | v :: l1, v' :: l1' => sameTriple v v' && sameTriples l1 l1'
  | _, _ => false
  end.

(** What the [try] of one round of [generateSuggestions] builds for an
    issue, the editor being [ed]. *)
Definition generatedFor (ed : AISuggestionHandler.Editor) (v : VulnerabilityIssue)
  : AISuggestionHandler.VulnerabilitySuggestion :=
  let originalCode := AISuggestionHandler.getCodeContext v ed in
  AISuggestionHandler.generated
    v (AISuggestionHandler.getSuggestionKey v) originalCode
    (AISuggestionHandler.generateRuleBasedSuggestion v originalCode).

(** Every cached suggestion sits under its own id. *)
Definition wellKeyed (cache : gmap string AISuggestionHandler.VulnerabilitySuggestion)
  : Prop :=
  forall k s, cache !! k = Some s -> AISuggestionHandler.id s = k.

(** Entries are added, never replaced or removed. *)
Definition grows {W : Type} (st st' : AISuggestionHandler.State W) : Prop :=
  forall k s,
    AISuggestionHandler.suggestionCache st !! k = Some s ->
    AISuggestionHandler.suggestionCache st' !! k = Some s.

End Notions.

(* ===================================================================== *)
(** ** Inputs used in the examples *)
(* ===================================================================== *)

Module Examples.
Import JsString Types.

Definition printlnLine : string := "System.out.println(user.getPassword());".

Definition loggerLine : string :=
  "LOGGER.info(" +:+ dq +:+ "User password: " +:+ dq +:+ " + user.getPassword());".

(** A logging line that prints a credential field. *)
Definition credentialLine : string :=
  "LOGGER.info(" +:+ dq +:+ "password: " +:+ dq +:+ " + user.password);".

(** An analyzer whose model never loaded; the backend is then never used. *)
Definition analyzeUninitialized (code : string) : list VulnerabilityIssue :=
  snd (SemanticLoggingAnalyzer.analyzeLoggingStatements
         unit unit (fun _ _ => tt) (fun _ => true) (fun _ => EmptyString)
         (SemanticLoggingAnalyzer.create unit) code).

Definition constantLine : string := "static final int maxRetries = 3;".

Definition namingRule : RuleEngine.Rule :=
  RuleEngine.mkRule "naming-convention" "Constant Naming Convention"
         "Static final variables should be in UPPER_CASE_WITH_UNDERSCORES"
         RuleEngine.medium (Some "static\s+final\s+\w+\s+([a-z][A-Za-z0-9_]*)") true.

(** A rule whose pattern is an unterminated group. *)
Definition brokenRule : RuleEngine.Rule :=
  RuleEngine.mkRule "broken" "Broken" "A pattern that is not a regular expression"
         RuleEngine.low (Some "(") true.

(** A rule a user may put in the rules file: its description is empty. *)
Definition todoRule : RuleEngine.Rule :=
  RuleEngine.mkRule "todo" "Todo marker" EmptyString RuleEngine.low (Some "TODO") true.

(** A disk with nothing on it, and a stand-in for JSON that renders a
    rule set by its version and reads only that back. *)
Definition emptyDisk : Fs.FS := Fs.mkFS ∅ ∅ ∅.

Definition mockStringify (rs : RuleEngine.RuleSet) : string :=
  RuleEngine.version rs.

Definition mockParse (content : string) : option RuleEngine.RuleSet :=
  if String.eqb content "1.0.0" then Some RuleEngine.getDefaultRules else None.

(** Steps that count their calls in the world, and a context step that
    always throws. *)
Definition countingContext (v : VulnerabilityIssue) (calls : nat) : nat * option string :=
  (S calls, Some "logger.info(user.password);").

Definition countingSynthesis (v : VulnerabilityIssue) (originalCode : string) (calls : nat)
  : nat * option string :=
  (S calls, Some ("// redacted: " +:+ originalCode)).

Definition failingContext (v : VulnerabilityIssue) (calls : nat) : nat * option string :=
  (S calls, None).

Definition issueA : VulnerabilityIssue :=
  mkIssue "Account.java" 3 "Sensitive credential field is being logged" High
          "Sensitive data is been exposed in log" None "Mask the value" None.

(** The same file, line and description; the other fields differ. *)
Definition issueA' : VulnerabilityIssue :=
  mkIssue "Account.java" 3 "Sensitive credential field is being logged" Low
          EmptyString None "Remove the field from the log statement" None.

Definition emptyState : AISuggestionHandler.State nat :=
  AISuggestionHandler.mkState ∅ 0.

(** A document open in the editor, and an issue on its third line. *)
Definition openDocument : AISuggestionHandler.State AISuggestionHandler.Editor :=
  AISuggestionHandler.mkState
    ∅ (AISuggestionHandler.EditorText
         ("class Account {" +:+ nl +:+ "  void show() {" +:+ nl
          +:+ "    log.info(user.password);" +:+ nl +:+ "  }" +:+ nl +:+ "}")).

Definition loggingIssue : VulnerabilityIssue :=
  mkIssue "Account.java" 3
          ("Potential sensitive keyword detected in logging: " +:+ dq +:+ "password"
           +:+ dq +:+ " (keyword matching)")
          Medium "Potential sensitive information detected in logging:" None
          "Review and remove the keyword." None.

End Examples.

(* ===================================================================== *)
(** ** Measures on patterns and rule sets *)
(* ===================================================================== *)

Module Measure.
Import JsString JsRegExp Runtime.

(** The rounds a quantifier cannot go without. *)
Definition rounds (max : option nat) (min : nat) : nat :=
  match max with
  | Some m => Nat.min min m
  | None => min
  end.

(** A lower bound on the length of every match of a pattern. *)
Fixpoint minLen (r : regex) : nat :=
  match r with
  | REmpty | RStart | REnd | RWordB _ => 0
  | RDot | RSet _ _ => 1
  | RSeq a b => minLen a + minLen b
  | RAlt a b => Nat.min (minLen a) (minLen b)
  | RQuant min max _ a => rounds max min * minLen a
  | RGroup _ a => minLen a
  end.

(** A matcher consumes [n] units when it hands its continuation only
    states that are at least [n] units further into the input. *)
Definition consuming (n : nat)
           (m : (mstate -> option mstate) -> mstate -> option mstate) : Prop :=
  forall x k k',
    (forall y, length (rest y) + n <= length (rest x) -> k y = k' y) ->
    m k x = m k' x.

(** Whatever a matcher answers, its continuation answered. *)
Definition answersFromContinuation
           (m : (mstate -> option mstate) -> mstate -> option mstate) : Prop :=
  forall x k res, m k x = Some res -> exists y, k y = Some res.

(** A rule is productive when it is skipped, or its pattern compiles to
    a pattern that cannot match the empty string. *)
Definition productive (compile : string -> option regex) (rule : RuleEngine.Rule) : bool :=
  match RuleEngine.patternOf rule with
  | Some p =>
      match compile p with
      | Some r => Nat.leb 1 (minLen r)
      | None => false
      end
  | None => true
  end.

(** The rules [applyRules] evaluates. *)
Definition activeRules (rs : list RuleEngine.Rule) : list RuleEngine.Rule :=
  List.filter (fun rule => match RuleEngine.patternOf rule with
                           | Some _ => true
                           | None => false
                           end) rs.

(** Line numbers that do not go down. *)
Fixpoint ascending (l : list nat) : Prop :=
  match l with
  | [] => True
  | a :: l' => match l' with
               | [] => True
               | b :: _ => a <= b
               end /\ ascending l'
  end.

End Measure.

(* ===================================================================== *)
(** ** Further inputs used in the examples *)
(* ===================================================================== *)

Module MoreExamples.
Import JsString Types.

(** A rule whose pattern matches the empty string. *)
Definition starRule : RuleEngine.Rule :=
  RuleEngine.mkRule "spaces" "Runs of spaces" "A run of spaces"
                    RuleEngine.low (Some " *") true.

(** The extension as it is installed: its manifest is on the disk, the
    [resources] directory is not there yet. *)
Definition installedDisk : Fs.FS :=
  Fs.mkFS {[ "/ext/package.json" := "{ }" ]} {[ "/"; "/ext" ]} ∅.

End MoreExamples.

(* ===================================================================== *)
(** ** What a scan finds when no pattern carries state *)
(* ===================================================================== *)

Module Stateless.
Import JsString JsRegExp Runtime Types.

(** A pattern as it is before its first use. *)
Definition fresh (R : RegExp) : RegExp := setLastIndex R 0.

(** Some pattern matches somewhere in the line. *)
Definition mentionsLogging (ps : list RegExp) (line : string) : bool :=
  existsb (fun R => snd (test (fresh R) line)) ps.

(** The lines that hold a logging call, each handed to [perLine] with
    its number. *)
Fixpoint loggingLines {A : Type} (ps : list RegExp)
         (perLine : string -> nat -> list A) (lines : list string) (index : nat)
  : list A :=
  match lines with
  | [] => []
  | line :: lines' =>
      (if mentionsLogging ps line then perLine line (index + 1) else [])
      ++ loggingLines ps perLine lines' (S index)
  end.

(** The issues one catalog entry has for a line. *)
Definition entryIssues (p : LoggingSensitivityChecker.SensitivePattern)
           (line : string) (n : nat) : list VulnerabilityIssue :=
  match snd (stringMatch line (LoggingSensitivityChecker.pattern p)) with
  | Some ms => map (LoggingSensitivityChecker.issueOf p n) ms
  | None => []
  end.

Definition catalogIssues (ps : list LoggingSensitivityChecker.SensitivePattern)
           (line : string) (n : nat) : list VulnerabilityIssue :=
  flat_map (fun p => entryIssues p line n) ps.

(** A checker with every [lastIndex] back at 0. *)
Definition freshPattern (p : LoggingSensitivityChecker.SensitivePattern)
  : LoggingSensitivityChecker.SensitivePattern :=
  LoggingSensitivityChecker.withPattern p (fresh (LoggingSensitivityChecker.pattern p)).

Definition freshChecker (self : LoggingSensitivityChecker.t)
  : LoggingSensitivityChecker.t :=
  LoggingSensitivityChecker.mkChecker
    (map freshPattern (LoggingSensitivityChecker.sensitiveMethodPatterns self))
    (map fresh (LoggingSensitivityChecker.loggerPatterns self)).

End Stateless.

Module SemanticExamples.
Import JsString JsRegExp Runtime Types.

(** A stand-in for the embedding model: a text is embedded as its
    lower-case form, two embeddings are similar when the first
    contains the second. *)
Definition containment (a b : string) : bool := includes a b.
Definition wordPipeline : SemanticLoggingAnalyzer.Pipeline string :=
  fun text => Some (toLowerCase text).
Definition failingPipeline : SemanticLoggingAnalyzer.Pipeline string :=
  fun _ => None.
Definition ratio (similar : bool) : string := if similar then "100.0" else "0.0".

Definition readyAnalyzer (p : SemanticLoggingAnalyzer.Pipeline string)
  : SemanticLoggingAnalyzer.t string :=
  SemanticLoggingAnalyzer.initialized string p (SemanticLoggingAnalyzer.create string).

Definition analyzeWith (p : SemanticLoggingAnalyzer.Pipeline string) (code : string)
  : list VulnerabilityIssue :=
  snd (SemanticLoggingAnalyzer.analyzeLoggingStatements
         string bool containment (fun b => b) ratio (readyAnalyzer p) code).

End SemanticExamples.

(* ===================================================================== *)
(** ** LoggingSensitivityChecker: the summary *)
(* ===================================================================== *)

Module SensitiveLoggingSummary.
Import JsString JsRegExp Runtime Types.

(** A [Map] whose values are counters, as the list of its entries in
    insertion order; [same] is the comparison of keys. *)
Section Counters.
Context {K : Type}.
Variable same : K -> K -> bool.

Fixpoint mapGet (m : list (K * nat)) (k : K) : option nat :=
  match m with
  | [] => None
  | (k', v) :: m' => if same k' k then Some v else mapGet m' k
  end.

(** [m.set(k, v)]: an existing key keeps its place. *)
Fixpoint mapSet (m : list (K * nat)) (k : K) (v : nat) : list (K * nat) :=
  match m with
  | [] => [(k, v)]
  | (k', v') :: m' =>
      if same k' k then (k', v) :: m' else (k', v') :: mapSet m' k v
  end.

(** [m.set(k, (m.get(k) || 0) + 1)]. *)
Definition countUp (m : list (K * nat)) (k : K) : list (K * nat) :=
  mapSet m k (match mapGet m k with Some n => n | None => 0 end + 1).

End Counters.

(** A key of [issuesByCategory]: a string, or [undefined] ([None]) for
    a capture group that took no part in the match. *)
Definition sameKey (a b : option string) : bool :=
  match a, b with
  | Some x, Some y => String.eqb x y
  | None, None => true
  | _, _ => false
  end.

Definition sameSeverity (a b : Severity) : bool :=
  match a, b with
  | Low, Low | Medium, Medium | High, High => true
  | _, _ => false
  end.

(** [issue.description.match(/^(.*?):/)], then
    [categoryMatch ? categoryMatch[1] : 'Unknown']. *)
Definition categoryOf (description : string) : option string :=
  match snd (exec (regexLiteral "^(.*?):" false false) description) with
  | Some mr =>
      match List.find (fun g => Nat.eqb (fst g) 1) (groups mr) with
      | Some (_, v) => Some (ofChars v)
      | None => None
      end
  | None => Some "Unknown"
  end.

Record Analysis : Type := mkAnalysis {
  totalIssues : nat;
  issuesByCategory : list (option string * nat);
  issuesBySeverity : list (Severity * nat);
  issues : list VulnerabilityIssue
}.

(** The body of the [forEach]. *)
Definition tally (maps : list (option string * nat) * list (Severity * nat))
           (issue : VulnerabilityIssue)
  : list (option string * nat) * list (Severity * nat) :=
  (countUp sameKey (fst maps) (categoryOf (description issue)),
   countUp sameSeverity (snd maps) (severity issue)).

Definition summarize (found : list VulnerabilityIssue) : Analysis :=
  let maps := fold_left tally found ([], []) in
  mkAnalysis (length found) (fst maps) (snd maps) found.

Definition analyzeSensitiveLogging (self : LoggingSensitivityChecker.t) (code : string)
  : LoggingSensitivityChecker.t * Analysis :=
  let (self', found) := LoggingSensitivityChecker.checkLoggingSensitivity self code in
  (self', summarize found).

(** What a counter holds for a key: 0 when the key is absent. *)
Definition counted {K : Type} (same : K -> K -> bool) (m : list (K * nat)) (k : K) : nat :=
  match mapGet same m k with Some n => n | None => 0 end.

(** A description that holds neither a colon nor a line terminator. *)
Definition plain (d : string) : bool :=
  forallb (fun c => negb (Ascii.eqb c ":") && negb (isLineTerminator c)) (chars d).

End SensitiveLoggingSummary.

(* ===================================================================== *)
(** ** AISuggestionHandler: cache statistics and further inputs *)
(* ===================================================================== *)

Module SuggestionStats.
Import JsString JsRegExp Runtime Types AISuggestionHandler.

(** [getCacheStats]: the size of the cache and an empty list of models. *)
Definition getCacheStats {W : Type} (st : State W) : nat * list string :=
  (size (suggestionCache st), []).

(** Two issues of one line whose descriptions differ and hash alike. *)
Definition collidingA : VulnerabilityIssue :=
  mkIssue "Account.java" 3 "Aa" High "m" None "fix A" None.
Definition collidingB : VulnerabilityIssue :=
  mkIssue "Account.java" 3 "BB" Low "m" None "fix B" None.

(** An SQL-injection issue, and a state with no editor open. *)
Definition sqlIssue : VulnerabilityIssue :=
  mkIssue "Dao.java" 7 "Possible SQL Injection in query" High "m" None
          "Use a prepared statement" None.
Definition noEditor : State Editor := mkState ∅ NoEditor.

(** The patterns of [generateRuleBasedSuggestion]. *)
Definition statementPattern : RegExp :=
  regexLiteral "Statement.*executeQuery\([^)]+\)" false false.
Definition logCallPattern : RegExp :=
  regexLiteral "log\.(info|debug|warn|error)\([^)]*\)" false false.

End SuggestionStats.

(* ===================================================================== *)
(** ** More of the runtime: toUpperCase and replace with the g flag *)
(* ===================================================================== *)

Module JsReplace.
Import JsString JsRegExp Runtime.

(** [s.toUpperCase()] on Latin-1 text whose upper-case form is Latin-1
    too: a to z, the accented letters but the division sign, and the
    sharp s, which becomes SS.  The micro sign and y with diaeresis,
    whose upper-case forms lie outside Latin-1, are left as they are;
    the callers pass a match of [\w+], which holds neither (see
    [constantPattern_sound]). *)
Definition upperUnits (c : ascii) : list ascii :=
  let n := code c in
  if ((97 <=? n) && (n <=? 122))%N then [ascii_of_N (n - 32)]
  else if ((224 <=? n) && (n <=? 254) && negb (n =? 247))%N then [ascii_of_N (n - 32)]
  else if (n =? 223)%N then ["S"%char; "S"%char]
  else [c].

Definition toUpperCase (s : string) : string :=
  ofChars (flat_map upperUnits (chars s)).

(** The loop of [S.replace(R, template)] for a global [R]: [lastIndex]
    is reset, every match is collected, an empty match advances by
    one. *)
Fixpoint execAll (fuel : nat) (R : RegExp) (S : string) : RegExp * list MatchResult :=
  match exec R S with
  | (R', None) => (R', [])
  | (R', Some mr) =>
      let R'' := match matched mr with
                 | EmptyString => setLastIndex R' (Datatypes.S (lastIndex R'))
                 | _ => R'
                 end in
      match fuel with
      | 0 => (R'', [mr])
      | Datatypes.S f =>
          let (Rf, l) := execAll f R'' S in (Rf, mr :: l)
      end
  end.

(** One result is spliced in when it starts at or after the end of
    the text already covered. *)
Definition splice (m : nat) (cs template : list ascii)
           (state : list ascii * nat) (mr : MatchResult) : list ascii * nat :=
  let (accumulated, nextSourcePosition) := state in
  let mt := chars (matched mr) in
  let position := index mr in
  if Nat.leb nextSourcePosition position then
    (accumulated
     ++ firstn (position - nextSourcePosition) (skipn nextSourcePosition cs)
     ++ substitute m mt (firstn position cs) (skipn (position + length mt) cs)
                   (groups mr) template,
     position + length mt)
  else state.

Definition replaceAll (S : string) (R : RegExp) (template : string) : RegExp * string :=
  let (R', results) := execAll (Datatypes.S (String.length S)) (setLastIndex R 0) S in
  let cs := chars S in
  let (accumulated, nextSourcePosition) :=
    fold_left (splice (length (groupsOf (source R))) cs (chars template)) results ([], 0) in
  (R', ofChars (accumulated ++ skipn nextSourcePosition cs)).

End JsReplace.

(* ===================================================================== *)
(** ** CodeActionProvider *)
(* ===================================================================== *)

Module CodeActionProvider.
Import JsString JsRegExp Runtime Types JsReplace.

Record CodeAction : Type := mkCodeAction {
  title : string;
  ca_description : string;
  ca_fix : string;
  ca_lineNumber : nat;
  ca_fileName : string
}.

(** The provider holds the issues it was last given. *)
Record t : Type := mkProvider {
  issues : list VulnerabilityIssue
}.

Definition create : t := mkProvider [].
Definition setIssues (self : t) (found : list VulnerabilityIssue) : t := mkProvider found.
Definition clear (self : t) : t := mkProvider [].

(** [match[1]]; the group of the pattern takes part in every match
    (see [constantPattern_sound]), so the capture is never
    [undefined]. *)
Definition constantNameOf (mr : MatchResult) : string := ofChars (capture 1 (groups mr)).

Definition generateConstantNamingFix (issue : VulnerabilityIssue) : string :=
  match snd (exec (regexLiteral "Constant '(\w+)'" false false) (description issue)) with
  | Some mr =>
      let constantName := constantNameOf mr in
      let fixedName :=
        snd (replaceAll (toUpperCase constantName)
                        (regexLiteral "([a-z])([A-Z])" true false) "$1_$2") in
      "Rename '" +:+ constantName +:+ "' to '" +:+ fixedName +:+ "'"
  | None => "Convert to UPPER_CASE_WITH_UNDERSCORES format"
  end.

Definition generateNestingFix (issue : VulnerabilityIssue) : string :=
  "Consider refactoring this code block:" +:+ nl
  +:+ "- Extract methods for complex logic" +:+ nl
  +:+ "- Use early returns to reduce nesting" +:+ nl
  +:+ "- Consider using guard clauses" +:+ nl
  +:+ "- Break down complex conditions".

Definition generateHardcodedFix (issue : VulnerabilityIssue) : string :=
  "Move sensitive data to:" +:+ nl
  +:+ "- Configuration files (application.properties)" +:+ nl
  +:+ "- Environment variables" +:+ nl
  +:+ "- Secure key management systems" +:+ nl
  +:+ "- External configuration services".

Definition generateSQLInjectionFix (issue : VulnerabilityIssue) : string :=
  "Fix SQL injection vulnerability:" +:+ nl
  +:+ "- Use PreparedStatement instead of Statement" +:+ nl
  +:+ "- Use parameterized queries" +:+ nl
  +:+ "- Validate and sanitize user input" +:+ nl
  +:+ "- Use ORM frameworks like Hibernate".

Definition generateXSSFix (issue : VulnerabilityIssue) : string :=
  "Fix XSS vulnerability:" +:+ nl
  +:+ "- Escape output using OWASP Java Encoder" +:+ nl
  +:+ "- Use Content Security Policy (CSP)" +:+ nl
  +:+ "- Validate and sanitize user input" +:+ nl
  +:+ "- Use framework-specific escaping functions".

Definition generateFix (issue : VulnerabilityIssue) : string :=
  if includes (description issue) "Constant" then generateConstantNamingFix issue
  else if includes (description issue) "nesting" then generateNestingFix issue
  else if includes (description issue) "hardcoded" then generateHardcodedFix issue
  else if includes (description issue) "SQL injection" then generateSQLInjectionFix issue
  else if includes (description issue) "XSS" then generateXSSFix issue
  else orElse (suggestedFix issue) "Manual review required".

Definition createCodeAction (issue : VulnerabilityIssue) : CodeAction :=
  mkCodeAction ("Fix: " +:+ description issue)
               (orElse (suggestedFix issue) "No specific fix available")
               (generateFix issue)
               (lineNumber issue)
               (orElse (fileName issue) "Unknown").

Definition getCodeActions (self : t) (n : nat) : list CodeAction :=
  map createCodeAction
      (List.filter (fun issue => Nat.eqb (lineNumber issue) n) (issues self)).

Definition getAllCodeActions (self : t) : list CodeAction :=
  map createCodeAction (issues self).

End CodeActionProvider.

Module CodeActionNotions.
Import JsString JsRegExp Runtime Types.

(** What [/Constant '(\w+)'/] parses to (see [constant_literal]). *)
Definition constantPattern : regex :=
  RSeq (RSet false [AChar "C"])
    (RSeq (RSet false [AChar "o"])
       (RSeq (RSet false [AChar "n"])
          (RSeq (RSet false [AChar "s"])
             (RSeq (RSet false [AChar "t"])
                (RSeq (RSet false [AChar "a"])
                   (RSeq (RSet false [AChar "n"])
                      (RSeq (RSet false [AChar "t"])
                         (RSeq (RSet false [AChar " "])
                            (RSeq (RSet false [AChar "'"])
                               (RSeq
                                  (RGroup 1 (RQuant 1 None true (RSet false [AWord])))
                                  (RSet false [AChar "'"]))))))))))).

(** The description [d] quotes the constant [name]: after [pre] it
    reads [Constant '], the name, a non-empty run of word characters,
    and the closing quote. *)
Definition quotesConstant (d pre name post : string) : Prop :=
  d = pre +:+ "Constant '" +:+ name +:+ "'" +:+ post
  /\ name <> EmptyString
  /\ Forall (fun c => isWordChar c = true) (chars name).

(** No constant is quoted in [d] before the one that follows [pre]. *)
Definition firstQuoted (d pre : string) : Prop :=
  forall pre' name' post',
    quotesConstant d pre' name' post' -> String.length pre <= String.length pre'.

End CodeActionNotions.

Module CodeActionExamples.
Import JsString Types CodeActionProvider.

Definition constantIssue : VulnerabilityIssue :=
  mkIssue "Config.java" 4 "Constant 'maxRetries' should be in upper case" Medium "m"
          None "Rename the constant" None.

End CodeActionExamples.

(* ===================================================================== *)
(** ** DiagnosticProvider *)
(* ===================================================================== *)

Module DiagnosticProvider.
Import JsString JsRegExp Runtime Types.

Inductive DiagnosticSeverity : Type := error | warning | info.

Record Diagnostic : Type := mkDiagnostic {
  line : nat;
  column : nat;
  d_severity : DiagnosticSeverity;
  d_message : string;
  source : string;
  code : option string
}.

(** The field [diagnostics], a [Map] from file names to arrays, is a
    [gmap string (list Diagnostic)]; a new provider holds the empty one. *)
Definition create : gmap string (list Diagnostic) := ∅.

(** The [default] branch of the [switch] is out of reach of a value of
    the type of [issue.severity]. *)
Definition getSeverity (severity : Severity) : DiagnosticSeverity :=
  match severity with
  | High => error
  | Medium => warning
  | Low => info
  end.

Definition getIssueCode (issue : VulnerabilityIssue) : string :=
  if includes (description issue) "Constant" then "CONST_NAMING"
  else if includes (description issue) "nesting" then "EXCESSIVE_NESTING"
  else if includes (description issue) "hardcoded" then "HARDCODED_SENSITIVE"
  else "GENERAL".

Definition convertIssuesToDiagnostics (issues : list VulnerabilityIssue)
  : list Diagnostic :=
  map (fun issue =>
         mkDiagnostic (lineNumber issue) 0 (getSeverity (severity issue))
                      (description issue) "Java Vulnerability Analyzer"
                      (Some (getIssueCode issue)))
      issues.

Definition provideDiagnostics (self : gmap string (list Diagnostic)) (fileName : string)
           (issues : list VulnerabilityIssue) : gmap string (list Diagnostic) * list Diagnostic :=
  let diagnostics := convertIssuesToDiagnostics issues in
  (<[ fileName := diagnostics ]> self, diagnostics).

(** [this.diagnostics.get(fileName) || []]: an array is truthy, so the
    second operand stands in for [undefined] only. *)
Definition getDiagnosticsForFile (self : gmap string (list Diagnostic)) (fileName : string) : list Diagnostic :=
  match self !! fileName with
  | Some ds => ds
  | None => []
  end.

Definition getAllDiagnostics (self : gmap string (list Diagnostic)) : gmap string (list Diagnostic) := self.

Definition updateDiagnostics (self : gmap string (list Diagnostic)) (fileName : string)
           (issues : list VulnerabilityIssue)
  : gmap string (list Diagnostic) :=
  fst (provideDiagnostics self fileName issues).

(** [clearDiagnostics(fileName?)]: [if (fileName)] is false for a
    missing argument and for the empty string alike. *)
Definition clearDiagnostics (self : gmap string (list Diagnostic)) (fileName : option string)
  : gmap string (list Diagnostic) :=
  match fileName with
  | Some (String c name) => delete (String c name) self
  | Some EmptyString => ∅
  | None => ∅
  end.

Definition getTotalIssueCount (self : gmap string (list Diagnostic)) : nat :=
  map_fold (fun _ diagnostics total => total + length diagnostics) 0 self.

Record Counts : Type := mkCounts {
  c_error : nat;
  c_warning : nat;
  c_info : nat
}.

(** [counts[diagnostic.severity]++]. *)
Definition bump (counts : Counts) (diagnostic : Diagnostic) : Counts :=
  match d_severity diagnostic with
  | error => mkCounts (c_error counts + 1) (c_warning counts) (c_info counts)
  | warning => mkCounts (c_error counts) (c_warning counts + 1) (c_info counts)
  | info => mkCounts (c_error counts) (c_warning counts) (c_info counts + 1)
  end.

Definition getIssueCountBySeverity (self : gmap string (list Diagnostic)) : Counts :=
  map_fold (fun _ diagnostics counts => fold_left bump diagnostics counts)
           (mkCounts 0 0 0) self.

(** The number of diagnostics of a severity in a list. *)
Definition ofSeverity (s : DiagnosticSeverity) (ds : list Diagnostic) : nat :=
  length (List.filter (fun d => match d_severity d, s with
                                | error, error | warning, warning | info, info => true
                                | _, _ => false
                                end) ds).

End DiagnosticProvider.

Module DiagnosticExamples.
Import JsString Types DiagnosticProvider.

Definition twoFiles : gmap string (list Diagnostic) :=
  updateDiagnostics
    (updateDiagnostics create "A.java"
       [mkIssue "A.java" 3 "Constant 'maxRetries' should be upper case" Medium "m"
                None "Rename it" None])
    "B.java"
    [mkIssue "B.java" 9 "Deep nesting" High "m" None "Refactor" None;
     mkIssue "B.java" 12 "TODO left in code" Low "m" None EmptyString None].

End DiagnosticExamples.





(* ===================================================================== *)
(** * Properties *)
(* ===================================================================== *)

(** ** The regular-expression runtime *)

Module JsRegExpFacts.
Import JsString JsRegExp Runtime Notions.

Lemma length_chars (s : string) : length (chars s) = String.length s.
Proof. induction s as [|c s IH]; simpl; [reflexivity | now rewrite IH]. Qed.

Lemma ofChars_nil_inv (l : list ascii) : ofChars l = EmptyString -> l = [].
Proof. destruct l; [reflexivity | discriminate]. Qed.

Lemma seek_length n p s q s' :
  seek n p s = Some (q, s') -> n + length s' = length s.
Proof.
  revert p s. induction n as [|n IH]; intros p s H; simpl in H.
  - injection H as _ <-. reflexivity.
  - destruct s as [|c s]; [discriminate|].
    apply IH in H. simpl. lia.
Qed.

(** A successful search starts at or after the position it was given
    and reports the state it started from. *)
Lemma searchFrom_spec ic r p s i j st st' :
  searchFrom ic r p s i = Some (j, st, st') ->
  i <= j /\ j + length (rest st) = i + length s.
Proof.
  revert p i. induction s as [|c s IH]; intros p i H; simpl in H.
  - destruct (rmatch ic r Some (MState p [] [])); [|discriminate].
    injection H as <- <- _. simpl. lia.
  - destruct (rmatch ic r Some (MState p (c :: s) [])).
    + injection H as <- <- _. simpl. lia.
    + apply IH in H. simpl. lia.
Qed.

Lemma length_consumed st st' : length (consumed st st') <= length (rest st).
Proof. unfold consumed. rewrite length_firstn. lia. Qed.

Lemma repeatMatcher_eq m gs greedy k fuel min max x :
  repeatMatcher m gs greedy k fuel min max x =
  match max with
  | Some 0 => k x
  | _ =>
      let d := roundCont m gs greedy k fuel min max x in
      let xr := clearCaps gs x in
      if negb (Nat.eqb min 0) then m d xr
      else if greedy
           then orElseM (m d xr) (fun _ => k x)
           else orElseM (k x) (fun _ => m d xr)
  end.
Proof. destruct fuel; reflexivity. Qed.

Lemma repeat_body_congr (m : (mstate -> option mstate) -> mstate -> option mstate)
      (d d' k k' : mstate -> option mstate) (greedy : bool) (min : nat) (x xr : mstate) :
  m d xr = m d' xr -> k x = k' x ->
  (if negb (Nat.eqb min 0) then m d xr
   else if greedy then orElseM (m d xr) (fun _ => k x)
        else orElseM (k x) (fun _ => m d xr)) =
  (if negb (Nat.eqb min 0) then m d' xr
   else if greedy then orElseM (m d' xr) (fun _ => k' x)
        else orElseM (k' x) (fun _ => m d' xr)).
Proof. intros -> ->. reflexivity. Qed.

Lemma repeatMatcher_local m gs greedy :
  local m ->
  forall fuel min max, local (fun k => repeatMatcher m gs greedy k fuel min max).
Proof.
  intros Hm fuel. induction fuel as [|f IH]; intros min max x k k' Hk;
    rewrite !repeatMatcher_eq.
  - assert (Hd : m (roundCont m gs greedy k 0 min max x) (clearCaps gs x)
                 = m (roundCont m gs greedy k' 0 min max x) (clearCaps gs x)).
    { apply Hm. intros y Hy. unfold roundCont.
      destruct (Nat.eqb min 0 && Nat.eqb (length (rest y)) (length (rest x)));
        reflexivity. }
    destruct max as [[|n]|]; cbv zeta; try (apply Hk; lia);
      (apply repeat_body_congr; [exact Hd | apply Hk; lia]).
  - assert (Hd : m (roundCont m gs greedy k (S f) min max x) (clearCaps gs x)
                 = m (roundCont m gs greedy k' (S f) min max x) (clearCaps gs x)).
    { apply Hm. intros y Hy. simpl in Hy. unfold roundCont.
      destruct (Nat.eqb min 0 && Nat.eqb (length (rest y)) (length (rest x)));
        [reflexivity|].
      apply IH. intros z Hz. apply Hk. lia. }
    destruct max as [[|n]|]; cbv zeta; try (apply Hk; lia);
      (apply repeat_body_congr; [exact Hd | apply Hk; lia]).
Qed.

Lemma rmatch_local ic r : local (rmatch ic r).
Proof.
  induction r as [| | inv atoms | | | inv | r1 IH1 r2 IH2 | r1 IH1 r2 IH2
                  | min max greedy r1 IH1 | i r1 IH1]; intros x k k' Hk; simpl.
  - apply Hk; lia.
  - destruct (rest x) as [|c s'] eqn:Hx; [reflexivity|].
    destruct (isLineTerminator c); [reflexivity|]. apply Hk. rewrite ?Hx. simpl. lia.
  - destruct (rest x) as [|c s'] eqn:Hx; [reflexivity|].
    destruct (xorb inv (inSet ic atoms c)); [|reflexivity].
    apply Hk. rewrite ?Hx. simpl. lia.
  - destruct (prev x); [reflexivity|]. apply Hk; lia.
  - destruct (rest x) eqn:Hx; [|reflexivity]. apply Hk. rewrite Hx. lia.
  - destruct (xorb inv (atWordBoundary x)); [|reflexivity]. apply Hk; lia.
  - apply IH1. intros y Hy. apply IH2. intros z Hz. apply Hk. lia.
  - rewrite (IH1 x k k' Hk), (IH2 x k k' Hk). reflexivity.
  - apply (repeatMatcher_local _ _ _ IH1). exact Hk.
  - apply IH1. intros y Hy. apply Hk. simpl. exact Hy.
Qed.

(** The budget of RepeatMatcher is never used up: any two budgets of at
    least [min] plus the input left give the same answer. *)
Lemma repeatMatcher_fuel m gs greedy k :
  local m ->
  forall f1 f2 min max x,
    min + length (rest x) <= f1 ->
    min + length (rest x) <= f2 ->
    repeatMatcher m gs greedy k f1 min max x
    = repeatMatcher m gs greedy k f2 min max x.
Proof.
  intros Hm f1. induction f1 as [|f1 IH]; intros f2 min max x H1 H2;
    rewrite !repeatMatcher_eq.
  - assert (Hd : m (roundCont m gs greedy k 0 min max x) (clearCaps gs x)
                 = m (roundCont m gs greedy k f2 min max x) (clearCaps gs x)).
    { apply Hm. intros y Hy. simpl in Hy. unfold roundCont.
      destruct (Nat.eqb min 0 && Nat.eqb (length (rest y)) (length (rest x)))
        eqn:Hc; [reflexivity|].
      exfalso. apply andb_false_iff in Hc as [Hc|Hc]; apply Nat.eqb_neq in Hc; lia. }
    destruct max as [[|n]|]; cbv zeta; try reflexivity;
      (apply repeat_body_congr; [exact Hd | reflexivity]).
  - assert (Hd : m (roundCont m gs greedy k (S f1) min max x) (clearCaps gs x)
                 = m (roundCont m gs greedy k f2 min max x) (clearCaps gs x)).
    { apply Hm. intros y Hy. simpl in Hy. unfold roundCont.
      destruct (Nat.eqb min 0 && Nat.eqb (length (rest y)) (length (rest x)))
        eqn:Hc; [reflexivity|].
      assert (Hpos : min <> 0 \/ length (rest y) < length (rest x)).
      { apply andb_false_iff in Hc as [Hc|Hc]; apply Nat.eqb_neq in Hc; lia. }
      destruct f2 as [|f2]; [lia|].
      apply IH; lia. }
    destruct max as [[|n]|]; cbv zeta; try reflexivity;
      (apply repeat_body_congr; [exact Hd | reflexivity]).
Qed.

(** What a successful [exec] on a global pattern does to [lastIndex]. *)
Lemma exec_some_global R l R' mr :
  global R = true ->
  exec R l = (R', Some mr) ->
  lastIndex R <= index mr
  /\ lastIndex R' = index mr + String.length (matched mr)
  /\ lastIndex R' <= String.length l
  /\ global R' = true.
Proof.
  intros Hg H. unfold exec in H. rewrite Hg in H.
  destruct (seek (lastIndex R) None (chars l)) as [[p s]|] eqn:Hs; [|discriminate].
  destruct (searchFrom (ignoreCase R) (source R) p s (lastIndex R))
    as [[[i st] st']|] eqn:Hf; [|discriminate].
  injection H as <- <-. simpl.
  apply seek_length in Hs. apply searchFrom_spec in Hf as [Hle Hlen].
  pose proof (length_consumed st st') as Hc.
  rewrite <- length_chars. unfold ofChars, chars.
  rewrite list_ascii_of_string_of_list_ascii.
  rewrite <- (length_chars l). unfold chars in *. repeat split; try lia. exact Hg.
Qed.

Lemma exec_none_global R l R' :
  global R = true -> exec R l = (R', None) -> lastIndex R' = 0 /\ global R' = true.
Proof.
  intros Hg H. unfold exec in H. rewrite Hg in H.
  destruct (seek (lastIndex R) None (chars l)) as [[p s]|].
  - destruct (searchFrom (ignoreCase R) (source R) p s (lastIndex R))
      as [[[i st] st']|]; [discriminate|].
    injection H as <-. split; [reflexivity | exact Hg].
  - injection H as <-. split; [reflexivity | exact Hg].
Qed.

Lemma exec_not_global R l : global R = false -> fst (exec R l) = R.
Proof.
  intros Hg. unfold exec. rewrite Hg.
  destruct (seek 0 None (chars l)) as [[p s]|]; [|reflexivity].
  destruct (searchFrom (ignoreCase R) (source R) p s 0) as [[[i st] st']|];
    reflexivity.
Qed.

(** Past the end of the input [exec] fails at once. *)
Lemma exec_past_end R l :
  global R = true -> String.length l < lastIndex R -> snd (exec R l) = None.
Proof.
  intros Hg Hlt. unfold exec. rewrite Hg.
  destruct (seek (lastIndex R) None (chars l)) as [[p s]|] eqn:Hs; [|reflexivity].
  apply seek_length in Hs. rewrite length_chars in Hs. lia.
Qed.

(** The rounds given to [execLoop] by [scanLines] are never used up:
    any two budgets that cover the rest of the line agree. *)
Lemma execLoop_fuel f1 : forall f2 R l,
  String.length l < f1 + lastIndex R ->
  String.length l < f2 + lastIndex R ->
  RuleEngine.execLoop f1 R l = RuleEngine.execLoop f2 R l.
Proof.
  induction f1 as [|f1 IH]; intros f2 R l H1 H2.
  - destruct f2 as [|f2]; [reflexivity|].
    simpl. destruct (exec R l) as [R' [mr|]] eqn:He; [|reflexivity].
    destruct (Nat.leb (lastIndex R') (lastIndex R)) eqn:Hleb; [reflexivity|].
    apply Nat.leb_gt in Hleb.
    destruct (global R) eqn:Hg.
    + apply exec_some_global in He as (_ & _ & Hb & _); [lia | exact Hg].
    + pose proof (exec_not_global R l Hg) as Hn. rewrite He in Hn. simpl in Hn.
      subst R'. lia.
  - simpl. destruct f2 as [|f2]; simpl;
      destruct (exec R l) as [R' [mr|]] eqn:He; try reflexivity;
      destruct (Nat.leb (lastIndex R') (lastIndex R)) eqn:Hleb; try reflexivity;
      apply Nat.leb_gt in Hleb;
      (destruct (global R) eqn:Hg;
       [ pose proof (exec_some_global R l R' mr Hg He) as (_ & _ & Hb & _)
       | pose proof (exec_not_global R l Hg) as Hn; rewrite He in Hn; simpl in Hn;
         subst R'; lia ]).
    + lia.
    + rewrite (IH f2 R' l); [reflexivity | lia | lia].
Qed.

(** The same for the loop inside [String.prototype.match]. *)
Lemma matchLoop_fuel f1 : forall f2 R l,
  global R = true ->
  String.length l < f1 + lastIndex R ->
  String.length l < f2 + lastIndex R ->
  matchLoop f1 R l = matchLoop f2 R l.
Proof.
  induction f1 as [|f1 IH]; intros f2 R l Hg H1 H2.
  - pose proof (exec_past_end R l Hg ltac:(lia)) as Hn.
    destruct f2; simpl; destruct (exec R l) as [R' [mr|]]; simpl in Hn;
      try discriminate; reflexivity.
  - destruct f2 as [|f2].
    + pose proof (exec_past_end R l Hg ltac:(lia)) as Hn.
      simpl; destruct (exec R l) as [R' [mr|]]; simpl in Hn;
        try discriminate; reflexivity.
    + simpl. destruct (exec R l) as [R' [mr|]] eqn:He; [|reflexivity].
      pose proof (exec_some_global R l R' mr Hg He) as (Hi & Hl & Hb & Hg').
      assert (Hstep : forall R'',
                 R'' = match matched mr with
                       | EmptyString => setLastIndex R' (S (lastIndex R'))
                       | String _ _ => R'
                       end ->
                 global R'' = true /\ lastIndex R < lastIndex R'').
      { intros R'' ->. destruct (matched mr) eqn:Hm; simpl in *; split;
          try exact Hg'; lia. }
      specialize (Hstep _ eq_refl) as [Hg'' Hlt].
      rewrite (IH f2 _ l Hg''); [reflexivity | lia | lia].
Qed.

(** [S.match(R)] hands a global pattern back with [lastIndex] at 0,
    whatever it was before: the call leaves no trace in the pattern. *)
Lemma matchLoop_lastIndex f : forall R l,
  global R = true ->
  String.length l < f + lastIndex R ->
  lastIndex (fst (matchLoop f R l)) = 0.
Proof.
  induction f as [|f IH]; intros R l Hg Hf.
  - pose proof (exec_past_end R l Hg ltac:(lia)) as Hn.
    simpl. destruct (exec R l) as [R' [mr|]] eqn:He; simpl in Hn; [discriminate|].
    apply (exec_none_global R l R' Hg) in He as [H0 _]. exact H0.
  - simpl. destruct (exec R l) as [R' [mr|]] eqn:He.
    + pose proof (exec_some_global R l R' mr Hg He) as (Hi & Hl & Hb & Hg').
      match goal with
      | |- context [matchLoop f ?X l] =>
          assert (Hx : global X = true /\ String.length l < f + lastIndex X)
      end.
      { destruct (matched mr) eqn:Hm; simpl in *; split; try exact Hg'; lia. }
      destruct Hx as [Hgx Hfx]. specialize (IH _ l Hgx Hfx).
      destruct (matchLoop f _ l) as [Rf ms]. exact IH.
    + apply (exec_none_global R l R' Hg) in He as [H0 _]. exact H0.
Qed.

Lemma stringMatch_lastIndex l R :
  global R = true -> lastIndex (fst (stringMatch l R)) = 0.
Proof.
  intros Hg. unfold stringMatch.
  pose proof (matchLoop_lastIndex (S (String.length l)) (setLastIndex R 0) l Hg) as H.
  destruct (matchLoop _ _ l) as [R' ms]. simpl in *. apply H. lia.
Qed.

(** Nor does the call look at the [lastIndex] it finds: [match] is
    stateless where [test] is not. *)
Lemma stringMatch_ignores_lastIndex l R n :
  stringMatch l (setLastIndex R n) = stringMatch l R.
Proof. reflexivity. Qed.

(** [test] is not: on a global pattern it reports a match only from
    [lastIndex] on, and a successful probe moves [lastIndex] behind the
    match. *)
Lemma test_true_moves_lastIndex R l R' :
  global R = true -> test R l = (R', true) ->
  lastIndex R <= lastIndex R' <= String.length l.
Proof.
  intros Hg H. unfold test in H.
  destruct (exec R l) as [R1 [mr|]] eqn:He; [|discriminate].
  injection H as <-.
  apply (exec_some_global R l R1 mr Hg) in He as (Hi & Hl & Hb & _). lia.
Qed.

End JsRegExpFacts.

(** ** The regex literals of the sources *)

Module Literals.
Import JsString JsRegExp Runtime Notions.

(** Every regex literal of the sources, and every keyword pattern the
    fallback builds, is inside the fragment [parsePattern] reads. *)
Lemma literals_parse : forallb parses literalTexts = true.
Proof. vm_compute. reflexivity. Qed.

(** No detector pattern fell back to the empty set. *)
Lemma detector_literals_global :
  forallb (fun R => global R && ignoreCase R
                    && match source R with RSet false [] => false | _ => true end)
          detectorLiterals = true.
Proof. vm_compute. reflexivity. Qed.

End Literals.

(** ** LoggingSensitivityChecker and the keyword fallback, run twice *)

Module Determinism.
Import JsString JsRegExp Runtime Types Examples.

(** C1 (the code departs from it).  Two calls on the same detector
    instance with the same text do not return the same issues.  The
    logger patterns carry the global flag and are probed with [test],
    which leaves [lastIndex] behind the match; the next probe of the same
    text starts there, finds nothing and reports that the line holds no
    logging call.  For the sensitive-logging check the first call on
    [printlnLine] returns one issue and the second none; for the keyword
    fallback of the semantic analyzer the first call on [loggerLine]
    returns three issues and the second none. *)
Theorem repeated_call_loses_issues :
  (let first := LoggingSensitivityChecker.checkLoggingSensitivity
                  LoggingSensitivityChecker.create printlnLine in
   let second := LoggingSensitivityChecker.checkLoggingSensitivity
                   (fst first) printlnLine in
   map description (snd first)
   = ["Password/secret data is being logged - security risk: "
      +:+ dq +:+ ".getPassword()" +:+ dq]
   /\ snd second = []
   /\ map lastIndex (LoggingSensitivityChecker.loggerPatterns (fst first))
      = [0; 0; 0; 0; 19; 0])
  /\
  (forall Vec Num (cosineSimilarity : Vec -> Vec -> Num)
          (atLeastThreshold : Num -> bool) (percent : Num -> string),
   let analyze := SemanticLoggingAnalyzer.analyzeLoggingStatements
                    Vec Num cosineSimilarity atLeastThreshold percent in
   let first := analyze (SemanticLoggingAnalyzer.create Vec) loggerLine in
   let second := analyze (fst first) loggerLine in
   length (snd first) = 3 /\ snd second = []).
Proof.
  split.
  - vm_compute. repeat split; reflexivity.
  - intros Vec Num cs th pc. vm_compute. split; reflexivity.
Qed.

(** The same defect inside one call: of two identical logging lines the
    second goes unreported. *)
Lemma second_identical_line_unreported :
  map lineNumber
      (snd (LoggingSensitivityChecker.checkLoggingSensitivity
              LoggingSensitivityChecker.create
              (printlnLine +:+ nl +:+ printlnLine)))
  = [1].
Proof. vm_compute. reflexivity. Qed.

(** C2 (the code departs from it).  The line
    [LOGGER.info("User password: " + user.getPassword());] is reported by
    a freshly constructed checker: one issue, of severity high, from a
    catalog entry of category Credentials, its description naming the
    password accessor.  The same checker asked again does not always
    report it.  The line matches two logger patterns, [LOGGER\.] and,
    since case is ignored, [logger\.]; the first call leaves [lastIndex]
    of the first at 12, the second call that of the third, the third
    call again that of the first, and on the fourth call every probe
    starts behind the match or finds none: the line is said to hold no
    logging call and nothing is reported.  The fifth call reports it
    again. *)
Theorem password_line_unreported_on_fourth_call :
  let check self := LoggingSensitivityChecker.checkLoggingSensitivity self loggerLine in
  let first := check LoggingSensitivityChecker.create in
  let second := check (fst first) in
  let third := check (fst second) in
  let fourth := check (fst third) in
  let fifth := check (fst fourth) in
  (exists issue entry,
      snd first = [issue]
      /\ severity issue = High
      /\ lineNumber issue = 1
      /\ In entry LoggingSensitivityChecker.sensitiveMethodPatterns_init
      /\ LoggingSensitivityChecker.category entry = "Credentials"
      /\ issue = LoggingSensitivityChecker.issueOf entry 1 ".getPassword()"
      /\ description issue
         = "Password/secret data is being logged - security risk: "
           +:+ dq +:+ ".getPassword()" +:+ dq
      /\ includes (toLowerCase (description issue)) "password" = true)
  /\ snd second = snd first
  /\ snd third = snd first
  /\ map lastIndex (LoggingSensitivityChecker.loggerPatterns (fst third))
     = [12; 0; 12; 0; 0; 0]
  /\ snd fourth = []
  /\ snd fifth = snd first.
Proof.
  cbv zeta. split.
  - eexists. exists (nth 2 LoggingSensitivityChecker.sensitiveMethodPatterns_init
                         (LoggingSensitivityChecker.mkSensitive
                            (regexLiteral EmptyString true true) EmptyString Low EmptyString)).
    split; [vm_compute; reflexivity|].
    split_and!; try (vm_compute; reflexivity).
    simpl. right. right. left. reflexivity.
  - vm_compute. repeat split; reflexivity.
Qed.

End Determinism.

(** ** RuleEngine *)

Module RuleEngineFacts.
Import JsString JsRegExp Runtime RuleEngine Notions Examples.

Lemma obind_assoc {A B C : Type} (x : outcome A) (f : A -> outcome B)
      (g : B -> outcome C) :
  obind (obind x f) g = obind x (fun a => obind (f a) g).
Proof. destruct x; reflexivity. Qed.

Lemma obind_returns {A B : Type} (x : outcome A) (f : A -> outcome B) (b : B) :
  obind x f = Returns b -> exists a, x = Returns a /\ f a = Returns b.
Proof. destruct x; simpl; intros H; try discriminate. eauto. Qed.

Section WithCompile.
Variable compile : string -> option regex.

(** Rules are applied one after the other, findings concatenated. *)
Lemma applyRulesTo_app pre post code :
  applyRulesTo compile (pre ++ post) code =
  obind (applyRulesTo compile pre code) (fun a =>
  obind (applyRulesTo compile post code) (fun b => Returns (a ++ b))).
Proof.
  induction pre as [|rule pre IH]; simpl.
  - destruct (applyRulesTo compile post code); reflexivity.
  - destruct (patternOf rule) as [p|]; [|exact IH].
    destruct (compile p) as [r|]; [|reflexivity].
    destruct (scanLines rule _ _ 0) as [found| |]; simpl; try reflexivity.
    rewrite IH.
    destruct (applyRulesTo compile pre code) as [a| |]; simpl; try reflexivity.
    destruct (applyRulesTo compile post code) as [b| |]; simpl; try reflexivity.
    now rewrite app_assoc.
Qed.

Lemma applyRulesTo_malformed pre rule post p code :
  patternOf rule = Some p -> compile p = None ->
  applyRulesTo compile (pre ++ rule :: post) code =
  obind (applyRulesTo compile pre code) (fun _ => Throws).
Proof.
  intros Hp Hc. rewrite applyRulesTo_app. simpl. rewrite Hp, Hc. reflexivity.
Qed.

Lemma applyRulesTo_inactive pre rule post code :
  patternOf rule = None ->
  applyRulesTo compile (pre ++ rule :: post) code =
  applyRulesTo compile (pre ++ post) code.
Proof.
  intros Hp. rewrite !applyRulesTo_app. simpl. rewrite Hp. reflexivity.
Qed.

Lemma scanLines_findings rule lines : forall R index found,
  scanLines rule R lines index = Returns found ->
  Forall (findingFrom rule) found.
Proof.
  induction lines as [|l lines IH]; intros R index found H; simpl in H.
  - injection H as <-. constructor.
  - apply obind_returns in H as ([R' ms] & _ & H).
    apply obind_returns in H as (more & Hmore & H).
    injection H as <-. apply Forall_app. split.
    + apply List.Forall_forall. intros f Hf. apply List.in_map_iff in Hf as (mr & <- & _).
      unfold findingFrom, findingOf. simpl. repeat split; lia.
    + eapply IH. exact Hmore.
Qed.

Lemma applyRulesTo_findings rs code : forall found,
  applyRulesTo compile rs code = Returns found ->
  Forall (fun f => exists rule, In rule rs /\ findingFrom rule f) found.
Proof.
  induction rs as [|rule rs IH]; intros found H; simpl in H.
  - injection H as <-. constructor.
  - assert (Hweak : forall l,
               Forall (fun f => exists r, In r rs /\ findingFrom r f) l ->
               Forall (fun f => exists r, In r (rule :: rs) /\ findingFrom r f) l).
    { intros l Hl. eapply List.Forall_impl; [|exact Hl].
      intros f (r & Hr & Hf). exists r. split; [now right | exact Hf]. }
    destruct (patternOf rule) as [p|]; [|apply Hweak, IH, H].
    destruct (compile p) as [r|]; [|discriminate].
    apply obind_returns in H as (here & Hhere & H).
    apply obind_returns in H as (more & Hmore & H).
    injection H as <-. apply Forall_app. split.
    + apply scanLines_findings in Hhere.
      eapply List.Forall_impl; [|exact Hhere].
      intros f Hf. exists rule. split; [now left | exact Hf].
    + apply Hweak, IH, Hmore.
Qed.

End WithCompile.

(** *** Malformed patterns *)

(** C3, as stated, fails.  With the well-formed naming rule followed by
    a rule whose pattern is ["("], scanning a line the naming rule
    matches throws; without the broken rule the finding is returned. *)
Lemma malformed_rule_aborts_scan :
  applyRules parsePattern (mkRuleSet "1.0.0" [namingRule; brokenRule]) constantLine
  = Throws
  /\ applyRules parsePattern (mkRuleSet "1.0.0" [namingRule]) constantLine
     = Returns [mkFinding "naming-convention" 1
                  "Static final variables should be in UPPER_CASE_WITH_UNDERSCORES"
                  medium "static final int maxRetries"].
Proof. split; vm_compute; reflexivity. Qed.

(** C3, amended.  When an enabled rule with a non-empty pattern does not
    compile, applying the rules returns no findings for any text: the
    rules before it are applied and then the constructor's exception
    leaves [applyRules].  A rule is skipped, malformed or not, exactly
    when it is disabled or has no pattern. *)
Theorem applyRules_malformed_pattern_throws
        (compile : string -> option regex) (rs : RuleSet) (code : string)
        (pre post : list Rule) (rule : Rule) :
  rules rs = pre ++ rule :: post ->
  (forall p, patternOf rule = Some p -> compile p = None ->
     applyRules compile rs code
     = obind (applyRulesTo compile pre code) (fun _ => Throws)
     /\ forall found, applyRules compile rs code <> Returns found)
  /\ (patternOf rule = None ->
      applyRules compile rs code = applyRulesTo compile (pre ++ post) code).
Proof.
  intros Hrs. unfold applyRules. rewrite Hrs. split.
  - intros p Hp Hc. rewrite (applyRulesTo_malformed compile pre rule post p code Hp Hc).
    split; [reflexivity|].
    intros found. destruct (applyRulesTo compile pre code); discriminate.
  - apply applyRulesTo_inactive.
Qed.

Lemma applyRules_malformed_pattern_throws_witness :
  applyRules parsePattern (mkRuleSet "1.0.0" [namingRule; brokenRule]) constantLine
  = obind (applyRulesTo parsePattern [namingRule] constantLine) (fun _ => Throws).
Proof.
  exact (proj1 (proj1 (applyRules_malformed_pattern_throws
                         parsePattern (mkRuleSet "1.0.0" [namingRule; brokenRule])
                         constantLine [namingRule] [] brokenRule eq_refl)
                      "(" eq_refl eq_refl)).
Defined.

(** *** The default rules *)

(** C5.  The hard-coded defaults are, in this order, the constant-naming
    rule (medium), the excessive-nesting rule (high, no pattern) and the
    hardcoded-sensitive-information rule (critical, with a non-empty
    pattern that is a regular expression); all three are enabled. *)
Theorem default_rules_content :
  exists naming nesting secret secretPattern,
    rules getDefaultRules = [naming; nesting; secret]
    /\ (id naming = "naming-convention" /\ name naming = "Constant Naming Convention"
        /\ severity naming = medium /\ enabled naming = true)
    /\ (id nesting = "excessive-nesting" /\ name nesting = "Excessive Nesting"
        /\ severity nesting = high /\ pattern nesting = None
        /\ enabled nesting = true)
    /\ (id secret = "hardcoded-sensitive-info"
        /\ name secret = "Hardcoded Sensitive Information"
        /\ severity secret = critical
        /\ pattern secret = Some secretPattern
        /\ secretPattern <> EmptyString
        /\ parses secretPattern = true
        /\ enabled secret = true)
    /\ getRule getDefaultRules "naming-convention" = Some naming
    /\ getRule getDefaultRules "excessive-nesting" = Some nesting
    /\ getRule getDefaultRules "hardcoded-sensitive-info" = Some secret.
Proof.
  do 4 eexists. split; [reflexivity|].
  repeat split; try reflexivity.
  - vm_compute. discriminate.
Qed.

End RuleEngineFacts.

(** ** Loading the rule store *)

(** *** Making directories *)

Module FsFacts.
Import Fs.

Lemma mkdirs_spec (todo : list string) : forall fs,
  files (fst (mkdirs todo fs)) = files fs
  /\ denied (fst (mkdirs todo fs)) = denied fs
  /\ (forall d, d ∈ dirs fs -> d ∈ dirs (fst (mkdirs todo fs)))
  /\ (forall d, d ∈ dirs (fst (mkdirs todo fs)) -> d ∈ dirs fs \/ In d todo)
  /\ (snd (mkdirs todo fs) = Some tt ->
      forall d, In d todo -> d ∈ dirs (fst (mkdirs todo fs))).
Proof.
  induction todo as [|a todo IH]; intros fs; simpl.
  - repeat split; auto. intros _ d [].
  - unfold isDir. destruct (bool_decide (a ∈ dirs fs)) eqn:Ha.
    + apply bool_decide_eq_true in Ha.
      destruct (IH fs) as (H1 & H2 & H3 & H4 & H5).
      repeat split; auto.
      * intros d Hd. destruct (H4 d Hd); auto.
      * intros Hs d [<-|Hd]; auto.
    + destruct (isDenied fs a || isFile fs a); simpl.
      * repeat split; auto. discriminate.
      * destruct (IH (mkFS (files fs) ({[ a ]} ∪ dirs fs) (denied fs)))
          as (H1 & H2 & H3 & H4 & H5). simpl in *.
        repeat split; auto.
        -- intros d Hd. apply H3, elem_of_union. auto.
        -- intros d Hd. destruct (H4 d Hd) as [Hd'|Hd']; [|auto].
           apply elem_of_union in Hd' as [Hd'|Hd']; [|auto].
           apply elem_of_singleton in Hd'. auto.
        -- intros Hs d [<-|Hd]; [|auto].
           apply H3, elem_of_union. left. apply elem_of_singleton. reflexivity.
Qed.

(** What a first call made is there for the second one, which stops
    where the first one did. *)
Lemma mkdirs_again (todo : list string) : forall fs,
  mkdirs todo (fst (mkdirs todo fs)) = mkdirs todo fs.
Proof.
  induction todo as [|a todo IH]; intros fs; simpl; [reflexivity|].
  unfold isDir. destruct (bool_decide (a ∈ dirs fs)) eqn:Ha.
  - apply bool_decide_eq_true in Ha.
    rewrite bool_decide_eq_true_2; [apply IH|].
    destruct (mkdirs_spec todo fs) as (_ & _ & H3 & _). apply H3, Ha.
  - destruct (isDenied fs a || isFile fs a) eqn:Hbad; simpl.
    + rewrite Ha, Hbad. reflexivity.
    + rewrite bool_decide_eq_true_2; [apply IH|].
      destruct (mkdirs_spec todo (mkFS (files fs) ({[ a ]} ∪ dirs fs) (denied fs)))
        as (_ & _ & H3 & _).
      apply H3. simpl. apply elem_of_union. left. apply elem_of_singleton. reflexivity.
Qed.

(** A call that throws has not reached the directories after the one
    it stopped at. *)
Lemma mkdirs_throws_before (pre : list string) (d : string) : forall fs,
  snd (mkdirs (pre ++ [d]) fs) = None ->
  d ∉ dirs fs -> ~ In d pre ->
  d ∉ dirs (fst (mkdirs (pre ++ [d]) fs)).
Proof.
  induction pre as [|a pre IH]; intros fs; simpl.
  - unfold isDir. destruct (bool_decide (d ∈ dirs fs)); [discriminate|].
    destruct (isDenied fs d || isFile fs d); simpl; [auto | discriminate].
  - intros Hs Hd Hpre. revert Hs. unfold isDir.
    destruct (bool_decide (a ∈ dirs fs)).
    + intros Hs. apply IH; auto.
    + destruct (isDenied fs a || isFile fs a); simpl; [auto|].
      intros Hs. apply IH; auto. simpl.
      intros Hin. apply elem_of_union in Hin as [Hin|Hin]; [|auto].
      apply elem_of_singleton in Hin. auto.
Qed.

Lemma ancestorsFrom_shorter (cs : list ascii) : forall seen a,
  In a (ancestorsFrom seen cs) ->
  String.length a < length seen + length cs.
Proof.
  induction cs as [|c cs IH]; intros seen a; simpl; [intros []|].
  intros Ha. apply in_app_or in Ha as [Ha|Ha].
  - destruct (Ascii.eqb c "/"); [|destruct Ha].
    destruct seen as [|s seen];
      [destruct cs; [destruct Ha | destruct Ha as [<-|[]]; simpl; lia]|].
    destruct Ha as [<-|[]].
    rewrite <- (length_rev (s :: seen)).
    generalize (rev (s :: seen)). intros l.
    assert (String.length (string_of_list_ascii l) = length l) as ->
      by (induction l as [|x l IHl]; simpl; [reflexivity | now rewrite IHl]).
    lia.
  - specialize (IH _ _ Ha). simpl in IH. lia.
Qed.

Lemma ancestors_example :
  ancestors "/ext/resources/rules" = ["/"; "/ext"; "/ext/resources"]
  /\ ancestors "resources/rules" = ["resources"]
  /\ ancestors "/" = [].
Proof. repeat split. Qed.

(** A path is none of its own ancestors. *)
Lemma ancestors_proper (p : string) : ~ In p (ancestors p).
Proof.
  intros H. apply ancestorsFrom_shorter in H. simpl in H.
  assert (Hlen : forall s, length (list_ascii_of_string s) = String.length s).
  { intros s. induction s as [|x s IHs]; simpl; [reflexivity | now rewrite IHs]. }
  rewrite Hlen in H. lia.
Qed.

Lemma mkdirSync_spec (d : string) (fs : FS) :
  files (fst (mkdirSync d fs)) = files fs
  /\ denied (fst (mkdirSync d fs)) = denied fs
  /\ (forall x, x ∈ dirs fs -> x ∈ dirs (fst (mkdirSync d fs)))
  /\ (forall x, x ∈ dirs (fst (mkdirSync d fs)) ->
      x ∈ dirs fs \/ x = d \/ In x (ancestors d))
  /\ (snd (mkdirSync d fs) = Some tt -> d ∈ dirs (fst (mkdirSync d fs)))
  /\ (snd (mkdirSync d fs) = None -> d ∉ dirs fs ->
      d ∉ dirs (fst (mkdirSync d fs)))
  /\ mkdirSync d (fst (mkdirSync d fs)) = mkdirSync d fs.
Proof.
  unfold mkdirSync.
  destruct (mkdirs_spec (ancestors d ++ [d]) fs) as (H1 & H2 & H3 & H4 & H5).
  repeat split; auto.
  - intros x Hx. destruct (H4 x Hx) as [?|Hin]; [auto|].
    apply in_app_or in Hin as [?|[<-|[]]]; auto.
  - intros Hs. apply H5; [exact Hs|]. apply in_or_app. right. left. reflexivity.
  - intros Hs Hd. apply mkdirs_throws_before; auto. apply ancestors_proper.
  - apply mkdirs_again.
Qed.

End FsFacts.

Module RuleStoreFacts.
Import RuleEngine Notions.

Section Load.
Variable root : string.
Variable stringify : RuleSet -> string.
Variable parse : string -> option RuleSet.

(** C4.  [loadRules] always ends with a rule set in [this.rules].
    (1) A throw anywhere in the [try] gives the defaults; otherwise
    the rule set is the one parsed from the file as it is then.
    (2) When nothing exists at the rules path, the defaults are
    written there before the file is read back, and if the directory
    or the file cannot be created the defaults are used all the same.
    (3) When the file exists, an unreadable file or an unparsable
    content gives the defaults. *)
Theorem loadRules_recovers (fs : Fs.FS) :
  let fs' := fst (loadRules root stringify parse fs) in
  let rs := snd (loadRules root stringify parse fs) in
  match loadRulesTry root stringify parse fs with
  | (_, None) => rs = getDefaultRules
  | (_, Some loaded) =>
      rs = loaded
      /\ exists content, Fs.files fs' !! rulesPath root = Some content
                         /\ parse content = Some loaded
  end
  /\ (Fs.isFile fs (rulesPath root) || Fs.isDir fs (rulesPath root) = false ->
      match createDefaultRules root stringify fs with
      | (_, Some _) =>
          Fs.files fs' !! rulesPath root = Some (stringify getDefaultRules)
          /\ rs = parsedOrDefault parse (stringify getDefaultRules)
      | (_, None) => rs = getDefaultRules
      end)
  /\ (forall content,
        Fs.files fs !! rulesPath root = Some content ->
        fs' = fs
        /\ rs = if Fs.isDenied fs (rulesPath root) then getDefaultRules
                else parsedOrDefault parse content).
Proof.
  cbv zeta. unfold loadRules, loadRulesTry, createDefaultRules, parsedOrDefault.
  pose proof (FsFacts.mkdirSync_spec (rulesDir root) fs) as (Hfiles & Hdenied & _).
  destruct (Fs.mkdirSync (rulesDir root) fs) as [made done] eqn:Hmk.
  unfold Fs.bind, Fs.existsSync, Fs.writeFileSync, Fs.readFileSync,
    Fs.ret, Fs.throw, Fs.isFile, Fs.isDir, Fs.isDenied.
  destruct made as [fl ds dn], fs as [fl0 ds0 dn0]. simpl in Hfiles, Hdenied. subst fl dn.
  repeat split.
  - repeat (case_match; simplify_eq/=); eauto.
  - intros Hmissing. apply orb_false_iff in Hmissing as [Hf Hd].
    rewrite Hf, Hd. simpl.
    repeat (case_match; simplify_eq/=); simplify_map_eq; eauto.
  - rewrite H. simpl. repeat (case_match; simplify_eq/=); reflexivity.
  - rewrite H. simpl. repeat (case_match; simplify_eq/=); reflexivity.
Qed.

End Load.

End RuleStoreFacts.

Module RuleStoreExample.
Import RuleEngine Notions Examples.

(** On the empty disk the defaults are written to the rules path and
    then loaded from it. *)
Lemma loadRules_recovers_witness :
  Fs.files (fst (loadRules "/ext" mockStringify mockParse emptyDisk))
    !! rulesPath "/ext" = Some (mockStringify getDefaultRules)
  /\ snd (loadRules "/ext" mockStringify mockParse emptyDisk)
     = parsedOrDefault mockParse (mockStringify getDefaultRules).
Proof.
  pose proof (proj1 (proj2 (RuleStoreFacts.loadRules_recovers
                              "/ext" mockStringify mockParse emptyDisk))) as H.
  vm_compute in H. vm_compute. exact (H eq_refl).
Defined.

End RuleStoreExample.

(** ** What every emitted issue looks like *)

Module IssueFacts.
Import JsString JsRegExp Runtime Types Notions.

Lemma append_nonempty (a b : string) : b <> EmptyString -> a +:+ b <> EmptyString.
Proof. destruct a; simpl; [trivial | discriminate]. Qed.

Lemma length_splitChars sep cs : forall cur, 1 <= length (splitChars sep cur cs).
Proof.
  induction cs as [|c cs IH]; intros cur; simpl; [lia|].
  destruct (Ascii.eqb c sep); simpl; [lia | apply IH].
Qed.

(** [split] never gives an empty array. *)
Lemma length_splitLines code : 1 <= length (splitLines code).
Proof. unfold splitLines. rewrite length_map. apply length_splitChars. Qed.

(** *** LoggingSensitivityChecker *)

Lemma issueOf_shape p n m :
  lineNumber (LoggingSensitivityChecker.issueOf p n m) = n
  /\ description (LoggingSensitivityChecker.issueOf p n m) <> EmptyString
  /\ severity (LoggingSensitivityChecker.issueOf p n m)
     = LoggingSensitivityChecker.sp_severity p.
Proof.
  repeat split. simpl. apply append_nonempty. discriminate.
Qed.

Lemma checkSensitivePatterns_shape ps line n :
  Forall (fun i => lineNumber i = n /\ description i <> EmptyString)
         (snd (LoggingSensitivityChecker.checkSensitivePatterns ps line n)).
Proof.
  induction ps as [|p ps IH]; simpl; [constructor|].
  destruct (stringMatch line (LoggingSensitivityChecker.pattern p)) as [R' matches].
  destruct (LoggingSensitivityChecker.checkSensitivePatterns ps line n) as [ps' more].
  simpl in *. apply Forall_app. split; [|exact IH].
  destruct matches as [ms|]; [|constructor].
  apply List.Forall_forall. intros i Hi. apply List.in_map_iff in Hi as (m & <- & _).
  pose proof (issueOf_shape p n m) as (H1 & H2 & _). split; assumption.
Qed.

Lemma checkLines_shape lines : forall self index,
  Forall (issueWithin (index + 1) (index + length lines))
         (snd (LoggingSensitivityChecker.checkLines self lines index)).
Proof.
  induction lines as [|line lines IH]; intros self index; simpl; [constructor|].
  destruct (someTest (LoggingSensitivityChecker.loggerPatterns self) line)
    as [lp hasLogging].
  pose proof (checkSensitivePatterns_shape
                (LoggingSensitivityChecker.sensitiveMethodPatterns self) line (index + 1))
    as Hhere.
  destruct (LoggingSensitivityChecker.checkSensitivePatterns
              (LoggingSensitivityChecker.sensitiveMethodPatterns self) line (index + 1))
    as [sp found].
  assert (Hweak : forall more,
             Forall (issueWithin (S index + 1) (S index + length lines)) more ->
             Forall (issueWithin (index + 1) (index + S (length lines))) more).
  { intros more Hm. eapply List.Forall_impl; [|exact Hm].
    intros i [Hl Hd]. split; [lia | exact Hd]. }
  destruct hasLogging; simpl;
    match goal with
    | |- context [LoggingSensitivityChecker.checkLines ?s lines (S index)] =>
        specialize (IH s (S index));
        destruct (LoggingSensitivityChecker.checkLines s lines (S index)) as [self2 more]
    end; simpl in *.
  - apply Forall_app. split; [|apply Hweak, IH].
    eapply List.Forall_impl; [|exact Hhere].
    intros i [Hl Hd]. split; [lia | exact Hd].
  - apply Hweak, IH.
Qed.

(** *** SemanticLoggingAnalyzer *)

Lemma keywordIssue_shape n m :
  lineNumber (SemanticLoggingAnalyzer.keywordIssue n m) = n
  /\ description (SemanticLoggingAnalyzer.keywordIssue n m) <> EmptyString
  /\ severity (SemanticLoggingAnalyzer.keywordIssue n m) = Medium.
Proof. repeat split. discriminate. Qed.

Lemma fallbackLineAnalysis_shape line n :
  Forall (fun i => exists m, i = SemanticLoggingAnalyzer.keywordIssue n m)
         (SemanticLoggingAnalyzer.fallbackLineAnalysis line n).
Proof.
  unfold SemanticLoggingAnalyzer.fallbackLineAnalysis.
  apply List.Forall_flat_map. apply List.Forall_forall. intros keyword _.
  apply List.Forall_forall. intros i Hi. apply List.in_map_iff in Hi as (m & <- & _).
  exists m. reflexivity.
Qed.

Section Backend.
Variables Vec Num : Type.
Variable cosineSimilarity : Vec -> Vec -> Num.
Variable atLeastThreshold : Num -> bool.
Variable percent : Num -> string.

Lemma semanticIssue_shape n m :
  lineNumber (SemanticLoggingAnalyzer.semanticIssue Num percent n m) = n
  /\ description (SemanticLoggingAnalyzer.semanticIssue Num percent n m) <> EmptyString.
Proof. split; [reflexivity | discriminate]. Qed.

Lemma analyzeLoggingLine_shape (self : SemanticLoggingAnalyzer.t Vec) line n :
  Forall (fun i => lineNumber i = n /\ description i <> EmptyString)
         (SemanticLoggingAnalyzer.analyzeLoggingLine
            Vec Num cosineSimilarity atLeastThreshold percent self line n).
Proof.
  unfold SemanticLoggingAnalyzer.analyzeLoggingLine.
  destruct (SemanticLoggingAnalyzer.extractLoggedContent line) as [|c cs]; [constructor|].
  apply List.Forall_flat_map. apply List.Forall_forall. intros content _.
  apply List.Forall_flat_map. apply List.Forall_forall. intros m _.
  destruct (atLeastThreshold _); constructor; [|constructor].
  apply semanticIssue_shape.
Qed.

(** The loop keeps whatever holds of the issues of each line. *)
Lemma scanLines_shape (P : nat -> VulnerabilityIssue -> Prop)
      (perLine : SemanticLoggingAnalyzer.t Vec -> string -> nat -> list VulnerabilityIssue) :
  (forall self line n, Forall (P n) (perLine self line n)) ->
  forall lines (self : SemanticLoggingAnalyzer.t Vec) index,
    Forall (fun i => exists n, index + 1 <= n <= index + length lines /\ P n i)
           (snd (SemanticLoggingAnalyzer.scanLines Vec perLine self lines index)).
Proof.
  intros HP lines. induction lines as [|line lines IH]; intros self index; simpl;
    [constructor|].
  destruct (someTest (SemanticLoggingAnalyzer.LOGGING_PATTERNS Vec self) line)
    as [lp hasLogging].
  match goal with
  | |- context [SemanticLoggingAnalyzer.scanLines Vec perLine ?s lines (S index)] =>
      specialize (IH s (S index));
      pose proof (HP s line (index + 1)) as Hhere;
      destruct (SemanticLoggingAnalyzer.scanLines Vec perLine s lines (S index))
        as [self2 more]
  end.
  simpl in *. apply Forall_app. split.
  - destruct hasLogging; [|constructor].
    eapply List.Forall_impl; [|exact Hhere].
    intros i Hi. exists (index + 1). split; [lia | exact Hi].
  - eapply List.Forall_impl; [|exact IH].
    intros i (n & Hn & Hi). exists n. split; [lia | exact Hi].
Qed.

Lemma fallbackKeywordAnalysis_shape (self : SemanticLoggingAnalyzer.t Vec) code :
  Forall (fun i => exists n m,
              1 <= n <= length (splitLines code)
              /\ i = SemanticLoggingAnalyzer.keywordIssue n m)
         (snd (SemanticLoggingAnalyzer.fallbackKeywordAnalysis Vec self code)).
Proof.
  unfold SemanticLoggingAnalyzer.fallbackKeywordAnalysis.
  pose proof (scanLines_shape
                (fun n i => exists m, i = SemanticLoggingAnalyzer.keywordIssue n m)
                (fun _ line n => SemanticLoggingAnalyzer.fallbackLineAnalysis line n)
                (fun _ line n => fallbackLineAnalysis_shape line n)
                (splitLines code) self 0) as H.
  eapply List.Forall_impl; [|exact H].
  intros i (n & Hn & m & Hi). exists n, m. split; [lia | exact Hi].
Qed.

Lemma analyzeLoggingStatements_uninitialized (self : SemanticLoggingAnalyzer.t Vec) code :
  SemanticLoggingAnalyzer.isInitialized Vec self = false
  \/ SemanticLoggingAnalyzer.embeddingPipeline Vec self = None ->
  SemanticLoggingAnalyzer.analyzeLoggingStatements
    Vec Num cosineSimilarity atLeastThreshold percent self code
  = SemanticLoggingAnalyzer.fallbackKeywordAnalysis Vec self code.
Proof.
  intros [H|H]; unfold SemanticLoggingAnalyzer.analyzeLoggingStatements;
    rewrite H; [reflexivity|].
  rewrite orb_true_r. reflexivity.
Qed.

Lemma analyzeLoggingStatements_shape (self : SemanticLoggingAnalyzer.t Vec) code :
  Forall (issueWithin 1 (length (splitLines code)))
         (snd (SemanticLoggingAnalyzer.analyzeLoggingStatements
                 Vec Num cosineSimilarity atLeastThreshold percent self code)).
Proof.
  unfold SemanticLoggingAnalyzer.analyzeLoggingStatements.
  match goal with |- context [if ?b then _ else _] => destruct b end.
  - eapply List.Forall_impl; [|apply fallbackKeywordAnalysis_shape].
    intros i (n & m & Hn & ->).
    pose proof (keywordIssue_shape n m) as (H1 & H2 & _).
    split; [rewrite H1; lia | exact H2].
  - pose proof (scanLines_shape
                  (fun n i => lineNumber i = n /\ description i <> EmptyString)
                  (SemanticLoggingAnalyzer.analyzeLoggingLine
                     Vec Num cosineSimilarity atLeastThreshold percent)
                  analyzeLoggingLine_shape (splitLines code) self 0) as H.
    eapply List.Forall_impl; [|exact H].
    intros i (n & Hn & Hl & Hd). split; [lia | exact Hd].
Qed.

End Backend.

End IssueFacts.

(** ** The keyword fallback and the issue invariant *)

Module DetectorFacts.
Import JsString JsRegExp Runtime Types Notions Examples IssueFacts.

(** C6, as stated, fails.  On [credentialLine] the uninitialized analyzer
    reports the keyword "password" with severity medium, while the
    category of that keyword maps to high and the catalog of the
    sensitive-logging detector reports the same line as high. *)
Lemma fallback_reports_credentials_as_medium :
  In (SemanticLoggingAnalyzer.keywordIssue 1 "password")
     (analyzeUninitialized credentialLine)
  /\ map severity (analyzeUninitialized credentialLine) = [Medium; Medium; Medium]
  /\ In "password" (snd (nth 1 SemanticLoggingAnalyzer.SENSITIVE_KEYWORDS
                             (EmptyString, [])))
  /\ SemanticLoggingAnalyzer.getSeverityByCategory "authentication" = High
  /\ map severity
         (snd (LoggingSensitivityChecker.checkLoggingSensitivity
                 LoggingSensitivityChecker.create credentialLine))
     = [High].
Proof.
  split; [vm_compute; right; left; reflexivity|].
  split; [vm_compute; reflexivity|].
  split; [vm_compute; left; reflexivity|].
  split; vm_compute; reflexivity.
Qed.

(** C6, amended.  While the model is not initialized, or no pipeline is
    set, every analysis call is the keyword-only analysis, and each issue
    it emits is a keyword issue: severity medium whatever the keyword,
    with no category attached. *)
Theorem uninitialized_analysis_is_keyword_only
        (Vec Num : Type) (cosineSimilarity : Vec -> Vec -> Num)
        (atLeastThreshold : Num -> bool) (percent : Num -> string)
        (self : SemanticLoggingAnalyzer.t Vec) (code : string) :
  SemanticLoggingAnalyzer.isInitialized Vec self = false
  \/ SemanticLoggingAnalyzer.embeddingPipeline Vec self = None ->
  SemanticLoggingAnalyzer.analyzeLoggingStatements
    Vec Num cosineSimilarity atLeastThreshold percent self code
  = SemanticLoggingAnalyzer.fallbackKeywordAnalysis Vec self code
  /\ Forall (fun i => severity i = Medium
                      /\ exists n m, i = SemanticLoggingAnalyzer.keywordIssue n m)
            (snd (SemanticLoggingAnalyzer.analyzeLoggingStatements
                    Vec Num cosineSimilarity atLeastThreshold percent self code)).
Proof.
  intros H.
  rewrite (analyzeLoggingStatements_uninitialized
             Vec Num cosineSimilarity atLeastThreshold percent self code H).
  split; [reflexivity|].
  eapply List.Forall_impl; [|apply fallbackKeywordAnalysis_shape].
  intros i (n & m & _ & ->). split; [reflexivity | eauto].
Qed.

Lemma uninitialized_analysis_is_keyword_only_witness :
  Forall (fun i => severity i = Medium
                   /\ exists n m, i = SemanticLoggingAnalyzer.keywordIssue n m)
         (analyzeUninitialized credentialLine).
Proof.
  exact (proj2 (uninitialized_analysis_is_keyword_only
                  unit unit (fun _ _ => tt) (fun _ => true) (fun _ => EmptyString)
                  (SemanticLoggingAnalyzer.create unit) credentialLine
                  (or_introl eq_refl))).
Defined.

(** C10, as stated, fails for the pattern rules: a finding carries the
    description of its rule, and nothing keeps that from being empty. *)
Lemma finding_of_undescribed_rule_has_empty_description :
  RuleEngine.applyRules parsePattern (RuleEngine.mkRuleSet "1.0.0" [todoRule])
                        "// TODO: remove"
  = Returns [RuleEngine.mkFinding "todo" 1 EmptyString RuleEngine.low "TODO"].
Proof. vm_compute. reflexivity. Qed.

(** C10, amended.  Every issue of the sensitive-logging check and of the
    semantic analyzer, on either of its paths and in whatever state the
    detector is, has a line number between 1 and the number of lines of
    the text, and a non-empty description.  Every finding of the pattern
    rules has a line number of at least 1 and the identifier, description
    and severity of a rule of the rule set; its description is therefore
    non-empty whenever the rules' descriptions are, as they are in the
    default rule set. *)
Theorem emitted_issues_are_well_formed :
  (forall (self : LoggingSensitivityChecker.t) (code : string),
      Forall (issueWithin 1 (length (splitLines code)))
             (snd (LoggingSensitivityChecker.checkLoggingSensitivity self code)))
  /\ (forall (Vec Num : Type) (cosineSimilarity : Vec -> Vec -> Num)
             (atLeastThreshold : Num -> bool) (percent : Num -> string)
             (self : SemanticLoggingAnalyzer.t Vec) (code : string),
         Forall (issueWithin 1 (length (splitLines code)))
                (snd (SemanticLoggingAnalyzer.analyzeLoggingStatements
                        Vec Num cosineSimilarity atLeastThreshold percent self code)))
  /\ (forall (compile : string -> option regex) (rs : RuleEngine.RuleSet)
             (code : string) (found : list RuleEngine.Finding),
         RuleEngine.applyRules compile rs code = Returns found ->
         Forall (fun f => exists rule, In rule (RuleEngine.rules rs)
                                       /\ findingFrom rule f) found
         /\ (Forall (fun rule => RuleEngine.description rule <> EmptyString)
                    (RuleEngine.rules rs) ->
             Forall (fun f => 1 <= RuleEngine.line f
                              /\ RuleEngine.f_description f <> EmptyString) found))
  /\ Forall (fun rule => RuleEngine.description rule <> EmptyString)
            (RuleEngine.rules RuleEngine.getDefaultRules).
Proof.
  split; [|split; [|split]].
  - intros self code. unfold LoggingSensitivityChecker.checkLoggingSensitivity.
    apply (checkLines_shape (splitLines code) self 0).
  - intros. apply analyzeLoggingStatements_shape.
  - intros compile rs code found H.
    pose proof (RuleEngineFacts.applyRulesTo_findings compile _ _ _ H) as Hf.
    split; [exact Hf|].
    intros Hdesc. eapply List.Forall_impl; [|exact Hf].
    intros f (rule & Hin & Hl & _ & Hd & _). split; [exact Hl|].
    rewrite Hd. rewrite List.Forall_forall in Hdesc. apply Hdesc, Hin.
  - repeat constructor; discriminate.
Qed.

Lemma emitted_issues_are_well_formed_witness :
  Forall (fun f => 1 <= RuleEngine.line f
                   /\ RuleEngine.f_description f <> EmptyString)
         [RuleEngine.mkFinding "naming-convention" 1
            "Static final variables should be in UPPER_CASE_WITH_UNDERSCORES"
            RuleEngine.medium "static final int maxRetries"].
Proof.
  refine (proj2 (proj1 (proj2 (proj2 emitted_issues_are_well_formed))
                       parsePattern RuleEngine.getDefaultRules
                       constantLine _ _)
                (proj2 (proj2 (proj2 emitted_issues_are_well_formed)))).
  vm_compute. reflexivity.
Defined.

End DetectorFacts.

(** ** The suggestion cache *)

Module SuggestionFacts.
Import JsString JsRegExp Runtime Types AISuggestionHandler Notions.

Lemma sameTriple_key v v' :
  sameTriple v v' = true -> getSuggestionKey v = getSuggestionKey v'.
Proof.
  unfold sameTriple, getSuggestionKey. intros H.
  apply andb_true_iff in H as [H Hd]. apply andb_true_iff in H as [Hf Hl].
  apply String.eqb_eq in Hf, Hd. apply Nat.eqb_eq in Hl. now rewrite Hf, Hl, Hd.
Qed.

(** The hash is the decimal text of a number between 0 and 2^31. *)
Lemma toInt32_range z : (- 2 ^ 31 <= toInt32 z < 2 ^ 31)%Z.
Proof. unfold toInt32. pose proof (Z.mod_pos_bound (z + 2 ^ 31) (2 ^ 32)). lia. Qed.

Section Generate.
Context {W : Type}.
Variable contextStep : VulnerabilityIssue -> W -> W * option string.
Variable synthesisStep : VulnerabilityIssue -> string -> W -> W * option string.

Lemma grows_refl (st : State W) : grows st st.
Proof. intros k s H. exact H. Qed.

Lemma grows_trans (st1 st2 st3 : State W) :
  grows st1 st2 -> grows st2 st3 -> grows st1 st3.
Proof. intros H1 H2 k s H. apply H2, H1, H. Qed.

Lemma generateOne_hit st v s :
  getSuggestion st (getSuggestionKey v) = Some s ->
  generateOne contextStep synthesisStep st v = (st, s).
Proof. unfold getSuggestion, generateOne. intros ->. reflexivity. Qed.

Lemma generateOne_miss st v :
  getSuggestion st (getSuggestionKey v) = None ->
  generateOne contextStep synthesisStep st v =
  (let key := getSuggestionKey v in
   let r := tryGenerate contextStep synthesisStep v key (world st) in
   let s := match snd r with Some s => s | None => fallbackSuggestion v key end in
   (mkState (<[ key := s ]> (suggestionCache st)) (fst r), s)).
Proof.
  unfold getSuggestion, generateOne. intros ->. cbv zeta.
  destruct (tryGenerate _ _ v _ (world st)) as [w' res]. reflexivity.
Qed.

Lemma tryGenerate_id v key w s :
  snd (tryGenerate contextStep synthesisStep v key w) = Some s -> id s = key.
Proof.
  unfold tryGenerate. destruct (contextStep v w) as [w1 [c|]]; [|discriminate].
  destruct (synthesisStep v c w1) as [w2 [a|]]; [|discriminate].
  simpl. intros [= <-]. reflexivity.
Qed.

Lemma generateOne_spec st v :
  let r := generateOne contextStep synthesisStep st v in
  getSuggestion (fst r) (getSuggestionKey v) = Some (snd r)
  /\ grows st (fst r)
  /\ (wellKeyed (suggestionCache st) ->
      id (snd r) = getSuggestionKey v /\ wellKeyed (suggestionCache (fst r))).
Proof.
  cbv zeta.
  destruct (getSuggestion st (getSuggestionKey v)) as [s|] eqn:Hc.
  - rewrite (generateOne_hit st v s Hc). simpl.
    split; [exact Hc|]. split; [apply grows_refl|].
    intros Hw. split; [apply Hw, Hc | exact Hw].
  - rewrite (generateOne_miss st v Hc). cbv zeta. simpl.
    pose proof (tryGenerate_id v (getSuggestionKey v) (world st)) as Hid.
    destruct (tryGenerate contextStep synthesisStep v _ (world st)) as [w' res].
    simpl in *. unfold getSuggestion. simpl.
    split; [apply lookup_insert_eq|]. split.
    + intros k s Hk. simpl. destruct (decide (getSuggestionKey v = k)) as [<-|Hne].
      * unfold getSuggestion in Hc. congruence.
      * rewrite lookup_insert_ne by exact Hne. exact Hk.
    + intros Hw.
      assert (Hs : id (match res with
                       | Some s => s
                       | None => fallbackSuggestion v (getSuggestionKey v)
                       end) = getSuggestionKey v).
      { destruct res as [s|]; [apply Hid; reflexivity | reflexivity]. }
      split; [exact Hs|].
      intros k s Hk. simpl in Hk. destruct (decide (getSuggestionKey v = k)) as [<-|Hne].
      * rewrite lookup_insert_eq in Hk. injection Hk as <-. exact Hs.
      * rewrite lookup_insert_ne in Hk by exact Hne. apply Hw, Hk.
Qed.

Lemma gen_cons st v vs :
  generateSuggestionsWith contextStep synthesisStep st (v :: vs) =
  (let r := generateOne contextStep synthesisStep st v in
   let rs := generateSuggestionsWith contextStep synthesisStep (fst r) vs in
   (fst rs, snd r :: snd rs)).
Proof.
  simpl. destruct (generateOne contextStep synthesisStep st v) as [st1 s]. simpl.
  destruct (generateSuggestionsWith contextStep synthesisStep st1 vs) as [st2 ss].
  reflexivity.
Qed.

Lemma gen_app l1 : forall st l2,
  generateSuggestionsWith contextStep synthesisStep st (l1 ++ l2) =
  (let r1 := generateSuggestionsWith contextStep synthesisStep st l1 in
   let r2 := generateSuggestionsWith contextStep synthesisStep (fst r1) l2 in
   (fst r2, snd r1 ++ snd r2)).
Proof.
  induction l1 as [|v l1 IH]; intros st l2; cbv zeta.
  - simpl. destruct (generateSuggestionsWith contextStep synthesisStep st l2);
      reflexivity.
  - change ((v :: l1) ++ l2) with (v :: (l1 ++ l2)).
    rewrite !gen_cons. cbv zeta. rewrite IH. reflexivity.
Qed.

(** One suggestion per issue, each of them in the cache afterwards. *)
Lemma gen_spec l : forall st,
  let r := generateSuggestionsWith contextStep synthesisStep st l in
  length (snd r) = length l
  /\ Forall2 (fun v s => getSuggestion (fst r) (getSuggestionKey v) = Some s)
             l (snd r)
  /\ grows st (fst r)
  /\ (wellKeyed (suggestionCache st) ->
      Forall2 (fun v s => id s = getSuggestionKey v) l (snd r)
      /\ wellKeyed (suggestionCache (fst r))).
Proof.
  induction l as [|v l IH]; intros st; cbv zeta.
  - simpl. split; [reflexivity|]. split; [constructor|]. split; [apply grows_refl|].
    intros Hw. split; [constructor | exact Hw].
  - rewrite gen_cons. cbv zeta. simpl.
    pose proof (generateOne_spec st v) as (Hin & Hg & Hk).
    specialize (IH (fst (generateOne contextStep synthesisStep st v)))
      as (Hlen & Hall & Hg' & Hk').
    split; [now rewrite Hlen|]. split; [|split].
    + constructor; [|exact Hall]. apply Hg'. exact Hin.
    + eapply grows_trans; eassumption.
    + intros Hw. specialize (Hk Hw) as [Hid Hw1]. specialize (Hk' Hw1) as [Hids Hw2].
      split; [constructor; assumption | exact Hw2].
Qed.

End Generate.

(** A call whose issues are all cached changes nothing and runs neither
    step, whatever the steps are. *)
Lemma gen_all_cached {W : Type}
      (contextStep : VulnerabilityIssue -> W -> W * option string)
      (synthesisStep : VulnerabilityIssue -> string -> W -> W * option string)
      (st : State W) l out :
  Forall2 (fun v s => getSuggestion st (getSuggestionKey v) = Some s) l out ->
  generateSuggestionsWith contextStep synthesisStep st l = (st, out).
Proof.
  induction 1 as [|v s l out Hv _ IH]; [reflexivity|].
  rewrite gen_cons, (generateOne_hit _ _ st v s Hv). simpl. rewrite IH. reflexivity.
Qed.

Lemma sameTriples_cached {W : Type} (st : State W) l : forall l' out,
  sameTriples l l' = true ->
  Forall2 (fun v s => getSuggestion st (getSuggestionKey v) = Some s) l out ->
  Forall2 (fun v s => getSuggestion st (getSuggestionKey v) = Some s) l' out.
Proof.
  induction l as [|v l IH]; intros [|v' l'] out Hs Hall; simpl in Hs;
    try discriminate.
  - inversion Hall. constructor.
  - apply andb_true_iff in Hs as [Hv Hl]. inversion Hall as [|? s ? out' Hc Hrest]; subst.
    constructor; [|apply IH; assumption].
    rewrite <- (sameTriple_key v v' Hv). exact Hc.
Qed.

Lemma cached_is_found {W : Type} (st : State W) l out :
  Forall2 (fun v s => getSuggestion st (getSuggestionKey v) = Some s) l out ->
  Forall (fun v => is_Some (getSuggestion st (getSuggestionKey v))) l.
Proof. induction 1 as [|v s l0 out0 Hv _ IH]; constructor; eauto. Qed.

End SuggestionFacts.

Module SuggestionClaims.
Import JsString JsRegExp Runtime Types AISuggestionHandler Notions Examples
       SuggestionFacts SuggestionStats.

(** C7.  Let a first call process the issues [l] and a second call, made
    on the state the first one left, process issues [l'] with the same
    file names, line numbers and descriptions.  The second call returns
    the very suggestions of the first (hence the same ids and the same
    generated code) and leaves cache and world as they were, so neither
    context retrieval nor synthesis ran; this holds whatever steps the
    second call is given.  The key is the file name, the line number and
    the hash of the description joined by colons; it depends on nothing
    else, and from a well-keyed cache each suggestion's id is its key. *)
Theorem second_generation_is_served_from_cache
        {W : Type}
        (contextStep contextStep' : VulnerabilityIssue -> W -> W * option string)
        (synthesisStep synthesisStep' : VulnerabilityIssue -> string -> W -> W * option string)
        (st : State W) (l l' : list VulnerabilityIssue) :
  sameTriples l l' = true ->
  let first := generateSuggestionsWith contextStep synthesisStep st l in
  let second := generateSuggestionsWith contextStep' synthesisStep' (fst first) l' in
  snd second = snd first
  /\ fst second = fst first
  /\ Forall2 (fun v' s => getSuggestion (fst first) (getSuggestionKey v') = Some s)
             l' (snd first)
  /\ (wellKeyed (suggestionCache st) ->
      Forall2 (fun v' s => id s = getSuggestionKey v') l' (snd second))
  /\ (forall v, getSuggestionKey v
                = fileName v +:+ ":" +:+ ofNat (lineNumber v) +:+ ":"
                  +:+ hashString (description v))
  /\ (forall v v', sameTriple v v' = true -> getSuggestionKey v = getSuggestionKey v').
Proof.
  intros Hsame first second.
  pose proof (gen_spec contextStep synthesisStep l st) as (_ & Hall & _ & Hkeys).
  fold first in Hall, Hkeys.
  pose proof (sameTriples_cached (fst first) l l' (snd first) Hsame Hall) as Hall'.
  pose proof (gen_all_cached contextStep' synthesisStep' (fst first) l' (snd first) Hall')
    as Hsecond.
  fold second in Hsecond. rewrite Hsecond. simpl.
  split; [reflexivity|]. split; [reflexivity|]. split; [exact Hall'|].
  split; [|split; [reflexivity | exact sameTriple_key]].
  intros Hw. specialize (Hkeys Hw) as [Hids _].
  clear - Hsame Hids. revert l' Hsame Hids. generalize (snd first) as out.
  induction l as [|v l IH]; intros out [|v' l'] Hsame Hids; simpl in Hsame;
    try discriminate.
  - inversion Hids. constructor.
  - apply andb_true_iff in Hsame as [Hv Hl].
    inversion Hids as [|? s ? out' Hid Hrest]; subst.
    constructor; [|apply IH; assumption].
    rewrite <- (sameTriple_key v v' Hv). exact Hid.
Qed.

Lemma second_generation_is_served_from_cache_witness :
  let first := generateSuggestionsWith countingContext countingSynthesis
                                       emptyState [issueA] in
  let second := generateSuggestionsWith failingContext countingSynthesis
                                        (fst first) [issueA'] in
  snd second = snd first /\ fst second = fst first.
Proof.
  exact (let H := second_generation_is_served_from_cache
                    countingContext failingContext countingSynthesis countingSynthesis
                    emptyState [issueA] [issueA'] eq_refl in
         conj (proj1 H) (proj1 (proj2 H))).
Defined.

(** The [catch] of one round: when an issue is not cached at its turn
    and a step throws, the throw stays inside; the suggestion returned at
    its position is the fallback, and the cache holds it under the key. *)
Lemma a_throwing_step_gives_the_fallback
      {W : Type}
      (contextStep : VulnerabilityIssue -> W -> W * option string)
      (synthesisStep : VulnerabilityIssue -> string -> W -> W * option string)
      (st : State W) (pre post : list VulnerabilityIssue) (v : VulnerabilityIssue) :
  let result := generateSuggestionsWith contextStep synthesisStep st (pre ++ v :: post) in
  let before := fst (generateSuggestionsWith contextStep synthesisStep st pre) in
  let key := getSuggestionKey v in
  getSuggestion before key = None ->
  snd (tryGenerate contextStep synthesisStep v key (world before)) = None ->
  nth_error (snd result) (length pre) = Some (fallbackSuggestion v key)
  /\ getSuggestion (fst result) key = Some (fallbackSuggestion v key)
  /\ aiGeneratedCode (fallbackSuggestion v key)
     = "// Suggestion unavailable" +:+ nl +:+ "// Please manually fix: "
       +:+ suggestedFix v.
Proof.
  intros result before key Hmiss Hthrow. subst result.
  rewrite gen_app. cbv zeta. rewrite gen_cons. cbv zeta. fold before. simpl.
  pose proof (gen_spec contextStep synthesisStep pre st) as (Hpre & _ & _ & _).
  cbv zeta in Hpre. fold before in Hpre.
  rewrite (generateOne_miss contextStep synthesisStep before v Hmiss).
  cbv zeta. fold key. rewrite Hthrow. simpl.
  split; [|split; [|reflexivity]].
  - rewrite nth_error_app2 by lia. rewrite Hpre, Nat.sub_diag. reflexivity.
  - match goal with
    | |- getSuggestion (fst (generateSuggestionsWith _ _ ?s post)) key = _ =>
        pose proof (gen_spec contextStep synthesisStep post s) as (_ & _ & Hg & _);
        apply Hg; simpl; apply lookup_insert_eq
    end.
Qed.

Lemma a_throwing_step_gives_the_fallback_example :
  nth_error (snd (generateSuggestionsWith failingContext countingSynthesis
                                          emptyState [issueA])) 0
  = Some (fallbackSuggestion issueA (getSuggestionKey issueA)).
Proof.
  exact (proj1 (a_throwing_step_gives_the_fallback
                  failingContext countingSynthesis emptyState [] [] issueA
                  eq_refl eq_refl)).
Qed.

(** The steps of the source never throw: an issue that is not cached at
    its turn gets what the [try] builds. *)
Lemma source_generateOne_miss (st : State Editor) (v : VulnerabilityIssue) :
  getSuggestion st (getSuggestionKey v) = None ->
  generateOne (fun v ed => (ed, Some (getCodeContext v ed)))
              (fun v originalCode ed =>
                 (ed, Some (generateRuleBasedSuggestion v originalCode)))
              st v
  = (mkState (<[ getSuggestionKey v := generatedFor (world st) v ]> (suggestionCache st))
             (world st),
     generatedFor (world st) v).
Proof. intros H. rewrite generateOne_miss by exact H. reflexivity. Qed.

(** A suggestion built in the [try] is never the one of the [catch]:
    if the code contexts agree, the generated codes differ. *)
Lemma generated_is_not_fallback (ed : Editor) (v v' : VulnerabilityIssue) (key : string) :
  generatedFor ed v <> fallbackSuggestion v' key.
Proof.
  unfold generatedFor, generated, fallbackSuggestion. intros H.
  injection H as _ _ _ Hai _ _ Hctx. rewrite Hctx in Hai. clear Hctx.
  unfold generateRuleBasedSuggestion in Hai.
  assert (Hsql : snd (replace "Unable to retrieve original code" statementPattern
                        ("PreparedStatement pstmt = connection.prepareStatement(sql);"
                         +:+ nl
                         +:+ "// Set parameters using pstmt.setString(), pstmt.setInt(), etc."
                         +:+ nl +:+ "ResultSet rs = pstmt.executeQuery();"))
                 = "Unable to retrieve original code") by (vm_compute; reflexivity).
  assert (Hlog : snd (replace "Unable to retrieve original code" logCallPattern
                        ("log.$1(" +:+ dq +:+ "Sanitized log message without sensitive data"
                         +:+ dq +:+ ");"))
                 = "Unable to retrieve original code") by (vm_compute; reflexivity).
  unfold statementPattern in Hsql. unfold logCallPattern in Hlog.
  destruct (includes (toLowerCase (description v)) "sql injection").
  { rewrite Hsql in Hai. discriminate Hai. }
  destruct (includes (toLowerCase (description v)) "hardcoded").
  { discriminate Hai. }
  destruct (includes (toLowerCase (description v)) "logging").
  { rewrite Hlog in Hai. discriminate Hai. }
  discriminate Hai.
Qed.

Lemma Forall2_both {A B : Type} (P Q : A -> B -> Prop) (l : list A) (k : list B) :
  Forall2 P l k -> Forall2 Q l k -> Forall2 (fun a b => P a b /\ Q a b) l k.
Proof.
  induction 1 as [|a b l k Hp _ IH]; intros Hq; inversion Hq; subst; constructor; auto.
Qed.

Lemma find_key_cons (v u : VulnerabilityIssue) (l : list VulnerabilityIssue) :
  find (fun w => String.eqb (getSuggestionKey w) (getSuggestionKey u)) (v :: l)
  = if String.eqb (getSuggestionKey v) (getSuggestionKey u) then Some v
    else find (fun w => String.eqb (getSuggestionKey w) (getSuggestionKey u)) l.
Proof. reflexivity. Qed.

(** Where each suggestion of a call comes from: the cache as it was
    before the call, or the [try] run for the first issue of the list
    filed under the same key. *)
Lemma generateSuggestions_origin (l : list VulnerabilityIssue) : forall st : State Editor,
  let result := generateSuggestions st l in
  world (fst result) = world st
  /\ Forall2 (fun v s =>
        match getSuggestion st (getSuggestionKey v) with
        | Some cached => s = cached
        | None =>
            exists first,
              find (fun u => String.eqb (getSuggestionKey u) (getSuggestionKey v)) l
              = Some first
              /\ s = generatedFor (world st) first
        end) l (snd result).
Proof.
  unfold generateSuggestions.
  induction l as [|v l IH]; intros st; cbv zeta; [split; [reflexivity | constructor]|].
  rewrite gen_cons. cbv zeta. cbn [fst snd].
  destruct (getSuggestion st (getSuggestionKey v)) as [c|] eqn:Hc.
  - rewrite (generateOne_hit _ _ st v c Hc). cbn [fst snd].
    destruct (IH st) as [Hw Hall]. split; [exact Hw|].
    constructor; [rewrite Hc; reflexivity|].
    eapply Forall2_impl; [exact Hall|]. intros u s Hu. cbv beta in *.
    destruct (getSuggestion st (getSuggestionKey u)) as [cu|] eqn:Hcu; [exact Hu|].
    destruct Hu as (first & Hfind & ->). exists first. split; [|reflexivity].
    rewrite find_key_cons.
    destruct (String.eqb (getSuggestionKey v) (getSuggestionKey u)) eqn:E;
      [|exact Hfind].
    apply String.eqb_eq in E. congruence.
  - rewrite (source_generateOne_miss st v Hc). cbn [fst snd].
    set (st1 := mkState _ _).
    destruct (IH st1) as [Hw Hall]. split; [exact Hw|].
    constructor.
    + rewrite Hc. exists v. split; [|reflexivity].
      rewrite find_key_cons, String.eqb_refl. reflexivity.
    + eapply Forall2_impl; [exact Hall|]. intros u s Hu. cbv beta in *.
      rewrite find_key_cons.
      destruct (String.eqb (getSuggestionKey v) (getSuggestionKey u)) eqn:E.
      * apply String.eqb_eq in E.
        assert (Hu1 : getSuggestion st1 (getSuggestionKey u)
                      = Some (generatedFor (world st) v)).
        { unfold getSuggestion, st1. cbn [suggestionCache]. rewrite <- E.
          apply lookup_insert_eq. }
        rewrite Hu1 in Hu. rewrite <- E, Hc. exists v. split; [reflexivity | exact Hu].
      * apply String.eqb_neq in E.
        assert (Hu1 : getSuggestion st1 (getSuggestionKey u)
                      = getSuggestion st (getSuggestionKey u)).
        { unfold getSuggestion, st1. cbn [suggestionCache].
          apply lookup_insert_ne. exact E. }
        rewrite Hu1 in Hu. exact Hu.
Qed.

(** C8 (amended).  [generateSuggestions] returns one suggestion per
    issue, in order, and each of them is in the cache under the key of
    its issue when the call ends; the editor is left as it was.  An
    issue whose key was cached before the call gets the cached
    suggestion.  Every other issue gets what the [try] builds for the
    first issue of the list filed under its key: the code context of
    that issue, and the code the rules generate from it.  Such a
    suggestion is never the fallback, since neither step of the [try]
    throws: when no editor is open, or the editor throws, the failure is
    answered inside [getCodeContext], and the suggestion is built from
    the text [Unable to retrieve code context]. *)
Theorem every_issue_gets_a_suggestion (st : State Editor) (l : list VulnerabilityIssue) :
  let result := generateSuggestions st l in
  length (snd result) = length l
  /\ world (fst result) = world st
  /\ Forall2 (fun v s =>
        getSuggestion (fst result) (getSuggestionKey v) = Some s
        /\ match getSuggestion st (getSuggestionKey v) with
           | Some cached => s = cached
           | None =>
               exists first,
                 find (fun u => String.eqb (getSuggestionKey u) (getSuggestionKey v)) l
                 = Some first
                 /\ s = (let originalCode := getCodeContext first (world st) in
                         generated first (getSuggestionKey first) originalCode
                                   (generateRuleBasedSuggestion first originalCode))
                 /\ (forall v' key, s <> fallbackSuggestion v' key)
                 /\ (world st = NoEditor \/ world st = EditorThrows ->
                     originalCode s = "Unable to retrieve code context")
           end) l (snd result).
Proof.
  cbv zeta.
  pose proof (gen_spec _ _ l st : let r := generateSuggestions st l in _)
    as (Hlen & Hcached & _ & _).
  destruct (generateSuggestions_origin l st) as [Hw Hall].
  split; [exact Hlen|]. split; [exact Hw|].
  eapply Forall2_impl; [exact (Forall2_both _ _ _ _ Hcached Hall)|].
  cbv beta. intros v s [Hc Hs]. split; [exact Hc|].
  destruct (getSuggestion st (getSuggestionKey v)); [exact Hs|].
  destruct Hs as (first & Hfind & ->). exists first.
  split; [exact Hfind|]. split; [reflexivity|]. split.
  - intros v' key. apply generated_is_not_fallback.
  - intros [E|E]; unfold generatedFor; cbn [originalCode generated]; rewrite E;
      reflexivity.
Qed.

(** With no editor open the code context cannot be retrieved; the
    suggestion returned and cached for the issue is then not the
    fallback: its generated code is the error text of [getCodeContext],
    not the comment followed by the suggested fix. *)
Lemma context_failure_is_not_answered_with_the_fallback :
  getCodeContext sqlIssue (world noEditor) = "Unable to retrieve code context"
  /\ (exists s,
        snd (generateSuggestions noEditor [sqlIssue]) = [s]
        /\ getSuggestion (fst (generateSuggestions noEditor [sqlIssue]))
                         (getSuggestionKey sqlIssue) = Some s
        /\ aiGeneratedCode s = "Unable to retrieve code context"
        /\ originalCode s = "Unable to retrieve code context")
  /\ aiGeneratedCode (fallbackSuggestion sqlIssue (getSuggestionKey sqlIssue))
     = "// Suggestion unavailable" +:+ nl
       +:+ "// Please manually fix: Use a prepared statement"
  /\ snd (generateSuggestions noEditor [sqlIssue])
     <> [fallbackSuggestion sqlIssue (getSuggestionKey sqlIssue)].
Proof.
  split; [reflexivity|]. split; [|split].
  - eexists. split; [vm_compute; reflexivity|].
    split_and!; vm_compute; reflexivity.
  - vm_compute. reflexivity.
  - vm_compute. discriminate.
Qed.

(** The steps of the source never throw, so there every suggestion of an
    issue that was not cached is a generated one. *)
Lemma generateSuggestions_length (st : State Editor) l :
  length (snd (generateSuggestions st l)) = length l.
Proof. apply (gen_spec _ _ l st). Qed.

(** The steps of the source on [openDocument]: the context is the line
    of the issue, the description of the issue selects the logging
    template, and the suggestion is cached under the key of the issue. *)
Lemma generateSuggestions_example :
  hashString "abc" = "96354"
  /\ getSuggestionKey loggingIssue = "Account.java:3:1490100483"
  /\ snd (generateSuggestions openDocument [loggingIssue; loggingIssue])
     = (let s :=
          mkSuggestion "Account.java:3:1490100483"
            (description loggingIssue)
            "Review and remove the keyword."
            ("    log.info(" +:+ dq +:+ "Sanitized log message without sensitive data"
             +:+ dq +:+ ");;")
            3 "Account.java" "    log.info(user.password);" in
        [s; s]).
Proof. repeat split; vm_compute; reflexivity. Qed.

(** C9.  After a call has filled the cache, every issue it processed is
    found under its key; once the cache is cleared no suggestion id is
    found any more, the world is as it was, and the next request for an
    issue is computed afresh, not answered with the object cached before. *)
Theorem cleared_cache_forgets
        {W : Type}
        (contextStep : VulnerabilityIssue -> W -> W * option string)
        (synthesisStep : VulnerabilityIssue -> string -> W -> W * option string)
        (st : State W) (l : list VulnerabilityIssue) :
  let filled := fst (generateSuggestionsWith contextStep synthesisStep st l) in
  Forall (fun v => is_Some (getSuggestion filled (getSuggestionKey v))) l
  /\ (forall suggestionId, getSuggestion (clearCache filled) suggestionId = None)
  /\ world (clearCache filled) = world filled
  /\ (forall v,
         let key := getSuggestionKey v in
         let r := tryGenerate contextStep synthesisStep v key (world filled) in
         snd (generateOne contextStep synthesisStep (clearCache filled) v)
         = match snd r with Some s => s | None => fallbackSuggestion v key end).
Proof.
  intros filled.
  pose proof (gen_spec contextStep synthesisStep l st) as (_ & Hall & _ & _).
  fold filled in Hall.
  split; [|split; [|split]].
  - exact (cached_is_found filled l _ Hall).
  - intros suggestionId. unfold getSuggestion, clearCache. simpl. apply lookup_empty.
  - reflexivity.
  - intros v key r.
    rewrite (generateOne_miss contextStep synthesisStep (clearCache filled) v)
      by (unfold getSuggestion, clearCache; simpl; apply lookup_empty).
    reflexivity.
Qed.

End SuggestionClaims.


(* ===================================================================== *)
(** * Further properties *)
(* ===================================================================== *)

(** ** How much a pattern consumes *)

Module MeasureFacts.
Import JsString JsRegExp Runtime Notions JsRegExpFacts Measure.

Lemma rounds_step max min :
  rounds max min <= S (rounds (decMax max) (Nat.pred min)).
Proof. destruct max as [mx|]; simpl; lia. Qed.

Lemma repeatMatcher_consuming m gs greedy n1 :
  consuming n1 m ->
  forall fuel min max,
    consuming (rounds max min * n1)
              (fun k => repeatMatcher m gs greedy k fuel min max).
Proof.
  intros Hm fuel. induction fuel as [|f IH]; intros min max x k k' Hk;
    rewrite !repeatMatcher_eq.
  - assert (Hd : m (roundCont m gs greedy k 0 min max x) (clearCaps gs x)
                 = m (roundCont m gs greedy k' 0 min max x) (clearCaps gs x)).
    { apply Hm. intros y Hy. unfold roundCont.
      destruct (Nat.eqb min 0 && Nat.eqb (length (rest y)) (length (rest x)));
        reflexivity. }
    destruct max as [[|mx]|]; cbv zeta.
    + apply Hk. simpl. rewrite Nat.min_0_r. simpl. lia.
    + destruct (Nat.eqb min 0) eqn:Hmin; simpl; [|exact Hd].
      apply Nat.eqb_eq in Hmin. subst min.
      rewrite Hd, (Hk x) by (simpl; lia). reflexivity.
    + destruct (Nat.eqb min 0) eqn:Hmin; simpl; [|exact Hd].
      apply Nat.eqb_eq in Hmin. subst min.
      rewrite Hd, (Hk x) by (simpl; lia). reflexivity.
  - assert (Hd : m (roundCont m gs greedy k (S f) min max x) (clearCaps gs x)
                 = m (roundCont m gs greedy k' (S f) min max x) (clearCaps gs x)).
    { apply Hm. intros y Hy. simpl in Hy. unfold roundCont.
      destruct (Nat.eqb min 0 && Nat.eqb (length (rest y)) (length (rest x)));
        [reflexivity|].
      apply IH. intros z Hz. apply Hk.
      pose proof (rounds_step max min) as Hr.
      assert (rounds max min * n1 <= rounds (decMax max) (Nat.pred min) * n1 + n1)
        by nia.
      lia. }
    destruct max as [[|mx]|]; cbv zeta.
    + apply Hk. simpl. rewrite Nat.min_0_r. simpl. lia.
    + destruct (Nat.eqb min 0) eqn:Hmin; simpl; [|exact Hd].
      apply Nat.eqb_eq in Hmin. subst min.
      rewrite Hd, (Hk x) by (simpl; lia). reflexivity.
    + destruct (Nat.eqb min 0) eqn:Hmin; simpl; [|exact Hd].
      apply Nat.eqb_eq in Hmin. subst min.
      rewrite Hd, (Hk x) by (simpl; lia). reflexivity.
Qed.

Lemma rmatch_consuming ic r : consuming (minLen r) (rmatch ic r).
Proof.
  induction r as [| | inv atoms | | | inv | r1 IH1 r2 IH2 | r1 IH1 r2 IH2
                  | min max greedy r1 IH1 | i r1 IH1]; intros x k k' Hk; simpl.
  - apply Hk; simpl; lia.
  - destruct (rest x) as [|c s'] eqn:Hx; [reflexivity|].
    destruct (isLineTerminator c); [reflexivity|].
    apply Hk. rewrite ?Hx. simpl. lia.
  - destruct (rest x) as [|c s'] eqn:Hx; [reflexivity|].
    destruct (xorb inv (inSet ic atoms c)); [|reflexivity].
    apply Hk. rewrite ?Hx. simpl. lia.
  - destruct (prev x); [reflexivity|]. apply Hk; simpl; lia.
  - destruct (rest x) eqn:Hx; [|reflexivity]. apply Hk. rewrite Hx. simpl. lia.
  - destruct (xorb inv (atWordBoundary x)); [|reflexivity]. apply Hk; simpl; lia.
  - apply IH1. intros y Hy. apply IH2. intros z Hz. apply Hk. simpl. lia.
  - rewrite (IH1 x k k'), (IH2 x k k'); [reflexivity | |];
      intros y Hy; apply Hk; simpl; lia.
  - apply (repeatMatcher_consuming _ _ _ _ IH1). exact Hk.
  - apply IH1. intros y Hy. apply Hk. simpl. exact Hy.
Qed.

Lemma repeatMatcher_answers m gs greedy :
  answersFromContinuation m ->
  forall fuel min max,
    answersFromContinuation (fun k => repeatMatcher m gs greedy k fuel min max).
Proof.
  intros Hm fuel. induction fuel as [|f IH]; intros min max x k res H;
    rewrite repeatMatcher_eq in H.
  - assert (Hd : m (roundCont m gs greedy k 0 min max x) (clearCaps gs x) = Some res
                 -> exists y, k y = Some res).
    { intros Hr. apply Hm in Hr as (y & Hy). unfold roundCont in Hy.
      destruct (Nat.eqb min 0 && Nat.eqb (length (rest y)) (length (rest x)));
        discriminate. }
    destruct max as [[|mx]|]; cbv zeta in H; eauto;
      (destruct (negb (Nat.eqb min 0)); [auto|];
       destruct greedy; unfold orElseM in H;
       [ destruct (m _ (clearCaps gs x)) eqn:Hr; [injection H as ->; auto | eauto]
       | destruct (k x) eqn:Hr; [injection H as ->; eauto | auto] ]).
  - assert (Hd : m (roundCont m gs greedy k (S f) min max x) (clearCaps gs x) = Some res
                 -> exists y, k y = Some res).
    { intros Hr. apply Hm in Hr as (y & Hy). unfold roundCont in Hy.
      destruct (Nat.eqb min 0 && Nat.eqb (length (rest y)) (length (rest x)));
        [discriminate|].
      eapply IH. exact Hy. }
    destruct max as [[|mx]|]; cbv zeta in H; eauto;
      (destruct (negb (Nat.eqb min 0)); [auto|];
       destruct greedy; unfold orElseM in H;
       [ destruct (m _ (clearCaps gs x)) eqn:Hr; [injection H as ->; auto | eauto]
       | destruct (k x) eqn:Hr; [injection H as ->; eauto | auto] ]).
Qed.

Lemma rmatch_answers ic r : answersFromContinuation (rmatch ic r).
Proof.
  induction r as [| | inv atoms | | | inv | r1 IH1 r2 IH2 | r1 IH1 r2 IH2
                  | min max greedy r1 IH1 | i r1 IH1]; intros x k res H; simpl in H.
  - eauto.
  - destruct (rest x) as [|c s']; [discriminate|].
    destruct (isLineTerminator c); [discriminate | eauto].
  - destruct (rest x) as [|c s']; [discriminate|].
    destruct (xorb inv (inSet ic atoms c)); [eauto | discriminate].
  - destruct (prev x); [discriminate | eauto].
  - destruct (rest x); [eauto | discriminate].
  - destruct (xorb inv (atWordBoundary x)); [eauto | discriminate].
  - apply IH1 in H as (y & Hy). apply IH2 in Hy. exact Hy.
  - unfold orElseM in H. destruct (rmatch ic r1 k x) eqn:H1.
    + injection H as ->. eapply IH1. exact H1.
    + eapply IH2. exact H.
  - eapply (repeatMatcher_answers _ _ _ IH1). exact H.
  - apply IH1 in H as (y & Hy). eauto.
Qed.

(** A match of [r] is at least [minLen r] long. *)
Lemma rmatch_consumes ic r x res :
  rmatch ic r Some x = Some res ->
  length (rest res) + minLen r <= length (rest x).
Proof.
  intros H.
  rewrite (rmatch_consuming ic r x Some
             (fun y => if Nat.leb (length (rest y) + minLen r) (length (rest x))
                       then Some y else None)) in H.
  - apply rmatch_answers in H as (y & Hy).
    destruct (Nat.leb (length (rest y) + minLen r) (length (rest x))) eqn:Hle;
      [|discriminate].
    injection Hy as <-. apply Nat.leb_le. exact Hle.
  - intros y Hy. apply Nat.leb_le in Hy. rewrite Hy. reflexivity.
Qed.

(** What a successful search found, and where. *)
Lemma searchFrom_found ic r : forall s p i j st st',
  searchFrom ic r p s i = Some (j, st, st') ->
  rmatch ic r Some st = Some st'
  /\ caps st = []
  /\ seek (j - i) p s = Some (prev st, rest st)
  /\ i <= j.
Proof.
  induction s as [|c s IH]; intros p i j st st' H; simpl in H.
  - destruct (rmatch ic r Some (MState p [] [])) eqn:Hm; [|discriminate].
    injection H as <- <- <-. rewrite Nat.sub_diag. simpl. auto.
  - destruct (rmatch ic r Some (MState p (c :: s) [])) eqn:Hm.
    + injection H as <- <- <-. rewrite Nat.sub_diag. simpl. auto.
    + apply IH in H as (H1 & H2 & H3 & H4).
      replace (j - i) with (S (j - S i)) by lia. simpl. repeat split; auto. lia.
Qed.

Lemma seek_add a : forall b p s p1 s1 p2 s2,
  seek a p s = Some (p1, s1) -> seek b p1 s1 = Some (p2, s2) ->
  seek (a + b) p s = Some (p2, s2).
Proof.
  induction a as [|a IH]; intros b p s p1 s1 p2 s2 H1 H2; simpl in *.
  - injection H1 as <- <-. exact H2.
  - destruct s as [|c s]; [discriminate|]. eapply IH; eassumption.
Qed.

(** A search that starts where a match begins finds that match. *)
Lemma searchFrom_at ic r st st' i :
  rmatch ic r Some st = Some st' -> caps st = [] ->
  searchFrom ic r (prev st) (rest st) i = Some (i, st, st').
Proof.
  intros Hm Hc. destruct st as [p s c]. simpl in *. subst c.
  destruct s; simpl; rewrite Hm; reflexivity.
Qed.

(** [exec] only ever writes [lastIndex]. *)
Lemma exec_fst R l : exists n, fst (exec R l) = setLastIndex R n.
Proof.
  unfold exec. destruct R as [src g ic li]. simpl.
  destruct g; simpl.
  - destruct (seek li None (chars l)) as [[p s]|]; [|exists 0; reflexivity].
    destruct (searchFrom ic src p s li) as [[[i st] st']|]; eexists; reflexivity.
  - exists li.
    destruct (searchFrom ic src None (chars l) 0) as [[[i st] st']|]; reflexivity.
Qed.

(** A pattern that cannot match the empty string never reports an empty
    match. *)
Lemma exec_matched_nonempty R l R' mr :
  1 <= minLen (source R) -> exec R l = (R', Some mr) ->
  1 <= String.length (matched mr).
Proof.
  intros Hmin H. unfold exec in H.
  destruct (seek (if global R then lastIndex R else 0) None (chars l))
    as [[p s]|]; [|discriminate].
  destruct (searchFrom (ignoreCase R) (source R) p s _) as [[[i st] st']|] eqn:Hf;
    [|discriminate].
  injection H as _ <-. simpl.
  apply searchFrom_found in Hf as (Hm & _).
  apply rmatch_consumes in Hm.
  rewrite <- length_chars. unfold chars, ofChars, consumed.
  rewrite list_ascii_of_string_of_list_ascii, length_firstn. lia.
Qed.

(** After an empty match a global pattern finds the same match again. *)
Lemma exec_empty_again R l R1 mr :
  global R = true -> exec R l = (R1, Some mr) -> matched mr = EmptyString ->
  exec R1 l = (R1, Some mr).
Proof.
  intros Hg H Hempty. unfold exec in H. rewrite Hg in H.
  destruct (seek (lastIndex R) None (chars l)) as [[p s]|] eqn:Hs; [|discriminate].
  destruct (searchFrom (ignoreCase R) (source R) p s (lastIndex R))
    as [[[i st] st']|] eqn:Hf; [|discriminate].
  injection H as <- <-. simpl in Hempty.
  apply ofChars_nil_inv in Hempty.
  apply searchFrom_found in Hf as (Hm & Hc & Hk & Hle).
  pose proof (seek_add _ _ _ _ _ _ _ _ Hs Hk) as Hseek.
  replace (lastIndex R + (i - lastIndex R)) with i in Hseek by lia.
  unfold exec. simpl. rewrite Hg, Hempty. simpl. rewrite Nat.add_0_r.
  rewrite Hseek, (searchFrom_at _ _ st st' i Hm Hc). rewrite Hempty. simpl.
  rewrite Nat.add_0_r. reflexivity.
Qed.

End MeasureFacts.


(** ** applyRules: termination, matches and order *)

Module ApplyRulesFacts.
Import JsString JsRegExp Runtime RuleEngine Notions Examples MoreExamples
       JsRegExpFacts Measure MeasureFacts RuleEngineFacts.

Lemma exec_none_reset R l R' :
  global R = true -> exec R l = (R', None) -> R' = setLastIndex R 0.
Proof.
  intros Hg H. unfold exec in H. rewrite Hg in H.
  destruct (seek (lastIndex R) None (chars l)) as [[p s]|].
  - destruct (searchFrom (ignoreCase R) (source R) p s (lastIndex R))
      as [[[i st] st']|]; [discriminate|]. now injection H as <-.
  - now injection H as <-.
Qed.

Lemma exec_some_shape R l R' mr :
  exec R l = (R', Some mr) -> exists n, R' = setLastIndex R n.
Proof.
  intros H. destruct (exec_fst R l) as (n & Hn). rewrite H in Hn. eauto.
Qed.

(** An empty match stops the loop from ever ending. *)
Lemma execLoop_empty_diverges R l R1 mr :
  exec R l = (R1, Some mr) -> matched mr = EmptyString ->
  forall fuel, execLoop fuel R l = Diverges.
Proof.
  intros H Hempty fuel.
  assert (Hfirst : forall f, execLoop f R l = Diverges
                             \/ (global R = true /\ f <> 0
                                 /\ execLoop f R l
                                    = obind (execLoop (Nat.pred f) R1 l)
                                        (fun '(Rf, ms) => Returns (Rf, mr :: ms)))).
  { intros f. destruct f; simpl; rewrite H.
    - destruct (Nat.leb (lastIndex R1) (lastIndex R)); auto.
    - destruct (Nat.leb (lastIndex R1) (lastIndex R)) eqn:Hleb; [auto|].
      right. apply Nat.leb_gt in Hleb.
      destruct (global R) eqn:Hg; [auto|].
      pose proof (exec_not_global R l Hg) as Hn. rewrite H in Hn. simpl in Hn.
      subst R1. lia. }
  destruct (Hfirst fuel) as [Hd|(Hg & Hf & Hstep)]; [exact Hd|].
  rewrite Hstep.
  pose proof (exec_empty_again R l R1 mr Hg H Hempty) as Hagain.
  destruct (Nat.pred fuel); simpl; rewrite Hagain, Nat.leb_refl; reflexivity.
Qed.

Lemma execLoop_matches_nonempty fuel : forall R l R' ms,
  execLoop fuel R l = Returns (R', ms) ->
  Forall (fun mr => matched mr <> EmptyString) ms.
Proof.
  induction fuel as [|f IH]; intros R l R' ms H.
  - simpl in H. destruct (exec R l) as [R1 [mr|]] eqn:He.
    + destruct (Nat.leb (lastIndex R1) (lastIndex R)); discriminate.
    + injection H as _ <-. constructor.
  - destruct (exec R l) as [R1 [mr|]] eqn:He.
    + destruct (string_dec (matched mr) EmptyString) as [Hempty|Hne].
      * rewrite (execLoop_empty_diverges R l R1 mr He Hempty) in H. discriminate.
      * simpl in H. rewrite He in H.
        destruct (Nat.leb (lastIndex R1) (lastIndex R)); [discriminate|].
        apply obind_returns in H as ([Rf ms'] & Hrec & Hret).
        injection Hret as _ <-. constructor; [exact Hne | eapply IH; exact Hrec].
    + simpl in H. rewrite He in H. injection H as _ <-. constructor.
Qed.

(** When the loop ends the pattern is back at [lastIndex] 0. *)
Lemma execLoop_reset fuel : forall R l R' ms,
  global R = true -> execLoop fuel R l = Returns (R', ms) -> R' = setLastIndex R 0.
Proof.
  induction fuel as [|f IH]; intros R l R' ms Hg H; simpl in H;
    destruct (exec R l) as [R1 [mr|]] eqn:He.
  - destruct (Nat.leb (lastIndex R1) (lastIndex R)); discriminate.
  - injection H as <- _. eapply exec_none_reset; eassumption.
  - destruct (Nat.leb (lastIndex R1) (lastIndex R)); [discriminate|].
    apply obind_returns in H as ([Rf ms'] & Hrec & Hret). injection Hret as <- _.
    apply exec_some_shape in He as (n & ->).
    apply IH in Hrec; [|exact Hg]. rewrite Hrec. reflexivity.
  - injection H as <- _. eapply exec_none_reset; eassumption.
Qed.

(** A pattern that cannot match the empty string lets the loop end. *)
Lemma execLoop_returns fuel : forall R l,
  global R = true -> 1 <= minLen (source R) ->
  String.length l < fuel + lastIndex R ->
  exists ms, execLoop fuel R l = Returns (setLastIndex R 0, ms).
Proof.
  induction fuel as [|f IH]; intros R l Hg Hmin Hf.
  - pose proof (exec_past_end R l Hg ltac:(lia)) as Hn.
    simpl. destruct (exec R l) as [R1 [mr|]] eqn:He; simpl in Hn; [discriminate|].
    apply exec_none_reset in He; [|exact Hg]. subst R1. eauto.
  - simpl. destruct (exec R l) as [R1 [mr|]] eqn:He.
    + pose proof (exec_matched_nonempty R l R1 mr Hmin He) as Hlen.
      pose proof (exec_some_global R l R1 mr Hg He) as (Hi & Hl & Hb & Hg1).
      destruct (Nat.leb (lastIndex R1) (lastIndex R)) eqn:Hleb;
        [apply Nat.leb_le in Hleb; lia|].
      apply exec_some_shape in He as (n & ->).
      destruct (IH (setLastIndex R n) l Hg1 Hmin ltac:(simpl in *; lia)) as (ms & Hms).
      rewrite Hms. simpl. eauto.
    + apply exec_none_reset in He; [|exact Hg]. subst R1. eauto.
Qed.

Section WithCompile.
Variable compile : string -> option regex.

Lemma scanLines_returns rule r lines : forall index,
  1 <= minLen r ->
  exists found, scanLines rule (mkRegExp r true true 0) lines index = Returns found.
Proof.
  induction lines as [|l lines IH]; intros index Hmin; cbn [scanLines]; [eauto|].
  destruct (execLoop_returns (S (String.length l)) (mkRegExp r true true 0) l
                             eq_refl Hmin ltac:(simpl; lia)) as (ms & Hms).
  rewrite Hms. simpl. destruct (IH (S index) Hmin) as (more & Hmore).
  unfold setLastIndex. simpl. rewrite Hmore. simpl. eauto.
Qed.

Lemma applyRulesTo_returns rs code :
  forallb (productive compile) rs = true ->
  exists found, applyRulesTo compile rs code = Returns found.
Proof.
  induction rs as [|rule rs IH]; intros H; simpl; [eauto|].
  simpl in H. apply andb_true_iff in H as [Hrule Hrest].
  destruct (IH Hrest) as (more & Hmore).
  unfold productive in Hrule. destruct (patternOf rule) as [p|]; [|eauto].
  destruct (compile p) as [r|]; [|discriminate].
  apply Nat.leb_le in Hrule.
  destruct (scanLines_returns rule r (splitLines code) 0 Hrule) as (found & Hfound).
  rewrite Hfound, Hmore. simpl. eauto.
Qed.

(** A line on which the pattern finds an empty match keeps the scan of a
    rule from returning. *)
Lemma scanLines_empty_match rule r lines : forall index l mr,
  In l lines ->
  snd (exec (mkRegExp r true true 0) l) = Some mr -> matched mr = EmptyString ->
  forall found, scanLines rule (mkRegExp r true true 0) lines index <> Returns found.
Proof.
  induction lines as [|l0 lines IH]; intros index l mr Hin He Hempty found H;
    [destruct Hin|].
  cbn [scanLines] in H. apply obind_returns in H as ([R' ms] & Hloop & H).
  apply obind_returns in H as (more & Hmore & _).
  destruct Hin as [->|Hin].
  - destruct (exec (mkRegExp r true true 0) l) as [R1 res] eqn:Hex. simpl in He.
    subst res.
    rewrite (execLoop_empty_diverges _ _ _ _ Hex Hempty) in Hloop. discriminate.
  - apply execLoop_reset in Hloop; [|reflexivity]. subst R'.
    eapply (IH (S index) l mr Hin He Hempty). exact Hmore.
Qed.

Lemma applyRulesTo_empty_match rs code rule p r l mr :
  In rule rs -> patternOf rule = Some p -> compile p = Some r ->
  In l (splitLines code) ->
  snd (exec (mkRegExp r true true 0) l) = Some mr -> matched mr = EmptyString ->
  forall found, applyRulesTo compile rs code <> Returns found.
Proof.
  intros Hin Hp Hc Hl He Hempty.
  induction rs as [|rule0 rs IH]; intros found H; [destruct Hin|].
  simpl in H. destruct Hin as [->|Hin].
  - rewrite Hp, Hc in H. apply obind_returns in H as (here & Hhere & _).
    eapply scanLines_empty_match; eassumption.
  - destruct (patternOf rule0) as [p0|]; [|eapply IH; eassumption].
    destruct (compile p0) as [r0|]; [|discriminate].
    apply obind_returns in H as (here & _ & H).
    apply obind_returns in H as (more & Hmore & _).
    eapply IH; eassumption.
Qed.

Lemma scanLines_matches_nonempty rule lines : forall R index found,
  scanLines rule R lines index = Returns found ->
  Forall (fun f => f_match f <> EmptyString) found.
Proof.
  induction lines as [|l lines IH]; intros R index found H; cbn [scanLines] in H.
  - injection H as <-. constructor.
  - apply obind_returns in H as ([R' ms] & Hloop & H).
    apply obind_returns in H as (more & Hmore & H).
    injection H as <-. apply Forall_app. split; [|eapply IH; exact Hmore].
    apply execLoop_matches_nonempty in Hloop.
    apply List.Forall_forall. intros f Hf. apply List.in_map_iff in Hf as (mr & <- & Hmr).
    rewrite List.Forall_forall in Hloop. apply Hloop, Hmr.
Qed.

Lemma ascending_app l1 : forall l2,
  ascending l1 -> ascending l2 ->
  (forall a b, In a l1 -> In b l2 -> a <= b) ->
  ascending (l1 ++ l2).
Proof.
  induction l1 as [|a l1 IH]; intros l2 H1 H2 Hle; [exact H2|].
  simpl in H1. destruct H1 as [Hhead Htail]. simpl. split.
  - destruct l1 as [|b l1]; simpl.
    + destruct l2 as [|c l2]; [trivial|]. apply Hle; simpl; auto.
    + exact Hhead.
  - apply IH; [exact Htail | exact H2|].
    intros x y Hx Hy. apply Hle; simpl; auto.
Qed.

Lemma ascending_constant n (l : list nat) :
  Forall (fun a => a = n) l -> ascending l.
Proof.
  induction 1 as [|a l Ha Hl IH]; simpl; [trivial|].
  split; [|exact IH]. destruct Hl as [|b l Hb _]; [trivial|]. lia.
Qed.

(** The findings of one rule come line after line. *)
Lemma scanLines_order rule lines : forall R index found,
  scanLines rule R lines index = Returns found ->
  ascending (map line found)
  /\ Forall (fun f => index + 1 <= line f <= index + length lines) found.
Proof.
  induction lines as [|l lines IH]; intros R index found H; cbn [scanLines] in H.
  - injection H as <-. simpl. split; [trivial | constructor].
  - apply obind_returns in H as ([R' ms] & _ & H).
    apply obind_returns in H as (more & Hmore & H).
    injection H as <-. apply IH in Hmore as [Hasc Hbound].
    assert (Hhere : Forall (fun f => line f = index + 1) (map (findingOf rule index) ms)).
    { apply List.Forall_forall. intros f Hf.
      apply List.in_map_iff in Hf as (mr & <- & _). reflexivity. }
    split.
    + rewrite map_app. apply ascending_app.
      * apply (ascending_constant (index + 1)).
        apply List.Forall_forall. intros a Ha.
        apply List.in_map_iff in Ha as (f & <- & Hf).
        rewrite List.Forall_forall in Hhere. apply Hhere, Hf.
      * exact Hasc.
      * intros a b Ha Hb.
        apply List.in_map_iff in Ha as (f & <- & Hf).
        apply List.in_map_iff in Hb as (g & <- & Hg).
        rewrite List.Forall_forall in Hhere, Hbound.
        rewrite (Hhere f Hf). specialize (Hbound g Hg). simpl in Hbound. lia.
    + apply Forall_app. split.
      * eapply List.Forall_impl; [|exact Hhere]. intros f Hf. simpl in *. lia.
      * eapply List.Forall_impl; [|exact Hbound]. intros f Hf. simpl in *. lia.
Qed.

End WithCompile.

(** X1.  When every rule that is evaluated has a pattern that compiles
    and cannot match the empty string, [applyRules] returns a list of
    findings for every text: it neither throws nor loops.  The default
    rules are of that kind, so with them every text is scanned to the
    end. *)
Theorem applyRules_returns_on_productive_rules :
  (forall (compile : string -> option regex) (rs : RuleSet) (code : string),
      forallb (productive compile) (rules rs) = true ->
      exists found, applyRules compile rs code = Returns found)
  /\ (forall code : string,
         exists found, applyRules parsePattern getDefaultRules code = Returns found).
Proof.
  split.
  - intros compile rs code H. apply applyRulesTo_returns. exact H.
  - intros code. apply applyRulesTo_returns. vm_compute. reflexivity.
Qed.

Lemma applyRules_returns_on_productive_rules_witness :
  exists found, applyRules parsePattern getDefaultRules constantLine = Returns found.
Proof.
  exact (proj1 applyRules_returns_on_productive_rules
               parsePattern getDefaultRules constantLine eq_refl).
Defined.

(** X2.  If the pattern of an evaluated rule finds an empty match when a
    line of the text is searched from its start, [applyRules] does not
    return findings: the [while] loop over [exec] makes no progress on
    that line, so the call never ends, unless a rule before it has
    thrown. *)
Theorem empty_match_keeps_applyRules_from_returning
        (compile : string -> option regex) (rs : RuleSet) (code : string)
        (rule : Rule) (p : string) (r : regex) (l : string) (mr : MatchResult) :
  In rule (rules rs) -> patternOf rule = Some p -> compile p = Some r ->
  In l (splitLines code) ->
  snd (exec (mkRegExp r true true 0) l) = Some mr ->
  matched mr = EmptyString ->
  applyRules compile rs code = Diverges \/ applyRules compile rs code = Throws.
Proof.
  intros Hin Hp Hc Hl He Hempty.
  destruct (applyRules compile rs code) as [found| |] eqn:E; auto.
  exfalso. eapply applyRulesTo_empty_match; eassumption.
Qed.

Lemma empty_match_keeps_applyRules_from_returning_witness :
  applyRules parsePattern (mkRuleSet "1.0.0" [namingRule; starRule]) constantLine
  = Diverges
  \/ applyRules parsePattern (mkRuleSet "1.0.0" [namingRule; starRule]) constantLine
     = Throws.
Proof.
  refine (empty_match_keeps_applyRules_from_returning
            parsePattern (mkRuleSet "1.0.0" [namingRule; starRule]) constantLine
            starRule " *" (RQuant 0 None true (RSet false [AChar " "])) constantLine
            (mkMatch 0 EmptyString [] constantLine) _ eq_refl eq_refl _ _ eq_refl).
  - simpl. right. left. reflexivity.
  - vm_compute. left. reflexivity.
  - vm_compute. reflexivity.
Defined.

(** X3.  Every finding that [applyRules] returns carries a non-empty
    matched text, whatever the rules and the text. *)
Theorem returned_findings_have_matched_text
        (compile : string -> option regex) (rs : RuleSet) (code : string)
        (found : list Finding) :
  applyRules compile rs code = Returns found ->
  Forall (fun f => f_match f <> EmptyString) found.
Proof.
  unfold applyRules. revert found.
  induction (rules rs) as [|rule rest IH]; intros found H; simpl in H.
  - injection H as <-. constructor.
  - destruct (patternOf rule) as [p|]; [|apply IH, H].
    destruct (compile p) as [r|]; [|discriminate].
    apply obind_returns in H as (here & Hhere & H).
    apply obind_returns in H as (more & Hmore & H).
    injection H as <-. apply Forall_app. split.
    + eapply scanLines_matches_nonempty; exact Hhere.
    + apply IH, Hmore.
Qed.

Lemma returned_findings_have_matched_text_witness :
  Forall (fun f => f_match f <> EmptyString)
         [mkFinding "naming-convention" 1
            "Static final variables should be in UPPER_CASE_WITH_UNDERSCORES"
            medium "static final int maxRetries"].
Proof.
  refine (returned_findings_have_matched_text
            parsePattern getDefaultRules constantLine _ _).
  vm_compute. reflexivity.
Defined.

(** X4.  The findings come rule by rule, in the order of the rules that
    are evaluated; the findings of one rule belong to that rule, their
    line numbers do not go down and none is beyond the last line of the
    text. *)
Theorem findings_are_grouped_by_rule_and_ordered_by_line
        (compile : string -> option regex) (rs : RuleSet) (code : string)
        (found : list Finding) :
  applyRules compile rs code = Returns found ->
  exists groups,
    found = concat groups
    /\ Forall2 (fun rule group =>
                  Forall (findingFrom rule) group
                  /\ ascending (map line group)
                  /\ Forall (fun f => line f <= length (splitLines code)) group)
               (activeRules (rules rs)) groups.
Proof.
  unfold applyRules. revert found.
  induction (rules rs) as [|rule rest IH]; intros found H; simpl in H.
  - injection H as <-. exists []. split; [reflexivity | constructor].
  - unfold activeRules. simpl. fold (activeRules rest).
    destruct (patternOf rule) as [p|]; [|apply IH, H].
    destruct (compile p) as [r|]; [|discriminate].
    apply obind_returns in H as (here & Hhere & H).
    apply obind_returns in H as (more & Hmore & H).
    injection H as <-. apply IH in Hmore as (groups & -> & Hgroups).
    exists (here :: groups). split; [reflexivity|].
    constructor; [|exact Hgroups].
    pose proof (scanLines_findings rule _ _ _ _ Hhere) as Hfrom.
    apply scanLines_order in Hhere as [Hasc Hbound].
    repeat split; auto.
    eapply List.Forall_impl; [|exact Hbound]. intros f Hf. simpl in Hf. lia.
Qed.

Lemma findings_are_grouped_by_rule_and_ordered_by_line_witness :
  exists groups,
    [mkFinding "naming-convention" 1
       "Static final variables should be in UPPER_CASE_WITH_UNDERSCORES"
       medium "static final int maxRetries"] = concat groups
    /\ Forall2 (fun rule group =>
                  Forall (findingFrom rule) group
                  /\ ascending (map line group)
                  /\ Forall (fun f => line f <= length (splitLines constantLine)) group)
               (activeRules (rules getDefaultRules)) groups.
Proof.
  refine (findings_are_grouped_by_rule_and_ordered_by_line
            parsePattern getDefaultRules constantLine _ _).
  vm_compute. reflexivity.
Defined.

End ApplyRulesFacts.

(** ** loadRules: what it does to the disk *)

Module RuleStoreMore.
Import JsString JsRegExp Runtime RuleEngine Notions Examples MoreExamples Measure
  ApplyRulesFacts.

Ltac unfold_load :=
  unfold loadRules, loadRulesTry, createDefaultRules;
  unfold Fs.bind, Fs.existsSync, Fs.writeFileSync, Fs.readFileSync,
    Fs.ret, Fs.throw.

Section Load.
Variable root : string.
Variable stringify : RuleSet -> string.
Variable parse : string -> option RuleSet.

Lemma loadRules_written (fs : Fs.FS) (c : string) :
  Fs.files fs !! rulesPath root = Some c ->
  loadRules root stringify parse fs
  = (fs, if Fs.isDenied fs (rulesPath root) then getDefaultRules
         else parsedOrDefault parse c).
Proof.
  intros H. unfold_load. unfold Fs.isFile at 1. rewrite H. simpl.
  destruct (Fs.isDenied fs (rulesPath root)); [reflexivity|].
  rewrite H. unfold parsedOrDefault. destruct (parse c); reflexivity.
Qed.

(** The three ways a call can end: the disk is as it was; or the rules
    file is there and readable and the rules are what it parses to; or
    nothing was at the rules path nor at the directory's, [mkdirSync]
    ran, and either it threw or the file could not be written. *)
Lemma loadRules_outcome (fs fs1 : Fs.FS) (rs : RuleSet) :
  loadRules root stringify parse fs = (fs1, rs) ->
  fs1 = fs
  \/ (exists c, Fs.files fs1 !! rulesPath root = Some c
                /\ Fs.isDenied fs1 (rulesPath root) = false
                /\ rs = parsedOrDefault parse c)
  \/ (fs1 = fst (Fs.mkdirSync (rulesDir root) fs)
      /\ rs = getDefaultRules
      /\ Fs.isFile fs (rulesPath root) || Fs.isDir fs (rulesPath root) = false
      /\ Fs.isFile fs (rulesDir root) || Fs.isDir fs (rulesDir root) = false
      /\ (snd (Fs.mkdirSync (rulesDir root) fs) = None
          \/ Fs.isDenied fs1 (rulesPath root) || Fs.isDir fs1 (rulesPath root) = true)).
Proof.
  unfold_load. unfold parsedOrDefault.
  pose proof (FsFacts.mkdirSync_spec (rulesDir root) fs)
    as (Hfiles & Hdenied & _ & _ & Hsome & _).
  destruct (Fs.mkdirSync (rulesDir root) fs) as [made done] eqn:Hmk.
  simpl in Hfiles, Hdenied, Hsome.
  destruct (Fs.isFile fs (rulesPath root) || Fs.isDir fs (rulesPath root)) eqn:HP; simpl.
  - destruct (Fs.isDenied fs (rulesPath root)) eqn:Hden; [intros [= <- <-]; auto|].
    destruct (Fs.files fs !! rulesPath root) as [c|] eqn:Hc; [|intros [= <- <-]; auto].
    intros H. right. left. exists c.
    destruct (parse c); injection H as <- <-; auto.
  - destruct (Fs.isFile fs (rulesDir root) || Fs.isDir fs (rulesDir root)) eqn:HD; simpl.
    + destruct (Fs.isDenied fs (rulesPath root) || Fs.isDir fs (rulesPath root)
                || negb (Fs.isDir fs (rulesDir root))) eqn:Hw; simpl;
        [intros [= <- <-]; auto|].
      apply orb_false_iff in Hw as [Hw _]. apply orb_false_iff in Hw as [Hden _].
      unfold Fs.isDenied in *. simpl. rewrite Hden. simpl. rewrite lookup_insert_eq.
      intros H. right. left. exists (stringify getDefaultRules).
      destruct (parse (stringify getDefaultRules)); injection H as <- <-;
        simpl; rewrite lookup_insert_eq, Hden; auto.
    + rewrite Hmk. destruct done as [[]|]; simpl.
      * destruct (Fs.isDenied made (rulesPath root) || Fs.isDir made (rulesPath root)
                  || negb (Fs.isDir made (rulesDir root))) eqn:Hw; simpl.
        -- intros [= <- <-]. right. right. split_and!; auto. right.
           apply orb_true_iff in Hw as [Hw|Hw]; [exact Hw|].
           apply negb_true_iff, bool_decide_eq_false in Hw. destruct Hw. auto.
        -- apply orb_false_iff in Hw as [Hw _]. apply orb_false_iff in Hw as [Hden _].
           unfold Fs.isDenied in *. simpl. rewrite Hden. simpl. rewrite lookup_insert_eq.
           intros H. right. left. exists (stringify getDefaultRules).
           destruct (parse (stringify getDefaultRules)); injection H as <- <-;
             simpl; rewrite lookup_insert_eq, Hden; auto.
      * intros [= <- <-]. right. right. split_and!; auto.
Qed.

(** X5.  Loading the rules a second time, from the disk the first load
    left behind, gives the same rule set and changes nothing on the
    disk: whatever [loadRules] creates, it creates on the first call. *)
Theorem loadRules_twice (fs : Fs.FS) :
  loadRules root stringify parse (fst (loadRules root stringify parse fs))
  = loadRules root stringify parse fs.
Proof.
  destruct (loadRules root stringify parse fs) as [fs1 rs] eqn:H. simpl.
  destruct (loadRules_outcome fs fs1 rs H)
    as [->|[(c & Hc & Hd & ->)|(-> & -> & HP & HD & Hw)]].
  - exact H.
  - rewrite (loadRules_written fs1 c Hc), Hd. reflexivity.
  - clear H.
    pose proof (FsFacts.mkdirSync_spec (rulesDir root) fs)
      as (Hfiles & Hdenied & _ & _ & Hsome & Hnone & Hagain).
    destruct (Fs.mkdirSync (rulesDir root) fs) as [made done] eqn:Hmk.
    simpl in *.
    apply orb_false_iff in HP as [HfP _]. apply orb_false_iff in HD as [HfD HdD].
    assert (HfP' : Fs.isFile made (rulesPath root) = false)
      by (unfold Fs.isFile in *; rewrite Hfiles; exact HfP).
    assert (HfD' : Fs.isFile made (rulesDir root) = false)
      by (unfold Fs.isFile in *; rewrite Hfiles; exact HfD).
    assert (HnoP : Fs.files made !! rulesPath root = None).
    { unfold Fs.isFile in HfP'. destruct (Fs.files made !! rulesPath root);
        [discriminate | reflexivity]. }
    unfold_load. rewrite HfP'. simpl.
    destruct (Fs.isDir made (rulesPath root)) eqn:HdP; simpl.
    { rewrite HnoP. destruct (Fs.isDenied made (rulesPath root)); reflexivity. }
    rewrite HfD'. simpl. destruct Hw as [->|Hw].
    + assert (Fs.isDir made (rulesDir root) = false) as ->.
      { apply bool_decide_eq_false. apply Hnone; [reflexivity|].
        apply bool_decide_eq_false in HdD. exact HdD. }
      simpl. rewrite Hagain. reflexivity.
    + rewrite orb_false_r in Hw.
      destruct (Fs.isDir made (rulesDir root)); simpl.
      * rewrite Hw. reflexivity.
      * rewrite Hagain. destruct done as [[]|]; simpl; [rewrite Hw|]; reflexivity.
Qed.

(** X6.  [loadRules] touches nothing but its own file, its directory
    and the ancestors of that directory: every other path holds the
    content it held, what may not be accessed stays so, no directory
    disappears, and a directory that was not there before is the rules
    directory or one of its ancestors. *)
Theorem loadRules_leaves_other_files (fs : Fs.FS) (p : string) :
  p <> rulesPath root ->
  let fs1 := fst (loadRules root stringify parse fs) in
  Fs.files fs1 !! p = Fs.files fs !! p
  /\ Fs.denied fs1 = Fs.denied fs
  /\ (forall d, d ∈ Fs.dirs fs -> d ∈ Fs.dirs fs1)
  /\ (forall d, d ∈ Fs.dirs fs1 ->
      d ∈ Fs.dirs fs \/ d = rulesDir root \/ In d (Fs.ancestors (rulesDir root))).
Proof.
  intros Hp. cbv zeta.
  destruct (loadRules root stringify parse fs) as [fs1 rs] eqn:H. simpl.
  assert (Hshape : exists fl' ds',
             fs1 = Fs.mkFS fl' ds' (Fs.denied fs)
             /\ (fl' = Fs.files fs
                 \/ exists c, fl' = <[ rulesPath root := c ]> (Fs.files fs))
             /\ (ds' = Fs.dirs fs
                 \/ ds' = Fs.dirs (fst (Fs.mkdirSync (rulesDir root) fs)))).
  { revert H. unfold_load.
    pose proof (FsFacts.mkdirSync_spec (rulesDir root) fs) as (Hfiles & Hdenied & _).
    destruct (Fs.mkdirSync (rulesDir root) fs) as [[fl ds dn] done] eqn:Hmk.
    simpl in Hfiles, Hdenied. subst fl dn.
    generalize (stringify getDefaultRules). intros c.
    destruct (Fs.isFile fs (rulesPath root) || Fs.isDir fs (rulesPath root)); simpl;
      [|destruct (Fs.isFile fs (rulesDir root) || Fs.isDir fs (rulesDir root)); simpl;
        [|rewrite Hmk]].
    all: destruct fs as [fl0 ds0 dn0]; simpl.
    all: repeat (case_match; simplify_eq/=); intros [= <- <-]; eauto 10. }
  destruct Hshape as (fl' & ds' & -> & Hfl & Hds). simpl.
  pose proof (FsFacts.mkdirSync_spec (rulesDir root) fs) as (_ & _ & Hmono & Hnew & _).
  split; [|split; [reflexivity|split]].
  - destruct Hfl as [->|(c & ->)]; [reflexivity|].
    apply lookup_insert_ne. congruence.
  - intros d Hd. destruct Hds as [->| ->]; auto.
  - intros d Hd. destruct Hds as [->| ->]; auto.
Qed.

(** On a first start, when nothing exists at the rules path, the
    rules are the defaults, whether or not the file could be written. *)
Lemma loadRules_first_start (fs : Fs.FS) :
  Fs.isFile fs (rulesPath root) || Fs.isDir fs (rulesPath root) = false ->
  parse (stringify getDefaultRules) = Some getDefaultRules ->
  snd (loadRules root stringify parse fs) = getDefaultRules.
Proof.
  intros Hmissing Hround. unfold_load. rewrite Hmissing. simpl.
  assert (Hwrite : forall disk : Fs.FS,
             snd (loadRules root stringify parse
                    (Fs.mkFS (<[ rulesPath root := stringify getDefaultRules ]>
                                (Fs.files disk))
                             (Fs.dirs disk) (Fs.denied disk)))
             = getDefaultRules).
  { intros disk. rewrite (loadRules_written _ (stringify getDefaultRules)).
    - simpl. unfold parsedOrDefault. rewrite Hround. destruct (Fs.isDenied _ _); reflexivity.
    - apply lookup_insert_eq. }
  revert Hwrite. unfold_load. intros Hwrite.
  destruct (Fs.isFile fs (rulesDir root) || Fs.isDir fs (rulesDir root)); simpl;
    [|destruct (Fs.mkdirSync (rulesDir root) fs) as [made [[]|]]; [|reflexivity]].
  all: match goal with
       | |- context [if ?c then (?disk, None) else _] =>
           destruct c; [reflexivity|]; specialize (Hwrite disk)
       end.
  all: unfold Fs.isFile at 1 in Hwrite; simpl in Hwrite;
    rewrite lookup_insert_eq in Hwrite; simpl in Hwrite; exact Hwrite.
Qed.

(** X26.  The constructor followed by a scan: on a first start, with
    nothing at the rules path and a JSON round trip that gives the
    defaults back, the engine holds the default rules, and [applyRules]
    then returns findings for every text. *)
Theorem first_start_scans_with_the_defaults (fs : Fs.FS) (code : string) :
  Fs.isFile fs (rulesPath root) || Fs.isDir fs (rulesPath root) = false ->
  parse (stringify getDefaultRules) = Some getDefaultRules ->
  snd (loadRules root stringify parse fs) = getDefaultRules
  /\ exists found,
       applyRules parsePattern (snd (loadRules root stringify parse fs)) code
       = Returns found.
Proof.
  intros Hmissing Hround.
  rewrite (loadRules_first_start fs Hmissing Hround). split; [reflexivity|].
  apply applyRulesTo_returns. vm_compute. reflexivity.
Qed.

End Load.

Lemma first_start_scans_with_the_defaults_witness :
  snd (loadRules "/ext" mockStringify mockParse emptyDisk) = getDefaultRules
  /\ exists found,
       applyRules parsePattern (snd (loadRules "/ext" mockStringify mockParse emptyDisk))
                  constantLine
       = Returns found.
Proof.
  exact (first_start_scans_with_the_defaults
           "/ext" mockStringify mockParse emptyDisk constantLine eq_refl eq_refl).
Defined.

(** On the installed extension the manifest is left as it is, the
    rules file is written, and the missing [resources] directory is
    made on the way. *)
Lemma loadRules_leaves_other_files_witness :
  Fs.files (fst (loadRules "/ext" mockStringify mockParse installedDisk))
    !! "/ext/package.json" = Some "{ }"
  /\ Fs.files (fst (loadRules "/ext" mockStringify mockParse installedDisk))
       !! rulesPath "/ext" = Some "1.0.0"
  /\ Fs.isDir (fst (loadRules "/ext" mockStringify mockParse installedDisk))
       "/ext/resources" = true.
Proof.
  split; [|split; vm_compute; reflexivity].
  rewrite (proj1 (loadRules_leaves_other_files
                    "/ext" mockStringify mockParse installedDisk "/ext/package.json"
                    ltac:(discriminate))).
  vm_compute. reflexivity.
Defined.

End RuleStoreMore.


(** ** Pattern state can hide issues, never invent them *)

Module SearchFacts.
Import JsString JsRegExp Runtime Notions JsRegExpFacts Measure MeasureFacts Stateless.

Lemma fresh_setLastIndex R n : fresh (setLastIndex R n) = fresh R.
Proof. reflexivity. Qed.

Lemma fresh_exec R l : fresh (fst (exec R l)) = fresh R.
Proof. destruct (exec_fst R l) as (n & ->). reflexivity. Qed.

Lemma fresh_test R l : fresh (fst (test R l)) = fresh R.
Proof.
  unfold test. pose proof (fresh_exec R l) as H.
  destruct (exec R l) as [R' res]. exact H.
Qed.

Lemma fresh_matchLoop f : forall R l, fresh (fst (matchLoop f R l)) = fresh R.
Proof.
  induction f as [|f IH]; intros R l; simpl;
    pose proof (fresh_exec R l) as H; destruct (exec R l) as [R' [mr|]]; simpl in *;
    try exact H.
  - destruct (matched mr); exact H.
  - match goal with
    | |- context [matchLoop f ?X l] =>
        specialize (IH X l); destruct (matchLoop f X l) as [Rf ms]
    end.
    simpl in *. rewrite IH. destruct (matched mr); exact H.
Qed.

Lemma fresh_stringMatch l R : fresh (fst (stringMatch l R)) = fresh R.
Proof.
  unfold stringMatch.
  pose proof (fresh_matchLoop (S (String.length l)) (setLastIndex R 0) l) as H.
  destruct (matchLoop _ _ l) as [R' ms]. exact H.
Qed.

Lemma stringMatch_fresh l R : stringMatch l (fresh R) = stringMatch l R.
Proof. reflexivity. Qed.

(** A match found when the search starts later is found, or preceded
    by another, when the search starts earlier. *)
Lemma searchFrom_earlier ic r n : forall p s i p' s' found,
  seek n p s = Some (p', s') ->
  searchFrom ic r p' s' (i + n) = Some found ->
  exists found', searchFrom ic r p s i = Some found'.
Proof.
  induction n as [|n IH]; intros p s i p' s' found Hs Hf; simpl in Hs.
  - injection Hs as <- <-. rewrite Nat.add_0_r in Hf. eauto.
  - destruct s as [|c s]; [discriminate|].
    simpl. destruct (rmatch ic r Some (MState p (c :: s) [])); [eauto|].
    apply (IH _ _ (S i) _ _ found Hs). rewrite <- Hf. f_equal. lia.
Qed.

(** [test] on a used pattern says yes only where it says yes on a
    fresh one. *)
Lemma test_fresh R l : snd (test R l) = true -> snd (test (fresh R) l) = true.
Proof.
  unfold test, exec. destruct R as [src g ic li]. simpl.
  destruct g; simpl;
    [|destruct (searchFrom ic src None (chars l) 0) as [[[i st] st']|]; trivial].
  destruct (seek li None (chars l)) as [[p s]|] eqn:Hs; [|discriminate].
  destruct (searchFrom ic src p s li) as [[[i st] st']|] eqn:Hf; [|discriminate].
  intros _.
  destruct (searchFrom_earlier ic src li None (chars l) 0 p s _ Hs Hf)
    as ([[j y] y'] & ->).
  reflexivity.
Qed.

Lemma someTest_fresh ps line :
  map fresh (fst (someTest ps line)) = map fresh ps
  /\ (snd (someTest ps line) = true -> mentionsLogging ps line = true).
Proof.
  induction ps as [|p ps [IH1 IH2]]; simpl; [split; [reflexivity | discriminate]|].
  pose proof (fresh_test p line) as Hf. pose proof (test_fresh p line) as Ht.
  destruct (test p line) as [p' b]. simpl in *. destruct b; simpl.
  - rewrite Hf. split; [reflexivity|]. intros _. rewrite Ht; reflexivity.
  - destruct (someTest ps line) as [ps' b']. simpl in *. rewrite Hf, IH1.
    split; [reflexivity|]. intros Hb. rewrite (IH2 Hb). apply orb_true_r.
Qed.

Lemma mentionsLogging_fresh ps line :
  mentionsLogging (map fresh ps) line = mentionsLogging ps line.
Proof.
  unfold mentionsLogging. induction ps as [|p ps IH]; simpl; [reflexivity|].
  rewrite IH. reflexivity.
Qed.

Lemma mentionsLogging_same ps ps' line :
  map fresh ps = map fresh ps' -> mentionsLogging ps line = mentionsLogging ps' line.
Proof.
  intros H. rewrite <- (mentionsLogging_fresh ps), <- (mentionsLogging_fresh ps'), H.
  reflexivity.
Qed.

Lemma loggingLines_same {A : Type} ps ps' (f : string -> nat -> list A) lines :
  map fresh ps = map fresh ps' ->
  forall index, loggingLines ps f lines index = loggingLines ps' f lines index.
Proof.
  intros H. induction lines as [|line lines IH]; intros index; simpl; [reflexivity|].
  rewrite IH, (mentionsLogging_same ps ps' line H). reflexivity.
Qed.

(** *** Every match is a piece of the text searched *)

Lemma seek_split n : forall p s p' s',
  seek n p s = Some (p', s') -> exists a, s = a ++ s'.
Proof.
  induction n as [|n IH]; intros p s p' s' H; simpl in H.
  - injection H as _ <-. exists []. reflexivity.
  - destruct s as [|c s]; [discriminate|].
    apply IH in H as (a & ->). exists (c :: a). reflexivity.
Qed.

Lemma isPrefix_app m : forall b, isPrefix m (m ++ b) = true.
Proof.
  induction m as [|c m IH]; intros b; simpl; [reflexivity|].
  rewrite IH. rewrite (proj2 (Ascii.eqb_eq c c) eq_refl). reflexivity.
Qed.

Lemma includesChars_app a : forall m b, includesChars (a ++ m ++ b) m = true.
Proof.
  induction a as [|c a IH]; intros m b; simpl.
  - pose proof (isPrefix_app m b) as H.
    destruct (m ++ b); simpl; rewrite H; reflexivity.
  - rewrite IH. apply orb_true_r.
Qed.

Lemma exec_matched_occurs R l R' mr :
  exec R l = (R', Some mr) -> includes l (matched mr) = true.
Proof.
  intros H. unfold exec in H.
  destruct (seek (if global R then lastIndex R else 0) None (chars l))
    as [[p s]|] eqn:Hs; [|discriminate].
  destruct (searchFrom (ignoreCase R) (source R) p s
                       (if global R then lastIndex R else 0))
    as [[[i st] st']|] eqn:Hf; [|discriminate].
  injection H as _ <-. simpl.
  apply seek_split in Hs as (a & Ha).
  apply searchFrom_found in Hf as (_ & _ & Hseek & _).
  apply seek_split in Hseek as (a' & Ha').
  unfold includes, ofChars, chars. rewrite list_ascii_of_string_of_list_ascii.
  unfold chars in Ha. rewrite Ha, Ha'.
  unfold consumed. set (n := length (rest st) - length (rest st')).
  rewrite <- (firstn_skipn n (rest st)) at 1.
  rewrite app_assoc. apply includesChars_app.
Qed.

Lemma matchLoop_occurs f : forall R l,
  Forall (fun m => includes l m = true) (snd (matchLoop f R l)).
Proof.
  induction f as [|f IH]; intros R l; simpl;
    destruct (exec R l) as [R' [mr|]] eqn:He; simpl; try constructor.
  - eapply exec_matched_occurs, He.
  - constructor.
  - match goal with
    | |- context [matchLoop f ?X l] =>
        specialize (IH X l); destruct (matchLoop f X l) as [Rf ms]
    end.
    simpl in *. constructor; [eapply exec_matched_occurs, He | exact IH].
Qed.

Lemma stringMatch_occurs l R ms :
  snd (stringMatch l R) = Some ms -> Forall (fun m => includes l m = true) ms.
Proof.
  unfold stringMatch.
  pose proof (matchLoop_occurs (S (String.length l)) (setLastIndex R 0) l) as H.
  destruct (matchLoop _ _ l) as [R' found]. simpl in *.
  destruct found; [discriminate|]. intros E. injection E as <-. exact H.
Qed.

End SearchFacts.

Module CheckerFacts.
Import JsString JsRegExp Runtime Types Notions Examples JsRegExpFacts Stateless SearchFacts.
Import LoggingSensitivityChecker.

Lemma loggingLines_ext {A : Type} ps (f g : string -> nat -> list A) lines :
  (forall line n, f line n = g line n) ->
  forall index, loggingLines ps f lines index = loggingLines ps g lines index.
Proof.
  intros H. induction lines as [|line lines IH]; intros index; simpl; [reflexivity|].
  rewrite IH, H. reflexivity.
Qed.

(** Where an element of [loggingLines] comes from. *)
Lemma loggingLines_In {A : Type} ps (f : string -> nat -> list A) lines (x : A) :
  forall index,
    In x (loggingLines ps f lines index) ->
    exists k line,
      nth_error lines k = Some line
      /\ mentionsLogging ps line = true
      /\ In x (f line (index + k + 1)).
Proof.
  induction lines as [|line lines IH]; intros index H; simpl in H; [destruct H|].
  apply in_app_or in H as [H|H].
  - destruct (mentionsLogging ps line) eqn:Hm; [|destruct H].
    exists 0, line. rewrite Nat.add_0_r. auto.
  - apply IH in H as (k & l & Hk & Hm & Hx).
    exists (S k), l. replace (index + S k + 1) with (S index + k + 1) by lia. auto.
Qed.

Lemma entryIssues_freshPattern p line n :
  entryIssues (freshPattern p) line n = entryIssues p line n.
Proof. reflexivity. Qed.

Lemma catalogIssues_fresh ps line n :
  catalogIssues (map freshPattern ps) line n = catalogIssues ps line n.
Proof.
  unfold catalogIssues. induction ps as [|p ps IH]; simpl; [reflexivity|].
  rewrite IH, entryIssues_freshPattern. reflexivity.
Qed.

Lemma catalogIssues_same ps ps' line n :
  map freshPattern ps = map freshPattern ps' ->
  catalogIssues ps line n = catalogIssues ps' line n.
Proof.
  intros H. rewrite <- (catalogIssues_fresh ps), <- (catalogIssues_fresh ps'), H.
  reflexivity.
Qed.

(** The catalog is tried on a line without looking at any [lastIndex],
    and only the [lastIndex] of its patterns can differ afterwards. *)
Lemma checkSensitivePatterns_spec ps line n :
  snd (checkSensitivePatterns ps line n) = catalogIssues ps line n
  /\ map freshPattern (fst (checkSensitivePatterns ps line n)) = map freshPattern ps.
Proof.
  induction ps as [|p ps [IH1 IH2]]; simpl; [split; reflexivity|].
  unfold entryIssues.
  pose proof (fresh_stringMatch line (pattern p)) as Hf.
  destruct (stringMatch line (pattern p)) as [R' matches].
  destruct (checkSensitivePatterns ps line n) as [ps' more].
  simpl in *. rewrite IH1, IH2. split; [reflexivity|].
  f_equal. unfold freshPattern, withPattern. simpl. rewrite Hf. reflexivity.
Qed.

Lemma checkLines_spec lines : forall self index,
  freshChecker (fst (checkLines self lines index)) = freshChecker self
  /\ sublist (snd (checkLines self lines index))
             (loggingLines (loggerPatterns self)
                           (catalogIssues (sensitiveMethodPatterns self))
                           lines index).
Proof.
  induction lines as [|line lines IH]; intros self index; simpl.
  { split; [reflexivity | constructor]. }
  pose proof (someTest_fresh (loggerPatterns self) line) as [Hlp Hyes].
  destruct (someTest (loggerPatterns self) line) as [lp hasLogging].
  pose proof (checkSensitivePatterns_spec (sensitiveMethodPatterns self) line (index + 1))
    as [Hfound Hsp].
  destruct (checkSensitivePatterns (sensitiveMethodPatterns self) line (index + 1))
    as [sp found].
  simpl in *.
  destruct hasLogging.
  - destruct (IH (mkChecker sp lp) (S index)) as [IHs IHl].
    destruct (checkLines (mkChecker sp lp) lines (S index)) as [self2 more].
    simpl in *. split.
    + rewrite IHs. unfold freshChecker. simpl. rewrite Hsp, Hlp. reflexivity.
    + rewrite (Hyes eq_refl), Hfound. apply sublist_app; [reflexivity|].
      rewrite (loggingLines_same _ _ _ lines Hlp) in IHl.
      rewrite (loggingLines_ext _ _ (catalogIssues (sensitiveMethodPatterns self)))
        in IHl; [exact IHl|].
      intros l n. apply catalogIssues_same. exact Hsp.
  - destruct (IH (mkChecker (sensitiveMethodPatterns self) lp) (S index)) as [IHs IHl].
    destruct (checkLines (mkChecker (sensitiveMethodPatterns self) lp) lines (S index))
      as [self2 more].
    simpl in *. split.
    + rewrite IHs. unfold freshChecker. simpl. rewrite Hlp. reflexivity.
    + rewrite (loggingLines_same _ _ _ lines Hlp) in IHl.
      apply sublist_inserts_l. exact IHl.
Qed.

Lemma catalogIssues_In ps line n i :
  In i (catalogIssues ps line n) ->
  exists p m, In p ps /\ includes line m = true /\ i = issueOf p n m.
Proof.
  unfold catalogIssues. intros H. apply in_flat_map in H as (p & Hp & H).
  unfold entryIssues in H.
  destruct (snd (stringMatch line (pattern p))) as [ms|] eqn:Hms; [|destruct H].
  apply List.in_map_iff in H as (m & <- & Hm).
  apply stringMatch_occurs in Hms. rewrite List.Forall_forall in Hms.
  exists p, m. auto.
Qed.

(** X7.  A call changes nothing in the checker but the [lastIndex] of
    its patterns, and what it reports is a selection, in order, of
    what the catalog finds on the lines that hold a logging call when
    every pattern is tried from the start of the line: the state left
    by earlier probes can hide issues, it never adds or reorders any. *)
Theorem pattern_state_only_hides_issues (self : t) (code : string) :
  freshChecker (fst (checkLoggingSensitivity self code)) = freshChecker self
  /\ sublist (snd (checkLoggingSensitivity self code))
             (loggingLines (loggerPatterns self)
                           (catalogIssues (sensitiveMethodPatterns self))
                           (splitLines code) 0).
Proof. apply checkLines_spec. Qed.

(** X8.  Every issue reported by [checkLoggingSensitivity] is made from
    an entry of the catalog and a text that occurs in the line the
    issue is reported on, and that line matches a logger pattern. *)
Theorem reported_issue_quotes_its_line (self : t) (code : string)
        (i : VulnerabilityIssue) :
  In i (snd (checkLoggingSensitivity self code)) ->
  exists p m line,
    In p (sensitiveMethodPatterns self)
    /\ 1 <= lineNumber i
    /\ nth_error (splitLines code) (lineNumber i - 1) = Some line
    /\ mentionsLogging (loggerPatterns self) line = true
    /\ includes line m = true
    /\ i = issueOf p (lineNumber i) m.
Proof.
  intros H.
  destruct (checkLines_spec (splitLines code) self 0) as [_ Hsub].
  unfold checkLoggingSensitivity in H.
  assert (Hin : In i (loggingLines (loggerPatterns self)
                                   (catalogIssues (sensitiveMethodPatterns self))
                                   (splitLines code) 0)).
  { apply list_elem_of_In. eapply elem_of_sublist; [|exact Hsub].
    apply list_elem_of_In. exact H. }
  apply loggingLines_In in Hin as (k & line & Hk & Hm & Hi).
  apply catalogIssues_In in Hi as (p & m & Hp & Hinc & ->).
  exists p, m, line.
  change (lineNumber (issueOf p (0 + k + 1) m)) with (0 + k + 1).
  replace (0 + k + 1 - 1) with k by lia.
  split_and!; auto; lia.
Qed.

Lemma reported_issue_quotes_its_line_witness :
  exists p m line,
    In p (sensitiveMethodPatterns create)
    /\ 1 <= 1
    /\ nth_error (splitLines printlnLine) (1 - 1) = Some line
    /\ mentionsLogging (loggerPatterns create) line = true
    /\ includes line m = true
    /\ issueOf (mkSensitive (gi "\.get(Password|Pass|Pwd|Secret|Token|Key)\(\)")
                            "Password/secret data is being logged - security risk"
                            High "Credentials")
               1 ".getPassword()"
       = issueOf p 1 m.
Proof.
  refine (reported_issue_quotes_its_line
            create printlnLine
            (issueOf (mkSensitive (gi "\.get(Password|Pass|Pwd|Secret|Token|Key)\(\)")
                                  "Password/secret data is being logged - security risk"
                                  High "Credentials")
                     1 ".getPassword()") _).
  vm_compute. left. reflexivity.
Defined.

End CheckerFacts.

Module SemanticFacts.
Import JsString JsRegExp Runtime Types Notions Examples SemanticExamples
       JsRegExpFacts Stateless SearchFacts CheckerFacts.
Import SemanticLoggingAnalyzer.

Section Backend.
Variables Vec Num : Type.
Variable cosineSimilarity : Vec -> Vec -> Num.
Variable atLeastThreshold : Num -> bool.
Variable percent : Num -> string.

Lemma scanLines_spec
      (perLine : t Vec -> string -> nat -> list VulnerabilityIssue) :
  (forall self lp line n, perLine (withPatterns Vec self lp) line n = perLine self line n) ->
  forall lines (self : t Vec) index,
    (embeddingPipeline Vec (fst (scanLines Vec perLine self lines index))
     = embeddingPipeline Vec self
     /\ isInitialized Vec (fst (scanLines Vec perLine self lines index))
        = isInitialized Vec self
     /\ map fresh (LOGGING_PATTERNS Vec (fst (scanLines Vec perLine self lines index)))
        = map fresh (LOGGING_PATTERNS Vec self))
    /\ sublist (snd (scanLines Vec perLine self lines index))
               (loggingLines (LOGGING_PATTERNS Vec self) (perLine self) lines index).
Proof.
  intros Hper lines. induction lines as [|line lines IH]; intros self index; simpl.
  { repeat split; constructor. }
  pose proof (someTest_fresh (LOGGING_PATTERNS Vec self) line) as [Hlp Hyes].
  destruct (someTest (LOGGING_PATTERNS Vec self) line) as [lp hasLogging].
  simpl in *.
  destruct (IH (withPatterns Vec self lp) (S index)) as [(IH1 & IH2 & IH3) IHl].
  destruct (scanLines Vec perLine (withPatterns Vec self lp) lines (S index))
    as [self2 more].
  simpl in *. split; [rewrite IH3; auto|].
  rewrite (loggingLines_same _ _ _ lines Hlp) in IHl.
  rewrite (loggingLines_ext _ _ (perLine self)) in IHl
    by (intros l n; apply Hper).
  destruct hasLogging.
  - rewrite (Hyes eq_refl), Hper. apply sublist_app; [reflexivity | exact IHl].
  - apply sublist_inserts_l. exact IHl.
Qed.

(** What is run on a line that holds a logging call. *)
Lemma analyzeLoggingLine_withPatterns (self : t Vec) lp line n :
  analyzeLoggingLine Vec Num cosineSimilarity atLeastThreshold percent
                     (withPatterns Vec self lp) line n
  = analyzeLoggingLine Vec Num cosineSimilarity atLeastThreshold percent self line n.
Proof. reflexivity. Qed.

Lemma analyzeLoggingLine_In (self : t Vec) line n i :
  In i (analyzeLoggingLine Vec Num cosineSimilarity atLeastThreshold percent self line n) ->
  exists embed content category keywords kw tv kv,
    embeddingPipeline Vec self = Some embed
    /\ In content (extractLoggedContent line)
    /\ In (category, keywords) SENSITIVE_KEYWORDS /\ In kw keywords
    /\ embed content = Some tv /\ embed kw = Some kv
    /\ atLeastThreshold (cosineSimilarity tv kv) = true
    /\ i = semanticIssue Num percent n
             (mkSemanticMatch Num kw (cosineSimilarity tv kv) content category).
Proof.
  unfold analyzeLoggingLine. intros H.
  assert (Hin : In i (flat_map
                        (fun content =>
                           flat_map
                             (fun m => if atLeastThreshold (similarity Num m)
                                       then [semanticIssue Num percent n m] else [])
                             (findSemanticMatches Vec Num cosineSimilarity
                                                  atLeastThreshold self content))
                        (extractLoggedContent line))).
  { destruct (extractLoggedContent line); [destruct H | exact H]. }
  clear H. apply in_flat_map in Hin as (content & Hcontent & Hin).
  apply in_flat_map in Hin as (m & Hm & Hi).
  unfold findSemanticMatches in Hm.
  destruct (embeddingPipeline Vec self) as [embed|]; [|destruct Hm].
  destruct (embed content) as [tv|] eqn:Htv; [|destruct Hm].
  apply in_flat_map in Hm as ([category keywords] & Hcat & Hm).
  apply in_flat_map in Hm as (kw & Hkw & Hm).
  destruct (embed kw) as [kv|] eqn:Hkv; [|destruct Hm].
  destruct (atLeastThreshold (cosineSimilarity tv kv)) eqn:Hsim; [|destruct Hm].
  destruct Hm as [<-|[]]. simpl in Hi. rewrite Hsim in Hi. destruct Hi as [<-|[]].
  exists embed, content, category, keywords, kw, tv, kv. split_and!; auto.
Qed.

Lemma semantic_severity_not_low category : getSeverityByCategory category <> Low.
Proof.
  unfold getSeverityByCategory.
  repeat match goal with |- context [if ?b then _ else _] => destruct b end;
    discriminate.
Qed.

Lemma analyzeLoggingStatements_spec (self : t Vec) code :
  let perLine :=
    if negb (isInitialized Vec self)
       || match embeddingPipeline Vec self with None => true | Some _ => false end
    then fallbackLineAnalysis
    else analyzeLoggingLine Vec Num cosineSimilarity atLeastThreshold percent self in
  let result :=
    analyzeLoggingStatements Vec Num cosineSimilarity atLeastThreshold percent self code in
  (embeddingPipeline Vec (fst result) = embeddingPipeline Vec self
   /\ isInitialized Vec (fst result) = isInitialized Vec self
   /\ map fresh (LOGGING_PATTERNS Vec (fst result)) = map fresh (LOGGING_PATTERNS Vec self))
  /\ sublist (snd result)
             (loggingLines (LOGGING_PATTERNS Vec self) perLine (splitLines code) 0).
Proof.
  cbv zeta. unfold analyzeLoggingStatements, fallbackKeywordAnalysis.
  destruct (negb (isInitialized Vec self)
            || match embeddingPipeline Vec self with None => true | Some _ => false end).
  - apply (scanLines_spec (fun _ line n => fallbackLineAnalysis line n)).
    reflexivity.
  - apply (scanLines_spec
             (analyzeLoggingLine Vec Num cosineSimilarity atLeastThreshold percent)).
    apply analyzeLoggingLine_withPatterns.
Qed.

(** X9.  A call changes nothing in the analyzer but the [lastIndex] of
    its logging patterns, and its issues are a selection, in order, of
    what the per-line analysis (semantic when the model is ready,
    keywords otherwise) gives on the lines that hold a logging call
    when the logging patterns are tried from the start of each line. *)
Theorem analyzer_state_only_hides_issues (self : t Vec) (code : string) :
  let perLine :=
    if negb (isInitialized Vec self)
       || match embeddingPipeline Vec self with None => true | Some _ => false end
    then fallbackLineAnalysis
    else analyzeLoggingLine Vec Num cosineSimilarity atLeastThreshold percent self in
  let result :=
    analyzeLoggingStatements Vec Num cosineSimilarity atLeastThreshold percent self code in
  (embeddingPipeline Vec (fst result) = embeddingPipeline Vec self
   /\ isInitialized Vec (fst result) = isInitialized Vec self
   /\ map fresh (LOGGING_PATTERNS Vec (fst result)) = map fresh (LOGGING_PATTERNS Vec self))
  /\ sublist (snd result)
             (loggingLines (LOGGING_PATTERNS Vec self) perLine (splitLines code) 0).
Proof. apply analyzeLoggingStatements_spec. Qed.

(** X10.  With the model ready, every issue comes from a piece of
    logged content of its own line and a catalog keyword whose
    embeddings both exist and pass the similarity threshold; its
    severity is the one of the keyword's category and is never low. *)
Theorem semantic_issue_has_a_similar_keyword
        (self : t Vec) (embed : Pipeline Vec) (code : string) (i : VulnerabilityIssue) :
  isInitialized Vec self = true ->
  embeddingPipeline Vec self = Some embed ->
  In i (snd (analyzeLoggingStatements
               Vec Num cosineSimilarity atLeastThreshold percent self code)) ->
  exists line content category keywords kw tv kv,
    1 <= lineNumber i
    /\ nth_error (splitLines code) (lineNumber i - 1) = Some line
    /\ mentionsLogging (LOGGING_PATTERNS Vec self) line = true
    /\ In content (extractLoggedContent line)
    /\ In (category, keywords) SENSITIVE_KEYWORDS /\ In kw keywords
    /\ embed content = Some tv /\ embed kw = Some kv
    /\ atLeastThreshold (cosineSimilarity tv kv) = true
    /\ i = semanticIssue Num percent (lineNumber i)
             (mkSemanticMatch Num kw (cosineSimilarity tv kv) content category)
    /\ severity i = getSeverityByCategory category
    /\ severity i <> Low.
Proof.
  intros Hinit Hpipe H.
  destruct (analyzeLoggingStatements_spec self code) as [_ Hsub].
  cbv zeta in Hsub. rewrite Hinit, Hpipe in Hsub. simpl in Hsub.
  apply list_elem_of_In in H.
  apply (elem_of_sublist _ _ _ H) in Hsub. apply list_elem_of_In in Hsub.
  apply loggingLines_In in Hsub as (k & line & Hk & Hm & Hi).
  apply analyzeLoggingLine_In in Hi
    as (embed' & content & category & keywords & kw & tv & kv
        & He & Hc & Hcat & Hkw & Htv & Hkv & Hsim & ->).
  rewrite Hpipe in He. injection He as <-.
  exists line, content, category, keywords, kw, tv, kv.
  change (lineNumber (semanticIssue Num percent (0 + k + 1) _)) with (0 + k + 1).
  replace (0 + k + 1 - 1) with k by lia.
  split_and!; auto; try lia.
  apply semantic_severity_not_low.
Qed.

Lemma findSemanticMatches_failing (self : t Vec) embed text :
  embeddingPipeline Vec self = Some embed -> embed text = None ->
  findSemanticMatches Vec Num cosineSimilarity atLeastThreshold self text = [].
Proof. intros Hp He. unfold findSemanticMatches. rewrite Hp, He. reflexivity. Qed.

(** X11.  With the model ready, a pipeline that throws on every piece
    of logged content leaves the analysis without a single issue: the
    throw is swallowed inside [findSemanticMatches], so the keyword
    fallback of the [catch] in [analyzeLoggingStatements] never runs. *)
Theorem failing_model_reports_nothing
        (self : t Vec) (embed : Pipeline Vec) (code : string) :
  isInitialized Vec self = true ->
  embeddingPipeline Vec self = Some embed ->
  (forall line content,
      In line (splitLines code) -> In content (extractLoggedContent line) ->
      embed content = None) ->
  snd (analyzeLoggingStatements
         Vec Num cosineSimilarity atLeastThreshold percent self code) = [].
Proof.
  intros Hinit Hpipe Hfail.
  destruct (snd (analyzeLoggingStatements
                   Vec Num cosineSimilarity atLeastThreshold percent self code))
    as [|i rest] eqn:E; [reflexivity|].
  exfalso.
  assert (Hi : In i (snd (analyzeLoggingStatements
                   Vec Num cosineSimilarity atLeastThreshold percent self code)))
    by (rewrite E; left; reflexivity).
  destruct (analyzeLoggingStatements_spec self code) as [_ Hsub].
  cbv zeta in Hsub. rewrite Hinit, Hpipe in Hsub. simpl in Hsub.
  apply list_elem_of_In in Hi.
  apply (elem_of_sublist _ _ _ Hi) in Hsub. apply list_elem_of_In in Hsub.
  apply loggingLines_In in Hsub as (k & line & Hk & Hm & Hin).
  apply analyzeLoggingLine_In in Hin
    as (embed' & content & category & keywords & kw & tv & kv
        & He & Hc & Hcat & Hkw & Htv & Hkv & Hsim & _).
  rewrite Hpipe in He. injection He as <-.
  rewrite (Hfail line content) in Htv; [discriminate| |exact Hc].
  eapply nth_error_In. exact Hk.
Qed.

End Backend.

Lemma semantic_issue_has_a_similar_keyword_witness :
  exists line content category keywords kw tv kv,
    1 <= 1
    /\ nth_error (splitLines credentialLine) (1 - 1) = Some line
    /\ mentionsLogging (LOGGING_PATTERNS string (readyAnalyzer wordPipeline)) line = true
    /\ In content (extractLoggedContent line)
    /\ In (category, keywords) SENSITIVE_KEYWORDS /\ In kw keywords
    /\ wordPipeline content = Some tv /\ wordPipeline kw = Some kv
    /\ containment tv kv = true
    /\ hd (keywordIssue 0 EmptyString) (analyzeWith wordPipeline credentialLine)
       = semanticIssue bool ratio 1 (mkSemanticMatch bool kw (containment tv kv) content category)
    /\ severity (hd (keywordIssue 0 EmptyString) (analyzeWith wordPipeline credentialLine))
       = getSeverityByCategory category
    /\ severity (hd (keywordIssue 0 EmptyString) (analyzeWith wordPipeline credentialLine))
       <> Low.
Proof.
  refine (semantic_issue_has_a_similar_keyword
            string bool containment (fun b => b) ratio
            (readyAnalyzer wordPipeline) wordPipeline credentialLine
            (hd (keywordIssue 0 EmptyString) (analyzeWith wordPipeline credentialLine))
            eq_refl eq_refl _).
  vm_compute. left. reflexivity.
Defined.

Lemma failing_model_reports_nothing_witness :
  analyzeWith failingPipeline credentialLine = [].
Proof.
  exact (failing_model_reports_nothing
           string bool containment (fun b => b) ratio
           (readyAnalyzer failingPipeline) failingPipeline credentialLine
           eq_refl eq_refl (fun _ _ _ _ => eq_refl)).
Defined.

End SemanticFacts.


(** ** The summary of the sensitive-logging check *)

Module SummaryFacts.
Import JsString JsRegExp Runtime Types Notions Examples JsRegExpFacts
       Stateless SearchFacts CheckerFacts SensitiveLoggingSummary.
Import LoggingSensitivityChecker.

Section Counters.
Context {K : Type}.
Variable same : K -> K -> bool.
Hypothesis same_spec : forall a b, same a b = true <-> a = b.

Lemma same_refl a : same a a = true.
Proof. apply same_spec. reflexivity. Qed.

Lemma mapGet_mapSet m k v k' :
  mapGet same (mapSet same m k v) k' = if same k k' then Some v else mapGet same m k'.
Proof.
  induction m as [|[k0 v0] m IH]; simpl.
  - reflexivity.
  - destruct (same k0 k) eqn:E0; simpl.
    + apply same_spec in E0 as ->. destruct (same k k'); reflexivity.
    + rewrite IH. destruct (same k0 k') eqn:E1; [|reflexivity].
      apply same_spec in E1 as ->.
      destruct (same k k') eqn:E2; [|reflexivity].
      apply same_spec in E2 as ->. rewrite same_refl in E0. discriminate.
Qed.

Lemma counted_countUp m k k' :
  counted same (countUp same m k) k'
  = counted same m k' + (if same k k' then 1 else 0).
Proof.
  unfold counted, countUp. rewrite mapGet_mapSet.
  destruct (same k k') eqn:E.
  - apply same_spec in E as <-. reflexivity.
  - lia.
Qed.

Lemma keys_mapSet m k v :
  map fst (mapSet same m k v)
  = if existsb (fun k0 => same k0 k) (map fst m) then map fst m else map fst m ++ [k].
Proof.
  induction m as [|[k0 v0] m IH]; simpl; [reflexivity|].
  destruct (same k0 k); simpl; [reflexivity|].
  rewrite IH. destruct (existsb _ (map fst m)); reflexivity.
Qed.

Lemma existsb_same_In k l : existsb (fun k0 => same k0 k) l = true <-> In k l.
Proof.
  rewrite existsb_exists. split.
  - intros (x & Hx & Hs). apply same_spec in Hs as ->. exact Hx.
  - intros H. exists k. split; [exact H | apply same_refl].
Qed.

Lemma NoDup_countUp m k :
  NoDup (map fst m) -> NoDup (map fst (countUp same m k)).
Proof.
  intros H. unfold countUp. rewrite keys_mapSet.
  destruct (existsb (fun k0 => same k0 k) (map fst m)) eqn:E; [exact H|].
  apply NoDup_app. split_and!.
  - exact H.
  - intros x Hx Hk. apply list_elem_of_In in Hx. apply list_elem_of_In in Hk.
    destruct Hk as [<-|[]].
    apply existsb_same_In in Hx. congruence.
  - apply NoDup_singleton.
Qed.

Lemma positive_countUp m k :
  Forall (fun e => 1 <= snd e) m -> Forall (fun e => 1 <= snd e) (countUp same m k).
Proof.
  unfold countUp. generalize (match mapGet same m k with Some n => n | None => 0 end).
  intros n H. induction H as [|[k0 v0] m H0 H IH]; simpl.
  - constructor; [simpl; lia | constructor].
  - destruct (same k0 k); constructor; simpl in *; auto; lia.
Qed.

Lemma In_keys_countUp m k k' :
  In k' (map fst (countUp same m k)) -> In k' (map fst m) \/ k' = k.
Proof.
  unfold countUp. rewrite keys_mapSet.
  destruct (existsb _ (map fst m)); [auto|].
  intros H. apply in_app_or in H as [H|[<-|[]]]; auto.
Qed.

(** A counter that is present holds what [counted] says. *)
Lemma counted_In m k n :
  NoDup (map fst m) -> In (k, n) m -> counted same m k = n.
Proof.
  unfold counted. induction m as [|[k0 v0] m IH]; intros Hnd Hin; [destruct Hin|].
  simpl in *. apply NoDup_cons in Hnd as [Hnot Hnd'].
  destruct Hin as [E|Hin].
  - injection E as -> ->. rewrite same_refl. reflexivity.
  - destruct (same k0 k) eqn:E.
    + apply same_spec in E as ->. exfalso. apply Hnot.
      apply list_elem_of_In, List.in_map_iff. exists (k, n). auto.
    + apply IH; assumption.
Qed.

End Counters.

Lemma sameKey_spec a b : sameKey a b = true <-> a = b.
Proof.
  destruct a as [x|], b as [y|]; simpl; try (split; congruence).
  rewrite String.eqb_eq. split; congruence.
Qed.

Lemma sameSeverity_spec a b : sameSeverity a b = true <-> a = b.
Proof. destruct a, b; simpl; split; congruence. Qed.

(** The two maps after the loop over any list of issues. *)
Lemma fold_tally found : forall maps,
  let maps' := fold_left tally found maps in
  (forall key,
      counted sameKey (fst maps') key
      = counted sameKey (fst maps) key
        + length (List.filter (fun i => sameKey (categoryOf (description i)) key) found))
  /\ (forall s,
         counted sameSeverity (snd maps') s
         = counted sameSeverity (snd maps) s
           + length (List.filter (fun i => sameSeverity (severity i) s) found))
  /\ (NoDup (map fst (fst maps)) -> NoDup (map fst (fst maps')))
  /\ (NoDup (map fst (snd maps)) -> NoDup (map fst (snd maps')))
  /\ (Forall (fun e => 1 <= snd e) (fst maps) -> Forall (fun e => 1 <= snd e) (fst maps'))
  /\ (Forall (fun e => 1 <= snd e) (snd maps) -> Forall (fun e => 1 <= snd e) (snd maps'))
  /\ (forall key, In key (map fst (fst maps')) ->
                  In key (map fst (fst maps))
                  \/ exists i, In i found /\ key = categoryOf (description i)).
Proof.
  induction found as [|i found IH]; intros maps; cbv zeta.
  - simpl. split_and!; auto; intros; lia.
  - simpl fold_left. destruct (IH (tally maps i)) as (H1 & H2 & H3 & H4 & H5 & H6 & H7).
    cbv zeta in *. split_and!.
    + intros key. rewrite H1. simpl fst.
      rewrite (counted_countUp sameKey sameKey_spec). simpl.
      destruct (sameKey (categoryOf (description i)) key); simpl; lia.
    + intros s. rewrite H2. simpl snd.
      rewrite (counted_countUp sameSeverity sameSeverity_spec). simpl.
      destruct (sameSeverity (severity i) s); simpl; lia.
    + intros Hnd. apply H3. simpl. apply (NoDup_countUp sameKey sameKey_spec), Hnd.
    + intros Hnd. apply H4. simpl.
      apply (NoDup_countUp sameSeverity sameSeverity_spec), Hnd.
    + intros Hp. apply H5. simpl. apply positive_countUp, Hp.
    + intros Hp. apply H6. simpl. apply positive_countUp, Hp.
    + intros key Hk. apply H7 in Hk as [Hk|(j & Hj & ->)].
      * simpl in Hk. apply In_keys_countUp in Hk as [Hk| ->]; [auto|].
        right. exists i. simpl. auto.
      * right. exists j. simpl. auto.
Qed.

(** X12.  The summary counts every issue once in each map: the count
    under a severity is the number of issues with that severity, the
    count under a key is the number of issues whose description gives
    that key, absent keys standing for 0; no key appears twice, no
    count is 0, and [totalIssues] is the number of issues returned. *)
Theorem summary_counts_every_issue_once (self : t) (code : string) :
  let a := snd (analyzeSensitiveLogging self code) in
  issues a = snd (checkLoggingSensitivity self code)
  /\ totalIssues a = length (issues a)
  /\ (forall s, counted sameSeverity (issuesBySeverity a) s
                = length (List.filter (fun i => sameSeverity (severity i) s) (issues a)))
  /\ (forall key, counted sameKey (issuesByCategory a) key
                  = length (List.filter
                              (fun i => sameKey (categoryOf (description i)) key)
                              (issues a)))
  /\ NoDup (map fst (issuesBySeverity a))
  /\ NoDup (map fst (issuesByCategory a))
  /\ Forall (fun e => 1 <= snd e) (issuesBySeverity a)
  /\ Forall (fun e => 1 <= snd e) (issuesByCategory a).
Proof.
  cbv zeta. unfold analyzeSensitiveLogging.
  destruct (checkLoggingSensitivity self code) as [self' found]. simpl.
  destruct (fold_tally found ([], [])) as (H1 & H2 & H3 & H4 & H5 & H6 & _).
  cbv zeta in *. simpl in *.
  split_and!; auto.
  - apply H4. apply NoDup_nil_2.
  - apply H3. apply NoDup_nil_2.
Qed.

(** *** The keys of [issuesByCategory] *)

Lemma chars_append (a b : string) : chars (a +:+ b) = chars a ++ chars b.
Proof. induction a as [|c a IH]; simpl; [reflexivity | now rewrite IH]. Qed.

Lemma ofChars_chars (s : string) : ofChars (chars s) = s.
Proof. apply string_of_list_ascii_of_string. Qed.

(** The lazy [.*?] followed by a colon stops at the first colon. *)
Lemma lazy_dots_stop_at_colon (k : mstate -> option mstate) (tail : list ascii) :
  (forall p c s, c <> ":"%char -> k (MState p (c :: s) []) = None) ->
  (forall p, k (MState p (":"%char :: tail) []) <> None) ->
  forall d fuel p,
    forallb (fun c => negb (Ascii.eqb c ":") && negb (isLineTerminator c)) d = true ->
    length d <= fuel ->
    exists p',
      repeatMatcher (rmatch false RDot) [] false k fuel 0 None
                    (MState p (d ++ ":"%char :: tail) [])
      = k (MState p' (":"%char :: tail) []).
Proof.
  intros Hk Hcolon d. induction d as [|c d IH]; intros fuel p Hd Hf.
  - exists p. rewrite repeatMatcher_eq. cbv zeta.
    change (negb (Nat.eqb 0 0)) with false. cbv iota. cbn [app].
    specialize (Hcolon p).
    destruct (k (MState p (":"%char :: tail) [])); [reflexivity | contradiction].
  - cbn [forallb] in Hd. apply andb_true_iff in Hd as [Hc Hd].
    apply andb_true_iff in Hc as [Hne Hlt].
    apply negb_true_iff in Hne, Hlt.
    destruct fuel as [|f]; [simpl in Hf; lia|].
    destruct (IH f (Some c) Hd ltac:(simpl in Hf; lia)) as (p' & Hp').
    exists p'. rewrite <- Hp'.
    rewrite repeatMatcher_eq. cbv zeta.
    change (negb (Nat.eqb 0 0)) with false. cbv iota.
    rewrite <- app_comm_cons.
    rewrite (Hk p c (d ++ ":"%char :: tail)) by (apply Ascii.eqb_neq; exact Hne).
    cbn [orElseM]. unfold clearCaps. cbn [prev rest caps List.filter rmatch].
    rewrite Hlt. unfold advance, roundCont. cbn [rest caps length].
    replace (Nat.eqb (length (d ++ ":"%char :: tail)) (S (length (d ++ ":"%char :: tail))))
      with false by (symmetry; apply Nat.eqb_neq; lia).
    rewrite andb_false_r. reflexivity.
Qed.

Lemma categoryOf_plain (d more : string) :
  plain d = true -> categoryOf (d +:+ ":" +:+ more) = Some d.
Proof.
  intros Hd. unfold categoryOf, exec.
  change (regexLiteral "^(.*?):" false false)
    with (mkRegExp (RSeq RStart (RSeq (RGroup 1 (RQuant 0 None false RDot))
                                      (RSet false [AChar ":"])))
                   false false 0).
  cbn [global ignoreCase source lastIndex seek].
  rewrite chars_append. change (chars (":" +:+ more)) with (":"%char :: chars more).
  set (input := chars d ++ ":"%char :: chars more).
  set (st0 := MState None input []).
  assert (Hm : rmatch false (RSeq RStart (RSeq (RGroup 1 (RQuant 0 None false RDot))
                                               (RSet false [AChar ":"])))
                      Some st0
               = Some (MState (Some ":"%char) (chars more) [(1, chars d)])).
  { assert (Hlen : length input - length (":"%char :: chars more) = length (chars d)).
    { unfold input. rewrite length_app. simpl. lia. }
    assert (Hcut : firstn (length (chars d)) input = chars d).
    { unfold input. rewrite firstn_app, Nat.sub_diag, firstn_all. simpl.
      apply app_nil_r. }
    change (repeatMatcher (rmatch false RDot) [] false
                          (fun st' => rmatch false (RSet false [AChar ":"]) Some
                                             (setCap 1 (consumed st0 st') st'))
                          (0 + length input) 0 None
                          (MState None (chars d ++ ":"%char :: chars more) [])
            = Some (MState (Some ":"%char) (chars more) [(1, chars d)])).
    edestruct (lazy_dots_stop_at_colon
                 (fun st' => rmatch false (RSet false [AChar ":"]) Some
                               (setCap 1 (consumed st0 st') st'))
                 (chars more)) as (p' & ->).
    - intros p c s Hc. cbn [rmatch rest setCap].
      replace (xorb false (inSet false [AChar ":"] c)) with false; [reflexivity|].
      unfold inSet, sameChar. cbn [existsb members].
      destruct (Ascii.eqb ":" c) eqn:E; [|reflexivity].
      apply Ascii.eqb_eq in E. congruence.
    - intros p. cbn [rmatch rest setCap]. discriminate.
    - exact Hd.
    - unfold input. rewrite length_app. simpl. lia.
    - cbn [rmatch rest setCap]. unfold consumed, advance, st0, dropCap.
      cbn [rest caps prev List.filter].
      change (xorb false (inSet false [AChar ":"] ":")) with true. cbv iota.
      fold input. rewrite Hlen, Hcut. reflexivity. }
  assert (Hs : searchFrom false (RSeq RStart (RSeq (RGroup 1 (RQuant 0 None false RDot))
                                                   (RSet false [AChar ":"])))
                          None input 0
               = Some (0, st0, MState (Some ":"%char) (chars more) [(1, chars d)])).
  { unfold input in *. destruct (chars d ++ ":"%char :: chars more) eqn:E;
      cbn [searchFrom]; fold st0; unfold st0 in *; rewrite Hm; reflexivity. }
  rewrite Hs. simpl. rewrite ofChars_chars. reflexivity.
Qed.

Lemma checkLoggingSensitivity_In (self : t) code i :
  In i (snd (checkLoggingSensitivity self code)) ->
  exists p m, In p (sensitiveMethodPatterns self) /\ i = issueOf p (lineNumber i) m.
Proof.
  intros H. destruct (checkLines_spec (splitLines code) self 0) as [_ Hsub].
  apply list_elem_of_In in H.
  apply (elem_of_sublist _ _ _ H) in Hsub. apply list_elem_of_In in Hsub.
  apply loggingLines_In in Hsub as (k & line & _ & _ & Hi).
  apply catalogIssues_In in Hi as (p & m & Hp & _ & ->).
  exists p, m. split; [exact Hp | reflexivity].
Qed.

(** X13.  The keys of [issuesByCategory] are not categories: when no
    description of the catalog holds a colon or a line break, as in
    the catalog of the source, every key is the description of a
    catalog entry, the text before the first colon of the issue's
    description. *)
Theorem category_keys_are_catalog_descriptions (self : t) (code : string) :
  forallb (fun p => plain (sp_description p)) (sensitiveMethodPatterns self) = true ->
  Forall (fun entry =>
            exists p, In p (sensitiveMethodPatterns self)
                      /\ fst entry = Some (sp_description p))
         (issuesByCategory (snd (analyzeSensitiveLogging self code))).
Proof.
  intros Hplain. rewrite forallb_forall in Hplain.
  unfold analyzeSensitiveLogging.
  pose proof (checkLoggingSensitivity_In self code) as Hfrom.
  destruct (checkLoggingSensitivity self code) as [self' found]. simpl in *.
  destruct (fold_tally found ([], [])) as (_ & _ & _ & _ & _ & _ & Hkeys).
  cbv zeta in Hkeys. apply List.Forall_forall. intros [key n] Hin.
  destruct (Hkeys key) as [[]|(i & Hi & ->)].
  { apply List.in_map_iff. exists (key, n). auto. }
  destruct (Hfrom i Hi) as (p & m & Hp & ->).
  exists p. split; [exact Hp|]. simpl.
  apply (categoryOf_plain (sp_description p) (" " +:+ dq +:+ m +:+ dq)).
  apply Hplain, Hp.
Qed.

Lemma category_keys_are_catalog_descriptions_witness :
  Forall (fun entry =>
            exists p, In p (sensitiveMethodPatterns create)
                      /\ fst entry = Some (sp_description p))
         (issuesByCategory (snd (analyzeSensitiveLogging create printlnLine))).
Proof.
  exact (category_keys_are_catalog_descriptions create printlnLine eq_refl).
Defined.

Lemma summary_of_a_password_line :
  issuesByCategory (snd (analyzeSensitiveLogging create printlnLine))
  = [(Some "Password/secret data is being logged - security risk", 1)]
  /\ issuesBySeverity (snd (analyzeSensitiveLogging create printlnLine)) = [(High, 1)].
Proof. vm_compute. split; reflexivity. Qed.

End SummaryFacts.


(** ** The suggestion cache, further *)

Module SuggestionMore.
Import JsString JsRegExp Runtime Types AISuggestionHandler Notions Examples
       SuggestionFacts SuggestionStats.

Section Generate.
Context {W : Type}.
Variable contextStep : VulnerabilityIssue -> W -> W * option string.
Variable synthesisStep : VulnerabilityIssue -> string -> W -> W * option string.

Lemma tryGenerate_description v key w s :
  snd (tryGenerate contextStep synthesisStep v key w) = Some s ->
  issueDescription s = description v /\ s_lineNumber s = lineNumber v.
Proof.
  unfold tryGenerate. destruct (contextStep v w) as [w1 [c|]]; [|discriminate].
  destruct (synthesisStep v c w1) as [w2 [a|]]; [|discriminate].
  simpl. intros [= <-]. split; reflexivity.
Qed.

(** X14.  The key does not hold the description but a 32-bit hash of
    it: when two issues get the same key and the first is not cached,
    the second is served the suggestion made for the first, which
    carries the first issue's description. *)
Theorem colliding_keys_share_a_suggestion (st : State W) (v v' : VulnerabilityIssue) :
  getSuggestionKey v = getSuggestionKey v' ->
  getSuggestion st (getSuggestionKey v) = None ->
  exists s,
    snd (generateSuggestionsWith contextStep synthesisStep st [v; v']) = [s; s]
    /\ issueDescription s = description v
    /\ s_lineNumber s = lineNumber v.
Proof.
  intros Hkey Hmiss.
  rewrite gen_cons. cbv zeta. rewrite gen_cons. cbv zeta.
  rewrite (generateOne_miss contextStep synthesisStep st v Hmiss). cbv zeta.
  pose proof (tryGenerate_description v (getSuggestionKey v) (world st)) as Hd.
  destruct (tryGenerate contextStep synthesisStep v (getSuggestionKey v) (world st))
    as [w' res].
  cbn [fst snd] in *.
  set (s := match res with
            | Some s0 => s0
            | None => fallbackSuggestion v (getSuggestionKey v)
            end).
  rewrite (generateOne_hit contextStep synthesisStep _ v' s).
  - exists s. split; [reflexivity|].
    subst s. destruct res as [s0|]; [apply Hd; reflexivity | split; reflexivity].
  - unfold getSuggestion. cbn [suggestionCache]. rewrite <- Hkey.
    apply lookup_insert_eq.
Qed.

Lemma generateOne_keys (st : State W) v :
  let st' := fst (generateOne contextStep synthesisStep st v) in
  dom (suggestionCache st') = dom (suggestionCache st) ∪ {[ getSuggestionKey v ]}
  /\ size (suggestionCache st) <= size (suggestionCache st')
     <= size (suggestionCache st) + 1.
Proof.
  cbv zeta.
  destruct (getSuggestion st (getSuggestionKey v)) as [s|] eqn:Hc.
  - rewrite (generateOne_hit _ _ st v s Hc). cbn [fst]. split; [|lia].
    assert (Hin : getSuggestionKey v ∈ dom (suggestionCache st)).
    { apply elem_of_dom. exists s. exact Hc. }
    apply set_eq. intros k. rewrite elem_of_union, elem_of_singleton.
    split; [auto|]. intros [Hk| ->]; assumption.
  - rewrite (generateOne_miss _ _ st v Hc). cbv zeta. cbn [fst suggestionCache].
    split.
    + rewrite dom_insert_L. apply set_eq. intros k.
      rewrite !elem_of_union, elem_of_singleton. tauto.
    + unfold getSuggestion in Hc. rewrite map_size_insert_None by exact Hc. lia.
Qed.

(** X15.  After a call the cache holds exactly the keys it held before
    and the keys of the issues processed; entries that were there are
    neither replaced nor removed, and the count reported by
    [getCacheStats] grows by at most the number of issues. *)
Theorem cache_holds_old_and_new_keys (st : State W) (l : list VulnerabilityIssue) :
  let st' := fst (generateSuggestionsWith contextStep synthesisStep st l) in
  dom (suggestionCache st')
  = dom (suggestionCache st) ∪ list_to_set (map getSuggestionKey l)
  /\ grows st st'
  /\ fst (getCacheStats st) <= fst (getCacheStats st')
     <= fst (getCacheStats st) + length l.
Proof.
  cbv zeta. unfold getCacheStats. cbn [fst].
  split; [|split; [apply (gen_spec contextStep synthesisStep l st)|]].
  - revert st. induction l as [|v l IH]; intros st.
    + simpl. apply set_eq. intros k. rewrite elem_of_union, elem_of_empty. tauto.
    + rewrite gen_cons. cbv zeta. cbn [fst map list_to_set].
      rewrite IH. destruct (generateOne_keys st v) as [-> _].
      apply set_eq. intros k. rewrite !elem_of_union. tauto.
  - revert st. induction l as [|v l IH]; intros st.
    + simpl. lia.
    + rewrite gen_cons. cbv zeta. cbn [fst length].
      destruct (generateOne_keys st v) as [_ Hone].
      specialize (IH (fst (generateOne contextStep synthesisStep st v))). lia.
Qed.

End Generate.

Lemma colliding_keys_share_a_suggestion_witness :
  exists s,
    snd (generateSuggestions openDocument [collidingA; collidingB]) = [s; s]
    /\ issueDescription s = "Aa"
    /\ s_lineNumber s = 3.
Proof.
  refine (colliding_keys_share_a_suggestion
            (fun v ed => (ed, Some (getCodeContext v ed)))
            (fun v originalCode ed => (ed, Some (generateRuleBasedSuggestion v originalCode)))
            openDocument collidingA collidingB _ _).
  - vm_compute. reflexivity.
  - reflexivity.
Defined.

(** *** The hash *)

Lemma hash_range (cs : list ascii) : forall h,
  (- 2 ^ 31 <= h < 2 ^ 31)%Z -> (- 2 ^ 31 <= fold_left hashStep cs h < 2 ^ 31)%Z.
Proof.
  induction cs as [|c cs IH]; intros h Hh; simpl; [exact Hh|].
  apply IH. unfold hashStep. apply toInt32_range.
Qed.

(** X16.  [hashString] gives the decimal text of a number between 0 and
    2^31, both included, and 0 for the empty string. *)
Theorem hashString_is_a_small_number (str : string) :
  (exists n, (0 <= n <= 2 ^ 31)%Z /\ hashString str = ofZ n)
  /\ hashString EmptyString = "0".
Proof.
  split; [|reflexivity].
  exists (Z.abs (fold_left hashStep (chars str) 0%Z)). split; [|reflexivity].
  pose proof (hash_range (chars str) 0%Z ltac:(lia)). lia.
Qed.

(** *** Fixes that change nothing *)

Lemma replace_no_match (code : string) (R : RegExp) (template : string) :
  snd (exec R code) = None -> snd (replace code R template) = code.
Proof.
  unfold replace. destruct (exec R code) as [R' [mr|]]; simpl; [discriminate|].
  reflexivity.
Qed.

(** X17.  For an SQL-injection issue, and for a logging issue, the
    generated code is the original code unchanged whenever that code
    does not hold the statement the rule rewrites. *)
Theorem rule_based_fix_can_be_the_original_code
        (v : VulnerabilityIssue) (originalCode : string) :
  let d := toLowerCase (description v) in
  (includes d "sql injection" = true
   /\ snd (exec statementPattern originalCode) = None)
  \/ (includes d "sql injection" = false /\ includes d "hardcoded" = false
      /\ includes d "logging" = true
      /\ snd (exec logCallPattern originalCode) = None) ->
  generateRuleBasedSuggestion v originalCode = originalCode.
Proof.
  cbv zeta. unfold generateRuleBasedSuggestion.
  intros [[Hsql Hno]|(Hsql & Hhard & Hlog & Hno)]; rewrite Hsql.
  - apply replace_no_match. exact Hno.
  - rewrite Hhard, Hlog. apply replace_no_match. exact Hno.
Qed.

(** With no editor open the code context is an error text, and that
    text becomes the generated code of the suggestion. *)
Lemma rule_based_fix_can_be_the_original_code_witness :
  generateRuleBasedSuggestion sqlIssue (getCodeContext sqlIssue NoEditor)
  = "Unable to retrieve code context".
Proof.
  refine (rule_based_fix_can_be_the_original_code
            sqlIssue (getCodeContext sqlIssue NoEditor) _).
  left. split; vm_compute; reflexivity.
Defined.

Lemma suggestion_without_editor :
  map aiGeneratedCode (snd (generateSuggestions noEditor [sqlIssue]))
  = ["Unable to retrieve code context"].
Proof. vm_compute. reflexivity. Qed.

End SuggestionMore.


(** ** Code actions *)

Module ReplaceFacts.
Import JsString JsRegExp Runtime Types Notions JsRegExpFacts Measure MeasureFacts
       SearchFacts SummaryFacts JsReplace CodeActionNotions.

Lemma chars_ofChars (l : list ascii) : chars (ofChars l) = l.
Proof. apply list_ascii_of_string_of_list_ascii. Qed.

Lemma clearCaps_nil x : clearCaps [] x = x.
Proof.
  destruct x as [p s cs]. unfold clearCaps. simpl. f_equal.
  induction cs as [|c cs IH]; simpl; [reflexivity | now rewrite IH].
Qed.

(** One round of a quantified character set. *)
Lemma set_round ic inv atoms (d : mstate -> option mstate) x res :
  rmatch ic (RSet inv atoms) d x = Some res ->
  exists c s', rest x = c :: s'
               /\ xorb inv (inSet ic atoms c) = true
               /\ d (MState (Some c) s' (caps x)) = Some res.
Proof.
  simpl. destruct (rest x) as [|c s']; [discriminate|].
  destruct (xorb inv (inSet ic atoms c)) eqn:E; [|discriminate].
  intros H. exists c, s'. auto.
Qed.

Lemma orElseM_some a b r :
  orElseM a b = Some r -> a = Some r \/ b tt = Some r.
Proof. destruct a; simpl; intros H; [left | right]; congruence. Qed.

(** What a quantified character set hands to its continuation: the
    state after a run of units of the set, at least [min] of them when
    there is no upper bound, with the captures untouched. *)
Lemma repeat_set_run ic inv atoms greedy k : forall fuel min max x res,
  repeatMatcher (rmatch ic (RSet inv atoms)) [] greedy k fuel min max x = Some res ->
  exists w y,
    k y = Some res
    /\ rest x = w ++ rest y
    /\ Forall (fun c => xorb inv (inSet ic atoms c) = true) w
    /\ caps y = caps x
    /\ (max = None -> min <= length w).
Proof.
  induction fuel as [|f IH]; intros min max x res H; rewrite repeatMatcher_eq in H.
  - assert (Hm : rmatch ic (RSet inv atoms)
                        (roundCont (rmatch ic (RSet inv atoms)) [] greedy k 0 min max x)
                        (clearCaps [] x) = Some res -> False).
    { intros Hr. apply set_round in Hr as (c & s' & _ & _ & Hd).
      unfold roundCont in Hd. destruct (_ && _); discriminate. }
    assert (Hk : k x = Some res -> (max = None -> min = 0) -> exists w y,
                 k y = Some res /\ rest x = w ++ rest y
                 /\ Forall (fun c => xorb inv (inSet ic atoms c) = true) w
                 /\ caps y = caps x /\ (max = None -> min <= length w)).
    { intros Hx Hmin. exists [], x. split_and!; auto.
      intros E. rewrite (Hmin E). simpl. lia. }
    cbv zeta in H.
    assert (Hbody :
              (if negb (Nat.eqb min 0)
               then rmatch ic (RSet inv atoms)
                           (roundCont (rmatch ic (RSet inv atoms)) [] greedy k 0 min max x)
                           (clearCaps [] x)
               else if greedy
                    then orElseM (rmatch ic (RSet inv atoms)
                                         (roundCont (rmatch ic (RSet inv atoms)) []
                                                    greedy k 0 min max x)
                                         (clearCaps [] x))
                                 (fun _ => k x)
                    else orElseM (k x)
                                 (fun _ => rmatch ic (RSet inv atoms)
                                                  (roundCont (rmatch ic (RSet inv atoms)) []
                                                             greedy k 0 min max x)
                                                  (clearCaps [] x))) = Some res ->
              exists w y,
                k y = Some res /\ rest x = w ++ rest y
                /\ Forall (fun c => xorb inv (inSet ic atoms c) = true) w
                /\ caps y = caps x /\ (max = None -> min <= length w)).
    { destruct min as [|min]; cbn [Nat.eqb negb]; intros Hb.
      - destruct greedy; apply orElseM_some in Hb as [Hb|Hb];
          try (destruct (Hm Hb)); apply Hk; auto.
      - destruct (Hm Hb). }
    destruct max as [[|mx]|]; [apply Hk; [exact H | discriminate] | |];
      apply Hbody, H.
  - assert (Hm : rmatch ic (RSet inv atoms)
                        (roundCont (rmatch ic (RSet inv atoms)) [] greedy k (S f) min max x)
                        (clearCaps [] x) = Some res ->
                 exists w y,
                   k y = Some res /\ rest x = w ++ rest y
                   /\ Forall (fun c => xorb inv (inSet ic atoms c) = true) w
                   /\ caps y = caps x /\ (max = None -> min <= length w)).
    { intros Hr. apply set_round in Hr as (c & s' & Hrest & Hc & Hd).
      rewrite clearCaps_nil in Hrest, Hd.
      unfold roundCont in Hd. destruct (_ && _); [discriminate|].
      apply IH in Hd as (w & y & Hy & Hw & Hall & Hcaps & Hlen).
      simpl in Hw, Hcaps. exists (c :: w), y. split_and!; auto.
      - rewrite Hrest, Hw. reflexivity.
      - intros ->. specialize (Hlen eq_refl). simpl. lia. }
    assert (Hk : k x = Some res -> (max = None -> min = 0) -> exists w y,
                 k y = Some res /\ rest x = w ++ rest y
                 /\ Forall (fun c => xorb inv (inSet ic atoms c) = true) w
                 /\ caps y = caps x /\ (max = None -> min <= length w)).
    { intros Hx Hmin. exists [], x. split_and!; auto.
      intros E. rewrite (Hmin E). simpl. lia. }
    cbv zeta in H.
    assert (Hbody :
              (if negb (Nat.eqb min 0)
               then rmatch ic (RSet inv atoms)
                           (roundCont (rmatch ic (RSet inv atoms)) [] greedy k (S f)
                                      min max x)
                           (clearCaps [] x)
               else if greedy
                    then orElseM (rmatch ic (RSet inv atoms)
                                         (roundCont (rmatch ic (RSet inv atoms)) []
                                                    greedy k (S f) min max x)
                                         (clearCaps [] x))
                                 (fun _ => k x)
                    else orElseM (k x)
                                 (fun _ => rmatch ic (RSet inv atoms)
                                                  (roundCont (rmatch ic (RSet inv atoms)) []
                                                             greedy k (S f) min max x)
                                                  (clearCaps [] x))) = Some res ->
              exists w y,
                k y = Some res /\ rest x = w ++ rest y
                /\ Forall (fun c => xorb inv (inSet ic atoms c) = true) w
                /\ caps y = caps x /\ (max = None -> min <= length w)).
    { destruct min as [|min]; cbn [Nat.eqb negb]; intros Hb.
      - destruct greedy; apply orElseM_some in Hb as [Hb|Hb]; auto.
      - auto. }
    destruct max as [[|mx]|]; [apply Hk; [exact H | discriminate] | |];
      apply Hbody, H.
Qed.

Lemma seq_set_round ic inv atoms r2 (k : mstate -> option mstate) x res :
  rmatch ic (RSeq (RSet inv atoms) r2) k x = Some res ->
  exists c s', rest x = c :: s'
               /\ rmatch ic r2 k (MState (Some c) s' (caps x)) = Some res.
Proof.
  intros H. destruct (set_round ic inv atoms (rmatch ic r2 k) x res H)
    as (c & s' & Hr & _ & Hk).
  eauto.
Qed.

Lemma consumed_app w (x y : mstate) :
  rest x = w ++ rest y -> consumed x y = w.
Proof.
  intros H. unfold consumed. rewrite H, length_app.
  replace (length w + length (rest y) - length (rest y)) with (length w) by lia.
  rewrite firstn_app, Nat.sub_diag, firstn_all. simpl. apply app_nil_r.
Qed.

Lemma word_set c : xorb false (inSet false [AWord] c) = true -> isWordChar c = true.
Proof.
  unfold inSet, isWordChar, sameChar. cbn [existsb members xorb].
  rewrite orb_false_r. trivial.
Qed.

Lemma literal_set (a c : ascii) :
  xorb false (inSet false [AChar a] c) = Ascii.eqb a c.
Proof.
  unfold inSet, sameChar. cbn [existsb members xorb]. rewrite !orb_false_r. reflexivity.
Qed.

Lemma word_set_eq (c : ascii) : xorb false (inSet false [AWord] c) = isWordChar c.
Proof.
  unfold inSet, isWordChar, sameChar. cbn [existsb members xorb].
  rewrite orb_false_r. reflexivity.
Qed.

Lemma literal_round (a : ascii) r2 (k : mstate -> option mstate) p s cs :
  rmatch false (RSeq (RSet false [AChar a]) r2) k (MState p (a :: s) cs)
  = rmatch false r2 k (MState (Some a) s cs).
Proof.
  cbn [rmatch rest]. rewrite literal_set, (proj2 (Ascii.eqb_eq a a) eq_refl).
  reflexivity.
Qed.

Lemma literal_round_inv (a : ascii) r2 (k : mstate -> option mstate) x res :
  rmatch false (RSeq (RSet false [AChar a]) r2) k x = Some res ->
  exists s', rest x = a :: s'
             /\ rmatch false r2 k (MState (Some a) s' (caps x)) = Some res.
Proof.
  intros H. destruct (set_round false false [AChar a] (rmatch false r2 k) x res H)
    as (c & s' & Hr & Hc & Hk).
  rewrite literal_set in Hc. apply Ascii.eqb_eq in Hc. subst c. eauto.
Qed.

(** A greedy run of word characters followed by something else takes
    the whole run when the continuation accepts it there. *)
Lemma greedy_word_run (k : mstate -> option mstate) (post : list ascii)
      (cs : list (nat * list ascii)) (res : mstate) :
  match post with c :: _ => isWordChar c = false | [] => True end ->
  forall w fuel min p,
    Forall (fun c => isWordChar c = true) w ->
    min <= length w -> length w <= fuel ->
    k (MState (fold_left (fun _ c => Some c) w p) post cs) = Some res ->
    repeatMatcher (rmatch false (RSet false [AWord])) [] true k fuel min None
                  (MState p (w ++ post) cs)
    = Some res.
Proof.
  intros Hpost. induction w as [|c w IH]; intros fuel min p Hw Hmin Hfuel Hk.
  - simpl in Hmin. assert (min = 0) as -> by lia.
    rewrite repeatMatcher_eq. cbv zeta. cbn [Nat.eqb negb app fold_left] in *.
    rewrite clearCaps_nil.
    assert (Hround : forall d, rmatch false (RSet false [AWord]) d (MState p post cs) = None).
    { intros d. cbn [rmatch rest]. destruct post as [|c post]; [reflexivity|].
      rewrite word_set_eq, Hpost. reflexivity. }
    rewrite Hround. exact Hk.
  - inversion Hw as [|? ? Hc Hw']; subst.
    destruct fuel as [|f]; [simpl in Hfuel; lia|].
    rewrite repeatMatcher_eq. cbv zeta. rewrite clearCaps_nil.
    assert (Hround :
              rmatch false (RSet false [AWord])
                     (roundCont (rmatch false (RSet false [AWord])) [] true k (S f) min None
                                (MState p ((c :: w) ++ post) cs))
                     (MState p ((c :: w) ++ post) cs)
              = Some res).
    { cbn [rmatch rest app]. rewrite word_set_eq, Hc.
      unfold roundCont, advance. cbn [rest caps length].
      replace (Nat.eqb (length (w ++ post)) (S (length (w ++ post)))) with false
        by (symmetry; apply Nat.eqb_neq; lia).
      rewrite andb_false_r. cbn [decMax].
      apply IH; [exact Hw' | simpl in Hmin; lia | simpl in Hfuel; lia | exact Hk]. }
    rewrite Hround. destruct (negb (Nat.eqb min 0)); reflexivity.
Qed.

Lemma constant_literal :
  regexLiteral "Constant '(\w+)'" false false = mkRegExp constantPattern false false 0.
Proof. vm_compute. reflexivity. Qed.

(** Where the pattern matches, the text reads as the pattern says,
    and group 1 holds the name. *)
Lemma constantPattern_sound (p : option ascii) (s : list ascii) (st' : mstate) :
  rmatch false constantPattern Some (MState p s []) = Some st' ->
  exists w post,
    s = chars "Constant '" ++ w ++ "'"%char :: post
    /\ w <> []
    /\ Forall (fun c => isWordChar c = true) w
    /\ List.find (fun g => Nat.eqb (fst g) 1) (caps st') = Some (1, w).
Proof.
  unfold constantPattern. intros Hm.
  apply literal_round_inv in Hm as (s1 & E1 & Hm). cbn [rest caps] in E1, Hm.
  apply literal_round_inv in Hm as (s2 & E2 & Hm). cbn [rest caps] in E2, Hm.
  apply literal_round_inv in Hm as (s3 & E3 & Hm). cbn [rest caps] in E3, Hm.
  apply literal_round_inv in Hm as (s4 & E4 & Hm). cbn [rest caps] in E4, Hm.
  apply literal_round_inv in Hm as (s5 & E5 & Hm). cbn [rest caps] in E5, Hm.
  apply literal_round_inv in Hm as (s6 & E6 & Hm). cbn [rest caps] in E6, Hm.
  apply literal_round_inv in Hm as (s7 & E7 & Hm). cbn [rest caps] in E7, Hm.
  apply literal_round_inv in Hm as (s8 & E8 & Hm). cbn [rest caps] in E8, Hm.
  apply literal_round_inv in Hm as (s9 & E9 & Hm). cbn [rest caps] in E9, Hm.
  apply literal_round_inv in Hm as (s10 & E10 & Hm). cbn [rest caps] in E10, Hm.
  subst s s1 s2 s3 s4 s5 s6 s7 s8 s9.
  match type of Hm with
  | rmatch _ _ _ ?x = _ => set (start := x) in Hm
  end.
  change (repeatMatcher (rmatch false (RSet false [AWord])) [] true
                        (fun st1 => rmatch false (RSet false [AChar "'"]) Some
                                           (setCap 1 (consumed start st1) st1))
                        (1 + length (rest start)) 1 None start = Some st') in Hm.
  apply repeat_set_run in Hm as (w & y & Hk & Hw & Hall & Hcy & Hlen).
  apply set_round in Hk as (c & post & Hry & Hc & Hk).
  rewrite literal_set in Hc. apply Ascii.eqb_eq in Hc. subst c.
  injection Hk as <-. cbn [caps setCap rest] in *.
  rewrite (consumed_app w start y Hw). rewrite Hry in Hw. simpl in Hw.
  exists w, post. split_and!.
  - simpl. rewrite Hw. reflexivity.
  - specialize (Hlen eq_refl). destruct w; [simpl in Hlen; lia | discriminate].
  - eapply List.Forall_impl; [|exact Hall]. intros a Ha. apply word_set, Ha.
  - reflexivity.
Qed.

(** Where the text reads as the pattern says, the pattern matches and
    group 1 holds the name. *)
Lemma constantPattern_complete (p : option ascii) (w post : list ascii) :
  w <> [] -> Forall (fun c => isWordChar c = true) w ->
  exists st',
    rmatch false constantPattern Some
           (MState p (chars "Constant '" ++ w ++ "'"%char :: post) []) = Some st'
    /\ List.find (fun g => Nat.eqb (fst g) 1) (caps st') = Some (1, w).
Proof.
  intros Hne Hw. unfold constantPattern. cbn [chars list_ascii_of_string app].
  rewrite !literal_round.
  set (start := MState (Some "'"%char) (w ++ "'"%char :: post) []).
  set (after := MState (fold_left (fun _ c => Some c) w (Some "'"%char))
                       ("'"%char :: post) []).
  exists (MState (Some "'"%char) post [(1, w)]). split; [|reflexivity].
  change (repeatMatcher (rmatch false (RSet false [AWord])) [] true
                        (fun st1 => rmatch false (RSet false [AChar "'"]) Some
                                           (setCap 1 (consumed start st1) st1))
                        (1 + length (rest start)) 1 None start
          = Some (MState (Some "'"%char) post [(1, w)])).
  apply greedy_word_run.
  - reflexivity.
  - exact Hw.
  - destruct w; [congruence | simpl; lia].
  - cbn [rest start]. rewrite length_app. lia.
  - fold after. rewrite (consumed_app w start after) by reflexivity.
    cbn [rmatch rest setCap after]. rewrite literal_set. reflexivity.
Qed.

Lemma word_run_unique (w : list ascii) : forall w' post post',
  Forall (fun c => isWordChar c = true) w ->
  Forall (fun c => isWordChar c = true) w' ->
  w ++ "'"%char :: post = w' ++ "'"%char :: post' ->
  w = w' /\ post = post'.
Proof.
  induction w as [|c w IH]; intros [|c' w'] post post' Hw Hw' E; simpl in E.
  - injection E as ->. auto.
  - injection E as <- _. inversion Hw' as [|? ? Hc _]. discriminate Hc.
  - injection E as -> _. inversion Hw as [|? ? Hc _]. discriminate Hc.
  - injection E as <- E. inversion Hw; inversion Hw'; subst.
    destruct (IH w' post post') as [-> ->]; auto.
Qed.

Lemma seek_reads n : forall p s p' s',
  seek n p s = Some (p', s') ->
  exists a, s = a ++ s' /\ length a = n /\ p' = fold_left (fun _ c => Some c) a p.
Proof.
  induction n as [|n IH]; intros p s p' s' H; simpl in H.
  - injection H as <- <-. exists []. auto.
  - destruct s as [|c s]; [discriminate|].
    apply IH in H as (a & -> & <- & ->). exists (c :: a). auto.
Qed.

Lemma seek_app (a : list ascii) : forall p s,
  seek (length a) p (a ++ s) = Some (fold_left (fun _ c => Some c) a p, s).
Proof. induction a as [|c a IH]; intros p s; simpl; [reflexivity | apply IH]. Qed.

(** A search finds the first position where the pattern matches. *)
Lemma searchFrom_leftmost ic r : forall s p i j st st',
  searchFrom ic r p s i = Some (j, st, st') ->
  forall a b, s = a ++ b -> length a < j - i ->
              rmatch ic r Some (MState (fold_left (fun _ c => Some c) a p) b []) = None.
Proof.
  induction s as [|c s IH]; intros p i j st st' H a b E Hlen; simpl in H.
  - destruct (rmatch ic r Some (MState p [] [])); [|discriminate].
    injection H as <- _ _. lia.
  - destruct (rmatch ic r Some (MState p (c :: s) [])) eqn:Hm.
    + injection H as <- _ _. lia.
    + destruct a as [|c' a]; simpl in E.
      * subst b. exact Hm.
      * injection E as <- ->. simpl.
        apply (IH (Some c) (S i) j st st' H a b eq_refl). simpl in Hlen. lia.
Qed.

(** Upper-casing leaves no unit between a and z. *)
Lemma upper_has_no_lower (c : ascii) :
  forallb (fun u => negb (inSet false [ARange "a" "z"] u)) (upperUnits c) = true.
Proof. destruct c as [[] [] [] [] [] [] [] []]; vm_compute; reflexivity. Qed.

Lemma upper_of_word (c : ascii) :
  isWordChar c = true -> length (upperUnits c) = 1.
Proof.
  destruct c as [[] [] [] [] [] [] [] []]; vm_compute; intros H;
    first [reflexivity | discriminate H].
Qed.

Lemma toUpperCase_units (cs : list ascii) :
  Forall (fun u => inSet false [ARange "a" "z"] u = false) (flat_map upperUnits cs).
Proof.
  induction cs as [|c cs IH]; simpl; [constructor|].
  apply Forall_app. split; [|exact IH].
  pose proof (upper_has_no_lower c) as H. rewrite forallb_forall in H.
  apply List.Forall_forall. intros u Hu. apply negb_true_iff, H, Hu.
Qed.

(** Without a unit between a and z, [/([a-z])([A-Z])/] matches nowhere. *)
Lemma camel_matches_nowhere (s : list ascii) : forall p i,
  Forall (fun u => inSet false [ARange "a" "z"] u = false) s ->
  searchFrom false (RSeq (RGroup 1 (RSet false [ARange "a" "z"]))
                         (RGroup 2 (RSet false [ARange "A" "Z"])))
             p s i = None.
Proof.
  induction s as [|c s IH]; intros p i H.
  - reflexivity.
  - inversion H as [|? ? Hc Hs]; subst.
    cbn [searchFrom rmatch rest]. rewrite Hc. cbn [xorb]. apply IH, Hs.
Qed.

(** The replacement that should insert the underscores finds nothing
    to replace in an upper-cased text. *)
Lemma upper_case_has_no_camel_hump (s : string) :
  snd (replaceAll (toUpperCase s) (regexLiteral "([a-z])([A-Z])" true false) "$1_$2")
  = toUpperCase s.
Proof.
  assert (Hlit : regexLiteral "([a-z])([A-Z])" true false
                 = mkRegExp (RSeq (RGroup 1 (RSet false [ARange "a" "z"]))
                                  (RGroup 2 (RSet false [ARange "A" "Z"])))
                            true false 0)
    by (vm_compute; reflexivity).
  rewrite Hlit. clear Hlit. unfold replaceAll, setLastIndex.
  cbn [execAll global lastIndex ignoreCase source].
  unfold exec. cbn [global lastIndex seek ignoreCase source].
  assert (Hu : Forall (fun u => inSet false [ARange "a" "z"] u = false)
                      (chars (toUpperCase s))).
  { unfold toUpperCase. rewrite chars_ofChars. apply toUpperCase_units. }
  rewrite (camel_matches_nowhere _ None 0 Hu).
  cbn [fold_left snd app skipn]. apply string_of_list_ascii_of_string.
Qed.

End ReplaceFacts.

Module CodeActionFacts.
Import JsString JsRegExp Runtime Types Notions JsRegExpFacts MeasureFacts SearchFacts
       IssueFacts SummaryFacts JsReplace ReplaceFacts CodeActionProvider
       CodeActionExamples CodeActionNotions.

Lemma quotesConstant_chars d pre name post :
  quotesConstant d pre name post ->
  chars d = chars pre ++ (chars "Constant '" ++ chars name ++ "'"%char :: chars post).
Proof.
  intros (-> & _ & _). rewrite !chars_append. reflexivity.
Qed.

(** What [description.match(/Constant '(\w+)'/)] finds: the first
    constant quoted in the description, or nothing when none is. *)
Lemma constant_match (d : string) :
  match snd (exec (regexLiteral "Constant '(\w+)'" false false) d) with
  | Some mr =>
      exists pre name post,
        quotesConstant d pre name post /\ firstQuoted d pre
        /\ constantNameOf mr = name
  | None => forall pre name post, ~ quotesConstant d pre name post
  end.
Proof.
  rewrite constant_literal. unfold exec.
  cbn [global ignoreCase source lastIndex seek].
  destruct (searchFrom false constantPattern None (chars d) 0)
    as [[[j st] st']|] eqn:Hf; cbn [snd].
  - pose proof (searchFrom_leftmost _ _ _ _ _ _ _ _ Hf) as Hleft.
    apply searchFrom_found in Hf as (Hm & Hcaps & Hseek & _).
    rewrite Nat.sub_0_r in Hseek, Hleft.
    apply seek_reads in Hseek as (a & Hd & Hlen & _).
    destruct st as [p s cs]. cbn [rest caps prev] in *. subst cs.
    apply constantPattern_sound in Hm as (w & post & -> & Hne & Hw & Hfind).
    exists (ofChars a), (ofChars w), (ofChars post).
    assert (Hq : quotesConstant d (ofChars a) (ofChars w) (ofChars post)).
    { split_and!.
      - rewrite <- (ofChars_chars d), Hd.
        rewrite <- (ofChars_chars (ofChars a +:+ _)).
        rewrite !chars_append, !chars_ofChars. reflexivity.
      - destruct w; [congruence | discriminate].
      - rewrite chars_ofChars. exact Hw. }
    split_and!; [exact Hq | |].
    + intros pre' name' post' Hq'.
      rewrite <- !length_chars, chars_ofChars, Hlen.
      destruct (Nat.le_gt_cases j (length (chars pre'))) as [|Hlt]; [assumption|].
      exfalso.
      pose proof (Hleft (chars pre') _ (quotesConstant_chars _ _ _ _ Hq') Hlt) as Hnone.
      destruct Hq' as (_ & Hne' & Hw').
      destruct (constantPattern_complete
                  (fold_left (fun _ c => Some c) (chars pre') None)
                  (chars name') (chars post')) as (st0 & Hsome & _);
        [destruct name'; [congruence | discriminate] | exact Hw' |].
      congruence.
    + unfold constantNameOf, capture. cbn [groups]. rewrite Hfind. reflexivity.
  - intros pre name post Hq.
    pose proof (quotesConstant_chars _ _ _ _ Hq) as Hd.
    destruct Hq as (_ & Hne & Hw).
    destruct (constantPattern_complete
                (fold_left (fun _ c => Some c) (chars pre) None)
                (chars name) (chars post)) as (st0 & Hsome & _);
      [destruct name; [congruence | discriminate] | exact Hw |].
    pose proof (searchFrom_at false constantPattern (MState _ _ []) st0
                              (0 + length (chars pre)) Hsome eq_refl) as Hat.
    cbn [prev rest] in Hat.
    destruct (searchFrom_earlier false constantPattern (length (chars pre))
                                 None (chars d) 0 _ _ _
                                 ltac:(rewrite Hd; apply seek_app) Hat) as (found & Hfound).
    congruence.
Qed.

(** The first quoted constant is one constant. *)
Lemma firstQuoted_unique d pre name post pre' name' post' :
  quotesConstant d pre name post -> firstQuoted d pre ->
  quotesConstant d pre' name' post' -> firstQuoted d pre' ->
  name = name'.
Proof.
  intros Hq Hf Hq' Hf'.
  pose proof (Hf _ _ _ Hq') as H1. pose proof (Hf' _ _ _ Hq) as H2.
  pose proof (quotesConstant_chars _ _ _ _ Hq) as Hd.
  pose proof (quotesConstant_chars _ _ _ _ Hq') as Hd'.
  rewrite Hd in Hd'. rewrite <- !length_chars in H1, H2.
  apply app_inj_1 in Hd' as [_ Hrest]; [|lia].
  apply app_inv_head in Hrest.
  destruct Hq as (_ & _ & Hw). destruct Hq' as (_ & _ & Hw').
  destruct (word_run_unique _ _ _ _ Hw Hw' Hrest) as [E _].
  rewrite <- (ofChars_chars name), <- (ofChars_chars name'), E. reflexivity.
Qed.

Lemma upper_word_length (name : string) :
  Forall (fun c => isWordChar c = true) (chars name) ->
  String.length (toUpperCase name) = String.length name.
Proof.
  intros Hword. unfold toUpperCase. rewrite <- !length_chars, chars_ofChars.
  induction Hword as [|c w Hc _ IH]; [reflexivity|].
  simpl. rewrite length_app, IH, (upper_of_word c Hc). reflexivity.
Qed.

(** X18.  The fix proposed for a constant names the first constant
    the description quotes, and only upper-cases it.  (1) When the
    description reads [Constant 'name'] after [pre], [name] being a
    non-empty run of word characters, and quotes no constant before,
    the fix is [Rename 'name' to 'NAME'], [NAME] being [name] in upper
    case: the name is upper-cased before the camel-case boundaries are
    looked for, so no underscore is ever inserted and the new name is
    as long as the old one.  (2) When the description quotes no
    constant, the fix is the general advice.  (3) One of the two is
    always the case. *)
Theorem constant_fix_only_upper_cases (issue : VulnerabilityIssue) :
  (forall pre name post,
      quotesConstant (description issue) pre name post ->
      firstQuoted (description issue) pre ->
      generateConstantNamingFix issue
      = "Rename '" +:+ name +:+ "' to '" +:+ toUpperCase name +:+ "'"
      /\ String.length (toUpperCase name) = String.length name)
  /\ ((forall pre name post, ~ quotesConstant (description issue) pre name post) ->
      generateConstantNamingFix issue = "Convert to UPPER_CASE_WITH_UNDERSCORES format")
  /\ ((exists pre name post,
          quotesConstant (description issue) pre name post
          /\ firstQuoted (description issue) pre)
      \/ (forall pre name post, ~ quotesConstant (description issue) pre name post)).
Proof.
  pose proof (constant_match (description issue)) as Hmatch.
  unfold generateConstantNamingFix.
  destruct (snd (exec (regexLiteral "Constant '(\w+)'" false false) (description issue)))
    as [mr|].
  - destruct Hmatch as (pre0 & name0 & post0 & Hq0 & Hf0 & Hname).
    split_and!.
    + intros pre name post Hq Hf.
      rewrite (firstQuoted_unique _ _ _ _ _ _ _ Hq Hf Hq0 Hf0).
      cbv zeta. rewrite Hname, upper_case_has_no_camel_hump.
      split; [reflexivity|]. apply upper_word_length, Hq0.
    + intros Hno. destruct (Hno _ _ _ Hq0).
    + left. eauto.
  - split_and!.
    + intros pre name post Hq. destruct (Hmatch _ _ _ Hq).
    + reflexivity.
    + right. exact Hmatch.
Qed.

Lemma constant_fix_only_upper_cases_witness :
  generateConstantNamingFix constantIssue = "Rename 'maxRetries' to 'MAXRETRIES'"
  /\ String.length (toUpperCase "maxRetries") = 10.
Proof.
  refine (proj1 (constant_fix_only_upper_cases constantIssue)
                EmptyString "maxRetries" " should be in upper case" _ _).
  - split_and!; [reflexivity | discriminate |].
    repeat constructor.
  - intros pre' name' post' _. simpl. lia.
Defined.

Lemma constant_fix_example :
  generateFix constantIssue = "Rename 'maxRetries' to 'MAXRETRIES'".
Proof. vm_compute. reflexivity. Qed.

Lemma orElse_nonempty a b : b <> EmptyString -> orElse a b <> EmptyString.
Proof. destruct a; simpl; [trivial | discriminate]. Qed.

Lemma generateConstantNamingFix_nonempty issue :
  generateConstantNamingFix issue <> EmptyString.
Proof.
  unfold generateConstantNamingFix.
  match goal with
  | |- context [match ?e with Some _ => _ | None => _ end] => destruct e
  end; discriminate.
Qed.

Lemma generateFix_nonempty issue : generateFix issue <> EmptyString.
Proof.
  unfold generateFix.
  destruct (includes (description issue) "Constant");
    [apply generateConstantNamingFix_nonempty|].
  destruct (includes (description issue) "nesting"); [discriminate|].
  destruct (includes (description issue) "hardcoded"); [discriminate|].
  destruct (includes (description issue) "SQL injection"); [discriminate|].
  destruct (includes (description issue) "XSS"); [discriminate|].
  apply orElse_nonempty. discriminate.
Qed.

(** X19.  There is one code action per issue, on the issue's line;
    the actions of a line are the actions of all issues filtered by
    that line, in order; and no action has an empty title,
    description, fix or file name, whatever the issue leaves empty. *)
Theorem code_actions_are_complete (self : t) (n : nat) :
  length (getAllCodeActions self) = length (issues self)
  /\ Forall2 (fun issue action => ca_lineNumber action = lineNumber issue)
             (issues self) (getAllCodeActions self)
  /\ getCodeActions self n
     = List.filter (fun action => Nat.eqb (ca_lineNumber action) n)
                   (getAllCodeActions self)
  /\ Forall (fun action =>
               title action <> EmptyString
               /\ ca_description action <> EmptyString
               /\ ca_fix action <> EmptyString
               /\ ca_fileName action <> EmptyString)
            (getAllCodeActions self)
  /\ getAllCodeActions (clear self) = [].
Proof.
  unfold getCodeActions, getAllCodeActions. split_and!.
  - apply length_map.
  - induction (issues self) as [|i l IH]; simpl; constructor; [reflexivity | exact IH].
  - induction (issues self) as [|i l IH]; simpl; [reflexivity|].
    destruct (Nat.eqb (lineNumber i) n); simpl; rewrite IH; reflexivity.
  - apply List.Forall_forall. intros a Ha.
    apply List.in_map_iff in Ha as (i & <- & _). simpl. split_and!.
    + discriminate.
    + apply orElse_nonempty. discriminate.
    + apply generateFix_nonempty.
    + apply orElse_nonempty. discriminate.
  - reflexivity.
Qed.

End CodeActionFacts.


(** ** The diagnostics store *)

Module DiagnosticFacts.
Import JsString JsRegExp Runtime Types DiagnosticProvider DiagnosticExamples.

Lemma bump_total counts d :
  c_error (bump counts d) + c_warning (bump counts d) + c_info (bump counts d)
  = c_error counts + c_warning counts + c_info counts + 1.
Proof. unfold bump. destruct (d_severity d); simpl; lia. Qed.

Lemma fold_bump ds : forall counts,
  c_error (fold_left bump ds counts) = c_error counts + ofSeverity error ds
  /\ c_warning (fold_left bump ds counts) = c_warning counts + ofSeverity warning ds
  /\ c_info (fold_left bump ds counts) = c_info counts + ofSeverity info ds.
Proof.
  unfold ofSeverity.
  induction ds as [|d ds IH]; intros counts; simpl; [lia|].
  destruct (IH (bump counts d)) as (-> & -> & ->).
  unfold bump. destruct (d_severity d); simpl; lia.
Qed.

Lemma ofSeverity_total ds :
  ofSeverity error ds + ofSeverity warning ds + ofSeverity info ds = length ds.
Proof.
  unfold ofSeverity. induction ds as [|d ds IH]; simpl; [reflexivity|].
  destruct (d_severity d); simpl; lia.
Qed.

Lemma fold_bump_comm ds1 ds2 counts :
  fold_left bump ds1 (fold_left bump ds2 counts)
  = fold_left bump ds2 (fold_left bump ds1 counts).
Proof.
  destruct (fold_bump ds1 (fold_left bump ds2 counts)) as (E1 & W1 & I1).
  destruct (fold_bump ds2 counts) as (E2 & W2 & I2).
  destruct (fold_bump ds2 (fold_left bump ds1 counts)) as (E3 & W3 & I3).
  destruct (fold_bump ds1 counts) as (E4 & W4 & I4).
  destruct (fold_left bump ds1 (fold_left bump ds2 counts)) as [e w i].
  destruct (fold_left bump ds2 (fold_left bump ds1 counts)) as [e' w' i'].
  simpl in *. f_equal; lia.
Qed.

Lemma total_insert (self : gmap string (list Diagnostic)) f ds :
  self !! f = None ->
  getTotalIssueCount (<[ f := ds ]> self) = getTotalIssueCount self + length ds.
Proof.
  intros H. unfold getTotalIssueCount.
  rewrite map_fold_insert_L; [reflexivity | | exact H].
  intros. lia.
Qed.

Lemma counts_insert (self : gmap string (list Diagnostic)) f ds :
  self !! f = None ->
  getIssueCountBySeverity (<[ f := ds ]> self)
  = fold_left bump ds (getIssueCountBySeverity self).
Proof.
  intros H. unfold getIssueCountBySeverity.
  rewrite map_fold_insert_L; [reflexivity | | exact H].
  intros. apply fold_bump_comm.
Qed.

Lemma total_split (self : gmap string (list Diagnostic)) f :
  getTotalIssueCount self
  = getTotalIssueCount (delete f self) + length (getDiagnosticsForFile self f).
Proof.
  unfold getDiagnosticsForFile. destruct (self !! f) as [ds|] eqn:E.
  - rewrite <- (insert_delete_id self f ds E) at 1.
    apply total_insert. apply lookup_delete_eq.
  - rewrite delete_id by exact E. simpl. lia.
Qed.

(** X20.  [provideDiagnostics] stores one diagnostic per issue under
    the file name, replacing what was stored for that file and leaving
    every other file alone; each diagnostic keeps the line and the
    description of its issue, high, medium and low becoming error,
    warning and info. *)
Theorem provided_diagnostics_are_stored
        (self : gmap string (list Diagnostic)) (fileName : string) (issues : list VulnerabilityIssue) :
  let self' := fst (provideDiagnostics self fileName issues) in
  let ds := snd (provideDiagnostics self fileName issues) in
  getDiagnosticsForFile self' fileName = ds
  /\ (forall other, other <> fileName ->
                    getDiagnosticsForFile self' other = getDiagnosticsForFile self other)
  /\ Forall2 (fun issue d =>
                line d = lineNumber issue
                /\ d_message d = description issue
                /\ column d = 0
                /\ d_severity d = getSeverity (severity issue)
                /\ (d_severity d = error <-> severity issue = High))
             issues ds
  /\ updateDiagnostics (updateDiagnostics self fileName issues) fileName issues
     = updateDiagnostics self fileName issues.
Proof.
  cbv zeta. unfold updateDiagnostics, provideDiagnostics, getDiagnosticsForFile.
  cbn [fst snd]. split_and!.
  - rewrite lookup_insert_eq. reflexivity.
  - intros other Hne. rewrite lookup_insert_ne by congruence. reflexivity.
  - induction issues as [|i issues IH]; simpl; constructor; [|exact IH].
    split_and!; try reflexivity.
    destruct (severity i); simpl; split; congruence.
  - apply insert_insert_eq.
Qed.

Lemma provided_diagnostics_are_stored_witness :
  getDiagnosticsForFile twoFiles "A.java"
  = getDiagnosticsForFile
      (updateDiagnostics create "A.java"
         [mkIssue "A.java" 3 "Constant 'maxRetries' should be upper case" Medium "m"
                  None "Rename it" None])
      "A.java".
Proof.
  exact (proj1 (proj2 (provided_diagnostics_are_stored
                         (updateDiagnostics create "A.java"
                            [mkIssue "A.java" 3
                                     "Constant 'maxRetries' should be upper case"
                                     Medium "m" None "Rename it" None])
                         "B.java"
                         [mkIssue "B.java" 9 "Deep nesting" High "m" None "Refactor" None;
                          mkIssue "B.java" 12 "TODO left in code" Low "m" None
                                  EmptyString None]))
               "A.java" ltac:(discriminate)).
Defined.

(** X21.  [clearDiagnostics] called with a non-empty file name forgets
    that file only; called without a name, or with the empty string,
    it forgets every file, also when diagnostics are stored under the
    empty name. *)
Theorem clearDiagnostics_scope (self : gmap string (list Diagnostic)) :
  (forall f other,
      f <> EmptyString ->
      getDiagnosticsForFile (clearDiagnostics self (Some f)) f = []
      /\ (other <> f ->
          getDiagnosticsForFile (clearDiagnostics self (Some f)) other
          = getDiagnosticsForFile self other))
  /\ (forall other,
         getDiagnosticsForFile (clearDiagnostics self None) other = []
         /\ getDiagnosticsForFile (clearDiagnostics self (Some EmptyString)) other = [])
  /\ getTotalIssueCount (clearDiagnostics self None) = 0
  /\ getTotalIssueCount (clearDiagnostics self (Some EmptyString)) = 0.
Proof.
  unfold getDiagnosticsForFile. split_and!.
  - intros f other Hf. destruct f as [|c name]; [congruence|]. simpl. split.
    + rewrite lookup_delete_eq. reflexivity.
    + intros Hne. rewrite lookup_delete_ne by congruence. reflexivity.
  - intros other. simpl. rewrite lookup_empty. split; reflexivity.
  - reflexivity.
  - reflexivity.
Qed.

Lemma clearDiagnostics_scope_witness :
  getDiagnosticsForFile (clearDiagnostics twoFiles (Some "A.java")) "A.java" = []
  /\ getDiagnosticsForFile (clearDiagnostics twoFiles (Some "A.java")) "B.java"
     = getDiagnosticsForFile twoFiles "B.java".
Proof.
  pose proof (proj1 (clearDiagnostics_scope twoFiles) "A.java" "B.java"
                    ltac:(discriminate)) as [H1 H2].
  split; [exact H1 | apply H2; discriminate].
Defined.

(** X22.  The three counts of [getIssueCountBySeverity] add up to
    [getTotalIssueCount]; the total is the sum over the files, so
    providing diagnostics for a file changes it by the difference
    between the new and the old number for that file. *)
Theorem diagnostic_counts_add_up
        (self : gmap string (list Diagnostic)) (fileName : string) (issues : list VulnerabilityIssue) :
  c_error (getIssueCountBySeverity self) + c_warning (getIssueCountBySeverity self)
  + c_info (getIssueCountBySeverity self)
  = getTotalIssueCount self
  /\ getTotalIssueCount (updateDiagnostics self fileName issues)
     + length (getDiagnosticsForFile self fileName)
     = getTotalIssueCount self + length issues
  /\ getTotalIssueCount (clearDiagnostics self (Some fileName))
     <= getTotalIssueCount self.
Proof.
  split_and!.
  - induction self as [|f ds self Hf IH] using map_ind.
    + reflexivity.
    + rewrite (counts_insert self f ds Hf), (total_insert self f ds Hf).
      destruct (fold_bump ds (getIssueCountBySeverity self)) as (-> & -> & ->).
      pose proof (ofSeverity_total ds). lia.
  - unfold updateDiagnostics, provideDiagnostics. cbn [fst].
    rewrite <- insert_delete_eq.
    rewrite total_insert by apply lookup_delete_eq.
    rewrite (total_split self fileName).
    unfold convertIssuesToDiagnostics. rewrite length_map. lia.
  - destruct fileName as [|c name]; simpl.
    + unfold getTotalIssueCount. rewrite map_fold_empty. lia.
    + rewrite (total_split self (String c name)). lia.
Qed.

Lemma diagnostic_counts_example :
  getIssueCountBySeverity twoFiles = mkCounts 1 1 1
  /\ getTotalIssueCount twoFiles = 3.
Proof. vm_compute. split; reflexivity. Qed.

End DiagnosticFacts.


(** ** When nothing is hidden *)

Module FirstLoggingLine.
Import JsString JsRegExp Runtime Types Notions Examples JsRegExpFacts
       Measure MeasureFacts Stateless SearchFacts CheckerFacts.

Lemma fresh_id R : lastIndex R = 0 -> fresh R = R.
Proof. destruct R as [src g ic li]. simpl. intros ->. reflexivity. Qed.

(** A probe that fails leaves a fresh pattern fresh. *)
Lemma test_false_fresh R l :
  lastIndex R = 0 -> snd (test R l) = false -> fst (test R l) = R.
Proof.
  intros H0. unfold test, exec. destruct R as [src g ic li]. simpl in *. subst li.
  destruct g; simpl.
  - destruct (searchFrom ic src None (chars l) 0) as [[[i st] st']|];
      [discriminate | reflexivity].
  - destruct (searchFrom ic src None (chars l) 0) as [[[i st] st']|]; reflexivity.
Qed.

Lemma someTest_of_fresh ps line :
  Forall (fun R => lastIndex R = 0) ps ->
  snd (someTest ps line) = mentionsLogging ps line
  /\ (mentionsLogging ps line = false -> fst (someTest ps line) = ps).
Proof.
  induction 1 as [|p ps Hp Hps [IH1 IH2]]; simpl; [auto|].
  rewrite (fresh_id p Hp).
  pose proof (test_false_fresh p line Hp) as Hf.
  destruct (test p line) as [p' b]. simpl in *. destruct b; simpl.
  - split; [reflexivity | discriminate].
  - destruct (someTest ps line) as [ps' b']. simpl in *.
    split; [exact IH1|]. intros Hm. rewrite (Hf eq_refl), (IH2 Hm). reflexivity.
Qed.

Lemma loggingLines_silent {A : Type} ps (f : string -> nat -> list A) lines :
  Forall (fun l => mentionsLogging ps l = false) lines ->
  forall index, loggingLines ps f lines index = [].
Proof.
  induction 1 as [|l lines Hl _ IH]; intros index; simpl; [reflexivity|].
  rewrite Hl, IH. reflexivity.
Qed.

Import LoggingSensitivityChecker.

Lemma checkLines_silent lines : forall self index,
  Forall (fun R => lastIndex R = 0) (loggerPatterns self) ->
  Forall (fun l => mentionsLogging (loggerPatterns self) l = false) lines ->
  checkLines self lines index = (self, []).
Proof.
  induction lines as [|l lines IH]; intros self index Hfresh Hsilent; [reflexivity|].
  inversion Hsilent as [|? ? Hl Hrest]; subst. simpl.
  destruct (someTest_of_fresh (loggerPatterns self) l Hfresh) as [Hb Hps].
  destruct (someTest (loggerPatterns self) l) as [lp b]. simpl in *.
  rewrite Hl in Hb. subst b. rewrite (Hps Hl).
  replace (mkChecker (sensitiveMethodPatterns self) (loggerPatterns self)) with self
    by (destruct self; reflexivity).
  rewrite (IH self (S index) Hfresh Hrest). reflexivity.
Qed.

Lemma checkLines_app pre : forall self post index,
  checkLines self (pre ++ post) index
  = (let r1 := checkLines self pre index in
     let r2 := checkLines (fst r1) post (index + length pre) in
     (fst r2, snd r1 ++ snd r2)).
Proof.
  induction pre as [|l pre IH]; intros self post index; cbv zeta.
  - simpl. rewrite Nat.add_0_r. destruct (checkLines self post index); reflexivity.
  - simpl.
    destruct (someTest (loggerPatterns self) l) as [lp b].
    destruct (if b then _ else _) as [self1 here].
    rewrite IH. cbv zeta.
    destruct (checkLines self1 pre (S index)) as [self2 more]. simpl.
    replace (index + S (length pre)) with (S (index + length pre)) by lia.
    destruct (checkLines self2 post (S (index + length pre))) as [self3 rest].
    simpl. rewrite app_assoc. reflexivity.
Qed.

(** X23.  A checker whose logger patterns are all at [lastIndex] 0, as
    a new one is, reports the first line that holds a logging call in
    full: everything the catalog finds on it, before the issues of the
    later lines.  Hence a text with a single logging line is reported
    completely by a new checker. *)
Theorem first_logging_line_is_reported_in_full
        (self : t) (code : string) (pre post : list string) (l : string) :
  Forall (fun R => lastIndex R = 0) (loggerPatterns self) ->
  splitLines code = pre ++ l :: post ->
  Forall (fun line => mentionsLogging (loggerPatterns self) line = false) pre ->
  mentionsLogging (loggerPatterns self) l = true ->
  exists later,
    snd (checkLoggingSensitivity self code)
    = catalogIssues (sensitiveMethodPatterns self) l (length pre + 1) ++ later
    /\ sublist later
               (loggingLines (loggerPatterns self)
                             (catalogIssues (sensitiveMethodPatterns self))
                             post (length pre + 1))
    /\ (Forall (fun line => mentionsLogging (loggerPatterns self) line = false) post ->
        later = []).
Proof.
  intros Hfresh Hlines Hpre Hl. unfold checkLoggingSensitivity. rewrite Hlines.
  rewrite checkLines_app. cbv zeta.
  rewrite (checkLines_silent pre self 0 Hfresh Hpre). cbn [fst snd app]. simpl.
  destruct (someTest_of_fresh (loggerPatterns self) l Hfresh) as [Hb _].
  pose proof (someTest_fresh (loggerPatterns self) l) as [Hlp _].
  destruct (someTest (loggerPatterns self) l) as [lp b]. simpl in *.
  rewrite Hl in Hb. subst b.
  pose proof (checkSensitivePatterns_spec (sensitiveMethodPatterns self) l (length pre + 1))
    as [Hfound Hsp].
  destruct (checkSensitivePatterns (sensitiveMethodPatterns self) l (length pre + 1))
    as [sp found].
  simpl in *. subst found.
  destruct (checkLines_spec post (mkChecker sp lp) (S (length pre))) as [_ Hsub].
  destruct (checkLines (mkChecker sp lp) post (S (length pre))) as [self2 more].
  simpl in *. exists more.
  rewrite (loggingLines_same _ _ _ post Hlp) in Hsub.
  rewrite (loggingLines_ext _ _ (catalogIssues (sensitiveMethodPatterns self))) in Hsub
    by (intros line n; apply catalogIssues_same; exact Hsp).
  replace (length pre + 1) with (S (length pre)) by lia.
  split_and!; [reflexivity | exact Hsub |].
  intros Hpost. rewrite (loggingLines_silent _ _ post Hpost) in Hsub.
  apply sublist_nil_r in Hsub. exact Hsub.
Qed.

Lemma first_logging_line_is_reported_in_full_witness :
  exists later,
    snd (checkLoggingSensitivity create ("int x = 1;" +:+ nl +:+ printlnLine))
    = catalogIssues (sensitiveMethodPatterns create) printlnLine 2 ++ later
    /\ sublist later
               (loggingLines (loggerPatterns create)
                             (catalogIssues (sensitiveMethodPatterns create)) [] 2)
    /\ (Forall (fun line => mentionsLogging (loggerPatterns create) line = false) [] ->
        later = []).
Proof.
  refine (first_logging_line_is_reported_in_full
            create ("int x = 1;" +:+ nl +:+ printlnLine) ["int x = 1;"] [] printlnLine
            _ _ _ _).
  - vm_compute. repeat constructor.
  - vm_compute. reflexivity.
  - constructor; [vm_compute; reflexivity | constructor].
  - vm_compute. reflexivity.
Defined.

End FirstLoggingLine.

Module FirstLoggingLineSemantic.
Import JsString JsRegExp Runtime Types Notions Examples SemanticExamples JsRegExpFacts
       Stateless SearchFacts CheckerFacts SemanticFacts FirstLoggingLine.
Import SemanticLoggingAnalyzer.

Section Backend.
Variables Vec Num : Type.
Variable cosineSimilarity : Vec -> Vec -> Num.
Variable atLeastThreshold : Num -> bool.
Variable percent : Num -> string.

Lemma scanLines_silent (perLine : t Vec -> string -> nat -> list VulnerabilityIssue)
      lines : forall (self : t Vec) index,
  Forall (fun R => lastIndex R = 0) (LOGGING_PATTERNS Vec self) ->
  Forall (fun l => mentionsLogging (LOGGING_PATTERNS Vec self) l = false) lines ->
  scanLines Vec perLine self lines index = (self, []).
Proof.
  induction lines as [|l lines IH]; intros self index Hfresh Hsilent; [reflexivity|].
  inversion Hsilent as [|? ? Hl Hrest]; subst. simpl.
  destruct (someTest_of_fresh (LOGGING_PATTERNS Vec self) l Hfresh) as [Hb Hps].
  destruct (someTest (LOGGING_PATTERNS Vec self) l) as [lp b]. simpl in *.
  rewrite Hl in Hb. subst b. rewrite (Hps Hl).
  replace (withPatterns Vec self (LOGGING_PATTERNS Vec self)) with self
    by (destruct self; reflexivity).
  rewrite (IH self (S index) Hfresh Hrest). reflexivity.
Qed.

Lemma scanLines_app (perLine : t Vec -> string -> nat -> list VulnerabilityIssue)
      pre : forall (self : t Vec) post index,
  scanLines Vec perLine self (pre ++ post) index
  = (let r1 := scanLines Vec perLine self pre index in
     let r2 := scanLines Vec perLine (fst r1) post (index + length pre) in
     (fst r2, snd r1 ++ snd r2)).
Proof.
  induction pre as [|l pre IH]; intros self post index; cbv zeta.
  - simpl. rewrite Nat.add_0_r. destruct (scanLines Vec perLine self post index);
      reflexivity.
  - simpl.
    destruct (someTest (LOGGING_PATTERNS Vec self) l) as [lp b].
    rewrite IH. cbv zeta.
    destruct (scanLines Vec perLine (withPatterns Vec self lp) pre (S index))
      as [self2 more].
    simpl.
    replace (index + S (length pre)) with (S (index + length pre)) by lia.
    destruct (scanLines Vec perLine self2 post (S (index + length pre))) as [self3 rest].
    simpl. rewrite app_assoc. reflexivity.
Qed.

(** X24.  An analyzer whose logging patterns are all at [lastIndex] 0,
    as a new one is, analyses the first line that holds a logging call
    in full, on the semantic path and on the keyword path alike. *)
Theorem first_logging_line_is_analysed_in_full
        (self : t Vec) (code : string) (pre post : list string) (l : string) :
  Forall (fun R => lastIndex R = 0) (LOGGING_PATTERNS Vec self) ->
  splitLines code = pre ++ l :: post ->
  Forall (fun line => mentionsLogging (LOGGING_PATTERNS Vec self) line = false) pre ->
  mentionsLogging (LOGGING_PATTERNS Vec self) l = true ->
  let perLine :=
    if negb (isInitialized Vec self)
       || match embeddingPipeline Vec self with None => true | Some _ => false end
    then fallbackLineAnalysis
    else analyzeLoggingLine Vec Num cosineSimilarity atLeastThreshold percent self in
  exists later,
    snd (analyzeLoggingStatements Vec Num cosineSimilarity atLeastThreshold percent
                                  self code)
    = perLine l (length pre + 1) ++ later
    /\ sublist later
               (loggingLines (LOGGING_PATTERNS Vec self) perLine post (length pre + 1)).
Proof.
  intros Hfresh Hlines Hpre Hl. cbv zeta.
  assert (Hgen : forall perLine : t Vec -> string -> nat -> list VulnerabilityIssue,
             (forall s lp line n, perLine (withPatterns Vec s lp) line n = perLine s line n) ->
             exists later,
               snd (scanLines Vec perLine self (splitLines code) 0)
               = perLine self l (length pre + 1) ++ later
               /\ sublist later
                          (loggingLines (LOGGING_PATTERNS Vec self) (perLine self) post
                                        (length pre + 1))).
  { intros perLine Hper. rewrite Hlines, scanLines_app. cbv zeta.
    rewrite (scanLines_silent perLine pre self 0 Hfresh Hpre). cbn [fst snd app]. simpl.
    destruct (someTest_of_fresh (LOGGING_PATTERNS Vec self) l Hfresh) as [Hb _].
    pose proof (someTest_fresh (LOGGING_PATTERNS Vec self) l) as [Hlp _].
    destruct (someTest (LOGGING_PATTERNS Vec self) l) as [lp b]. simpl in *.
    rewrite Hl in Hb. subst b.
    destruct (scanLines_spec Vec perLine Hper post (withPatterns Vec self lp)
                             (S (length pre))) as [_ Hsub].
    destruct (scanLines Vec perLine (withPatterns Vec self lp) post (S (length pre)))
      as [self2 more].
    simpl in *. exists more.
    rewrite (loggingLines_same _ _ _ post Hlp) in Hsub.
    rewrite (loggingLines_ext _ _ (perLine self)) in Hsub
      by (intros line n; apply Hper).
    replace (length pre + 1) with (S (length pre)) by lia.
    rewrite Hper. split; [reflexivity | exact Hsub]. }
  unfold analyzeLoggingStatements, fallbackKeywordAnalysis.
  destruct (negb (isInitialized Vec self)
            || match embeddingPipeline Vec self with None => true | Some _ => false end).
  - apply (Hgen (fun _ line n => fallbackLineAnalysis line n)). reflexivity.
  - apply (Hgen (analyzeLoggingLine Vec Num cosineSimilarity atLeastThreshold percent)).
    reflexivity.
Qed.

End Backend.

Lemma first_logging_line_is_analysed_in_full_witness :
  exists later,
    analyzeWith wordPipeline ("int x = 1;" +:+ nl +:+ credentialLine)
    = analyzeLoggingLine string bool containment (fun b => b) ratio
                         (readyAnalyzer wordPipeline) credentialLine 2 ++ later
    /\ sublist later
               (loggingLines (LOGGING_PATTERNS string (readyAnalyzer wordPipeline))
                             (analyzeLoggingLine string bool containment (fun b => b) ratio
                                                 (readyAnalyzer wordPipeline))
                             [] 2).
Proof.
  refine (first_logging_line_is_analysed_in_full
            string bool containment (fun b => b) ratio
            (readyAnalyzer wordPipeline) ("int x = 1;" +:+ nl +:+ credentialLine)
            ["int x = 1;"] [] credentialLine _ _ _ _).
  - vm_compute. repeat constructor.
  - vm_compute. reflexivity.
  - constructor; [vm_compute; reflexivity | constructor].
  - vm_compute. reflexivity.
Defined.

End FirstLoggingLineSemantic.


(** ** What the semantic analysis is given to look at *)

Module ContentFacts.
Import JsString JsRegExp Runtime Types Notions Examples JsRegExpFacts
       Measure MeasureFacts Stateless SearchFacts.
Import SemanticLoggingAnalyzer.

(** [piece] is a run of consecutive units of [text]. *)
Lemma piece_trans (c m l : list ascii) :
  (exists a b, m = a ++ c ++ b) -> (exists a b, l = a ++ m ++ b) ->
  exists a b, l = a ++ c ++ b.
Proof.
  intros (a & b & ->) (a' & b' & ->). exists (a' ++ a), (b ++ b').
  rewrite <- !app_assoc. reflexivity.
Qed.

Lemma piece_includes (c l : string) :
  (exists a b, chars l = a ++ chars c ++ b) -> includes l c = true.
Proof. intros (a & b & H). unfold includes. rewrite H. apply includesChars_app. Qed.

Lemma exec_matched_piece R l R' mr :
  exec R l = (R', Some mr) ->
  (exists a b, chars l = a ++ chars (matched mr) ++ b)
  /\ chars l = firstn (index mr) (chars l) ++ chars (matched mr)
               ++ skipn (index mr + length (chars (matched mr))) (chars l).
Proof.
  intros H. unfold exec in H.
  destruct (seek (if global R then lastIndex R else 0) None (chars l))
    as [[p s]|] eqn:Hs; [|discriminate].
  destruct (searchFrom (ignoreCase R) (source R) p s
                       (if global R then lastIndex R else 0))
    as [[[i st] st']|] eqn:Hf; [|discriminate].
  injection H as _ <-. cbn [matched index].
  pose proof (searchFrom_found _ _ _ _ _ _ _ _ Hf) as (_ & _ & Hseek & Hle).
  pose proof (seek_add _ _ _ _ _ _ _ _ Hs Hseek) as Hpos.
  replace ((if global R then lastIndex R else 0)
           + (i - (if global R then lastIndex R else 0))) with i in Hpos by lia.
  assert (Hcut : forall n p0 s0 q s1,
             seek n p0 s0 = Some (q, s1) -> s0 = firstn n s0 ++ s1 /\ length (firstn n s0) = n).
  { clear. induction n as [|n IH]; intros p0 s0 q s1 H; simpl in H.
    - injection H as _ <-. split; reflexivity.
    - destruct s0 as [|c s0]; [discriminate|].
      apply IH in H as [H1 H2]. simpl. split; [f_equal; exact H1 | f_equal; exact H2]. }
  apply Hcut in Hpos as [Hsplit Hlen].
  unfold ofChars, chars in *. rewrite list_ascii_of_string_of_list_ascii.
  set (cs := list_ascii_of_string l) in *.
  set (m := consumed st st').
  assert (Hrest : rest st = m ++ skipn (length m) (rest st)).
  { unfold m, consumed. rewrite length_firstn.
    rewrite Nat.min_l by lia. symmetry. apply firstn_skipn. }
  split.
  - exists (firstn i cs), (skipn (length m) (rest st)).
    rewrite <- Hrest. exact Hsplit.
  - rewrite Hsplit at 1. f_equal. rewrite Hrest at 1. f_equal.
    rewrite Hsplit at 1. rewrite skipn_app, Hlen.
    replace (i + length m - i) with (length m) by lia.
    rewrite (skipn_all2 (firstn i cs)) by lia. reflexivity.
Qed.

Lemma matchLoop_pieces f : forall R l,
  Forall (fun m => exists a b, chars l = a ++ chars m ++ b) (snd (matchLoop f R l)).
Proof.
  induction f as [|f IH]; intros R l; simpl;
    destruct (exec R l) as [R' [mr|]] eqn:He; simpl; try constructor.
  - eapply exec_matched_piece, He.
  - constructor.
  - match goal with
    | |- context [matchLoop f ?X l] =>
        specialize (IH X l); destruct (matchLoop f X l) as [Rf ms]
    end.
    simpl in *. constructor; [eapply exec_matched_piece, He | exact IH].
Qed.

Lemma matchesOf_pieces l R :
  Forall (fun m => exists a b, chars l = a ++ chars m ++ b) (matchesOf l R).
Proof.
  unfold matchesOf, stringMatch.
  pose proof (matchLoop_pieces (S (String.length l)) (setLastIndex R 0) l) as H.
  destruct (matchLoop _ _ l) as [R' found]. simpl in *.
  destruct found; [constructor | exact H].
Qed.

Lemma matchesOf_piece l R m :
  In m (matchesOf l R) -> exists a b, chars l = a ++ chars m ++ b.
Proof.
  intros H. pose proof (matchesOf_pieces l R) as Hall.
  rewrite List.Forall_forall in Hall. apply Hall, H.
Qed.

Lemma slice_piece (m : string) :
  exists a b, chars m = a ++ chars (slice1m1 m) ++ b.
Proof.
  unfold slice1m1, ofChars, chars. rewrite list_ascii_of_string_of_list_ascii.
  set (cs := list_ascii_of_string m).
  exists (firstn 1 cs), (skipn (length cs - 2) (skipn 1 cs)).
  rewrite firstn_skipn, firstn_skipn. reflexivity.
Qed.

Lemma seek_moved n : forall p s q s',
  seek (S n) p s = Some (q, s') -> q <> None.
Proof.
  induction n as [|n IH]; intros p s q s' H; simpl in H;
    destruct s as [|c s]; try discriminate.
  - injection H as <- _. discriminate.
  - apply (IH (Some c) s q s'). exact H.
Qed.

(** [m.replace(/^\.\s*/, '')] leaves a tail of [m]. *)
Lemma strip_piece (m : string) :
  exists a b,
    chars m
    = a ++ chars (snd (replace m (regexLiteral "^\.\s*" false false) EmptyString)) ++ b.
Proof.
  assert (Hlit : regexLiteral "^\.\s*" false false
                 = mkRegExp (RSeq RStart
                               (RSeq (RSet false [AChar "."])
                                     (RQuant 0 None true (RSet false [ASpace]))))
                            false false 0)
    by (vm_compute; reflexivity).
  rewrite Hlit. clear Hlit. unfold replace.
  destruct (exec _ m) as [R' [mr|]] eqn:He; cbn [snd].
  - pose proof (exec_matched_piece _ _ _ _ He) as [_ Hsplit].
    assert (Hi : index mr = 0).
    { unfold exec in He. cbn [global ignoreCase source lastIndex seek] in He.
      destruct (searchFrom false _ None (chars m) 0) as [[[i st] st']|] eqn:Hf;
        [|discriminate].
      injection He as _ <-. cbn [index].
      apply searchFrom_found in Hf as (Hm & _ & Hseek & _).
      cbn [rmatch] in Hm. destruct (prev st) eqn:Hp; [discriminate|].
      rewrite Nat.sub_0_r in Hseek. destruct i as [|i]; [reflexivity|].
      apply seek_moved in Hseek. congruence. }
    rewrite Hi in *. cbn [firstn app Nat.add] in *.
    change (chars EmptyString) with (@nil ascii). cbn [substitute app].
    unfold ofChars, chars. rewrite list_ascii_of_string_of_list_ascii.
    exists (chars (matched mr)), []. rewrite app_nil_r. exact Hsplit.
  - exists [], []. rewrite app_nil_r. reflexivity.
Qed.

(** X25.  Every piece of content that [extractLoggedContent] hands to
    the semantic analysis is a run of consecutive characters of the
    line, at least three of them. *)
Theorem logged_content_is_part_of_the_line (line : string) :
  Forall (fun content => includes line content = true /\ 3 <= String.length content)
         (extractLoggedContent line).
Proof.
  unfold extractLoggedContent. cbv zeta.
  apply List.Forall_forall. intros c Hc. apply filter_In in Hc as [Hc Hlen].
  split; [|apply Nat.ltb_lt in Hlen; lia].
  apply piece_includes.
  apply in_app_or in Hc as [Hc|Hc]; [|apply in_app_or in Hc as [Hc|Hc]].
  - apply List.in_map_iff in Hc as (m & <- & Hm).
    eapply piece_trans; [apply slice_piece | eapply matchesOf_piece, Hm].
  - destruct (proj1 (List.in_map_iff _ _ _) Hc) as (m & E & Hm). rewrite <- E.
    eapply piece_trans; [apply strip_piece | eapply matchesOf_piece, Hm].
  - eapply matchesOf_piece, Hc.
Qed.

Lemma logged_content_example :
  extractLoggedContent credentialLine = ["password: "; "password"; "user"; "password"].
Proof. vm_compute. reflexivity. Qed.

End ContentFacts.
